(** * AccessVision: the narration pipeline

    A shallow embedding of the TypeScript sources of AccessVision
    (App.tsx, types.ts, services/ttsService.ts, services/geminiService.ts,
    components/CameraView.tsx) and the properties of its narration pipeline:
    prompt construction, urgency classification, the speech arbiter, the
    transcript log, the auto-narration schedule and the single-flight gate.

    Conventions of the embedding.
    - JavaScript strings are [string], the bytes of the UTF-8 form of the
      text; toUpperCase is the Unicode one.
    - JavaScript numbers that are only passed through (speech rate, pitch,
      volume, temperature) are rationals [Q]; millisecond counts, pixel sizes
      and timer handles are integers.
    - A promise that has settled is a value of [Promise]: resolved with a
      value or rejected with an error; [try_catch] is the try/catch block.
    - React state and refs of the App component are the fields of one record
      [App.state]; an event handler is a function on that record.  A value that
      a callback captured when it was created (the [useCallback] dependencies
      of processFrame) travels with the callback as a [closure]. *)

From Stdlib Require Import QArith.
From stdpp Require Import gmap list strings.
From Stdlib Require Import Ascii String.

Local Open Scope string_scope.
Local Open Scope bool_scope.

(** ** types.ts *)

Inductive AppMode := GENERAL | TEXT | SOCIAL | NAVIGATION | SHOPPING.

Inductive Verbosity := MINIMAL | STANDARD | DETAILED.

Inductive Priority := urgent | normal.

Record AppSettings := mkSettings {
  verbosity : Verbosity;
  speechRate : Q;
  autoNarration : bool;
  autoInterval : Z
}.

Record AnalysisResult := mkResult {
  text : string;
  priority : Priority;
  timestamp : Z
}.

(** The string value of each member of the [AppMode] enum. *)
Definition AppMode_value (m : AppMode) : string :=
  match m with
  | GENERAL => "GENERAL"
  | TEXT => "TEXT"
  | SOCIAL => "SOCIAL"
  | NAVIGATION => "NAVIGATION"
  | SHOPPING => "SHOPPING"
  end.

#[global] Instance AppMode_eq_dec : EqDecision AppMode.
Proof. solve_decision. Defined.

#[global] Instance Priority_eq_dec : EqDecision Priority.
Proof. solve_decision. Defined.

(** ** Unicode

    A JavaScript string is a sequence of UTF-16 code units.  Here a text is
    the [string] of the bytes of its UTF-8 form, which is also how a string
    literal of this file is read; a text without lone surrogates has exactly
    one such form, and [includes], [startsWith], [split] and [replace] on it
    agree with the JavaScript methods.  [toUpperCase] works on code points:
    each code point is replaced by its upper case in the Unicode default case
    conversion, which for some code points is two or three code points. *)

Module Unicode.

(** The code points, other than [a] to [z], whose upper case differs from
    themselves, each with its upper case (Unicode 14: the simple mappings of
    UnicodeData.txt and the unconditional mappings of SpecialCasing.txt). *)
Definition toUppercase_rows_0 : list (N * list N) :=
  [
    (0xB5, [0x39C]); (0xDF, [0x53; 0x53]); (0xE0, [0xC0]); (0xE1, [0xC1]);
    (0xE2, [0xC2]); (0xE3, [0xC3]); (0xE4, [0xC4]); (0xE5, [0xC5]);
    (0xE6, [0xC6]); (0xE7, [0xC7]); (0xE8, [0xC8]); (0xE9, [0xC9]);
    (0xEA, [0xCA]); (0xEB, [0xCB]); (0xEC, [0xCC]); (0xED, [0xCD]);
    (0xEE, [0xCE]); (0xEF, [0xCF]); (0xF0, [0xD0]); (0xF1, [0xD1]);
    (0xF2, [0xD2]); (0xF3, [0xD3]); (0xF4, [0xD4]); (0xF5, [0xD5]);
    (0xF6, [0xD6]); (0xF8, [0xD8]); (0xF9, [0xD9]); (0xFA, [0xDA]);
    (0xFB, [0xDB]); (0xFC, [0xDC]); (0xFD, [0xDD]); (0xFE, [0xDE]);
    (0xFF, [0x178]); (0x101, [0x100]); (0x103, [0x102]); (0x105, [0x104]);
    (0x107, [0x106]); (0x109, [0x108]); (0x10B, [0x10A]); (0x10D, [0x10C]);
    (0x10F, [0x10E]); (0x111, [0x110]); (0x113, [0x112]); (0x115, [0x114]);
    (0x117, [0x116]); (0x119, [0x118]); (0x11B, [0x11A]); (0x11D, [0x11C]);
    (0x11F, [0x11E]); (0x121, [0x120]); (0x123, [0x122]); (0x125, [0x124]);
    (0x127, [0x126]); (0x129, [0x128]); (0x12B, [0x12A]); (0x12D, [0x12C]);
    (0x12F, [0x12E]); (0x131, [0x49]); (0x133, [0x132]); (0x135, [0x134]);
    (0x137, [0x136]); (0x13A, [0x139]); (0x13C, [0x13B]); (0x13E, [0x13D]);
    (0x140, [0x13F]); (0x142, [0x141]); (0x144, [0x143]); (0x146, [0x145]);
    (0x148, [0x147]); (0x149, [0x2BC; 0x4E]); (0x14B, [0x14A]); (0x14D, [0x14C]);
    (0x14F, [0x14E]); (0x151, [0x150]); (0x153, [0x152]); (0x155, [0x154]);
    (0x157, [0x156]); (0x159, [0x158]); (0x15B, [0x15A]); (0x15D, [0x15C]);
    (0x15F, [0x15E]); (0x161, [0x160]); (0x163, [0x162]); (0x165, [0x164]);
    (0x167, [0x166]); (0x169, [0x168]); (0x16B, [0x16A]); (0x16D, [0x16C]);
    (0x16F, [0x16E]); (0x171, [0x170]); (0x173, [0x172]); (0x175, [0x174]);
    (0x177, [0x176]); (0x17A, [0x179]); (0x17C, [0x17B]); (0x17E, [0x17D]);
    (0x17F, [0x53]); (0x180, [0x243]); (0x183, [0x182]); (0x185, [0x184]);
    (0x188, [0x187]); (0x18C, [0x18B]); (0x192, [0x191]); (0x195, [0x1F6]);
    (0x199, [0x198]); (0x19A, [0x23D]); (0x19E, [0x220]); (0x1A1, [0x1A0]);
    (0x1A3, [0x1A2]); (0x1A5, [0x1A4]); (0x1A8, [0x1A7]); (0x1AD, [0x1AC]);
    (0x1B0, [0x1AF]); (0x1B4, [0x1B3]); (0x1B6, [0x1B5]); (0x1B9, [0x1B8]);
    (0x1BD, [0x1BC]); (0x1BF, [0x1F7]); (0x1C5, [0x1C4]); (0x1C6, [0x1C4]);
    (0x1C8, [0x1C7]); (0x1C9, [0x1C7]); (0x1CB, [0x1CA]); (0x1CC, [0x1CA]);
    (0x1CE, [0x1CD])
  ]%N.

Definition toUppercase_rows_1 : list (N * list N) :=
  [
    (0x1D0, [0x1CF]); (0x1D2, [0x1D1]); (0x1D4, [0x1D3]); (0x1D6, [0x1D5]);
    (0x1D8, [0x1D7]); (0x1DA, [0x1D9]); (0x1DC, [0x1DB]); (0x1DD, [0x18E]);
    (0x1DF, [0x1DE]); (0x1E1, [0x1E0]); (0x1E3, [0x1E2]); (0x1E5, [0x1E4]);
    (0x1E7, [0x1E6]); (0x1E9, [0x1E8]); (0x1EB, [0x1EA]); (0x1ED, [0x1EC]);
    (0x1EF, [0x1EE]); (0x1F0, [0x4A; 0x30C]); (0x1F2, [0x1F1]); (0x1F3, [0x1F1]);
    (0x1F5, [0x1F4]); (0x1F9, [0x1F8]); (0x1FB, [0x1FA]); (0x1FD, [0x1FC]);
    (0x1FF, [0x1FE]); (0x201, [0x200]); (0x203, [0x202]); (0x205, [0x204]);
    (0x207, [0x206]); (0x209, [0x208]); (0x20B, [0x20A]); (0x20D, [0x20C]);
    (0x20F, [0x20E]); (0x211, [0x210]); (0x213, [0x212]); (0x215, [0x214]);
    (0x217, [0x216]); (0x219, [0x218]); (0x21B, [0x21A]); (0x21D, [0x21C]);
    (0x21F, [0x21E]); (0x223, [0x222]); (0x225, [0x224]); (0x227, [0x226]);
    (0x229, [0x228]); (0x22B, [0x22A]); (0x22D, [0x22C]); (0x22F, [0x22E]);
    (0x231, [0x230]); (0x233, [0x232]); (0x23C, [0x23B]); (0x23F, [0x2C7E]);
    (0x240, [0x2C7F]); (0x242, [0x241]); (0x247, [0x246]); (0x249, [0x248]);
    (0x24B, [0x24A]); (0x24D, [0x24C]); (0x24F, [0x24E]); (0x250, [0x2C6F]);
    (0x251, [0x2C6D]); (0x252, [0x2C70]); (0x253, [0x181]); (0x254, [0x186]);
    (0x256, [0x189]); (0x257, [0x18A]); (0x259, [0x18F]); (0x25B, [0x190]);
    (0x25C, [0xA7AB]); (0x260, [0x193]); (0x261, [0xA7AC]); (0x263, [0x194]);
    (0x265, [0xA78D]); (0x266, [0xA7AA]); (0x268, [0x197]); (0x269, [0x196]);
    (0x26A, [0xA7AE]); (0x26B, [0x2C62]); (0x26C, [0xA7AD]); (0x26F, [0x19C]);
    (0x271, [0x2C6E]); (0x272, [0x19D]); (0x275, [0x19F]); (0x27D, [0x2C64]);
    (0x280, [0x1A6]); (0x282, [0xA7C5]); (0x283, [0x1A9]); (0x287, [0xA7B1]);
    (0x288, [0x1AE]); (0x289, [0x244]); (0x28A, [0x1B1]); (0x28B, [0x1B2]);
    (0x28C, [0x245]); (0x292, [0x1B7]); (0x29D, [0xA7B2]); (0x29E, [0xA7B0]);
    (0x345, [0x399]); (0x371, [0x370]); (0x373, [0x372]); (0x377, [0x376]);
    (0x37B, [0x3FD]); (0x37C, [0x3FE]); (0x37D, [0x3FF]); (0x390, [0x399; 0x308; 0x301]);
    (0x3AC, [0x386]); (0x3AD, [0x388]); (0x3AE, [0x389]); (0x3AF, [0x38A]);
    (0x3B0, [0x3A5; 0x308; 0x301]); (0x3B1, [0x391]); (0x3B2, [0x392]); (0x3B3, [0x393]);
    (0x3B4, [0x394]); (0x3B5, [0x395]); (0x3B6, [0x396]); (0x3B7, [0x397]);
    (0x3B8, [0x398]); (0x3B9, [0x399]); (0x3BA, [0x39A]); (0x3BB, [0x39B]);
    (0x3BC, [0x39C]); (0x3BD, [0x39D]); (0x3BE, [0x39E]); (0x3BF, [0x39F]);
    (0x3C0, [0x3A0])
  ]%N.

Definition toUppercase_rows_2 : list (N * list N) :=
  [
    (0x3C1, [0x3A1]); (0x3C2, [0x3A3]); (0x3C3, [0x3A3]); (0x3C4, [0x3A4]);
    (0x3C5, [0x3A5]); (0x3C6, [0x3A6]); (0x3C7, [0x3A7]); (0x3C8, [0x3A8]);
    (0x3C9, [0x3A9]); (0x3CA, [0x3AA]); (0x3CB, [0x3AB]); (0x3CC, [0x38C]);
    (0x3CD, [0x38E]); (0x3CE, [0x38F]); (0x3D0, [0x392]); (0x3D1, [0x398]);
    (0x3D5, [0x3A6]); (0x3D6, [0x3A0]); (0x3D7, [0x3CF]); (0x3D9, [0x3D8]);
    (0x3DB, [0x3DA]); (0x3DD, [0x3DC]); (0x3DF, [0x3DE]); (0x3E1, [0x3E0]);
    (0x3E3, [0x3E2]); (0x3E5, [0x3E4]); (0x3E7, [0x3E6]); (0x3E9, [0x3E8]);
    (0x3EB, [0x3EA]); (0x3ED, [0x3EC]); (0x3EF, [0x3EE]); (0x3F0, [0x39A]);
    (0x3F1, [0x3A1]); (0x3F2, [0x3F9]); (0x3F3, [0x37F]); (0x3F5, [0x395]);
    (0x3F8, [0x3F7]); (0x3FB, [0x3FA]); (0x430, [0x410]); (0x431, [0x411]);
    (0x432, [0x412]); (0x433, [0x413]); (0x434, [0x414]); (0x435, [0x415]);
    (0x436, [0x416]); (0x437, [0x417]); (0x438, [0x418]); (0x439, [0x419]);
    (0x43A, [0x41A]); (0x43B, [0x41B]); (0x43C, [0x41C]); (0x43D, [0x41D]);
    (0x43E, [0x41E]); (0x43F, [0x41F]); (0x440, [0x420]); (0x441, [0x421]);
    (0x442, [0x422]); (0x443, [0x423]); (0x444, [0x424]); (0x445, [0x425]);
    (0x446, [0x426]); (0x447, [0x427]); (0x448, [0x428]); (0x449, [0x429]);
    (0x44A, [0x42A]); (0x44B, [0x42B]); (0x44C, [0x42C]); (0x44D, [0x42D]);
    (0x44E, [0x42E]); (0x44F, [0x42F]); (0x450, [0x400]); (0x451, [0x401]);
    (0x452, [0x402]); (0x453, [0x403]); (0x454, [0x404]); (0x455, [0x405]);
    (0x456, [0x406]); (0x457, [0x407]); (0x458, [0x408]); (0x459, [0x409]);
    (0x45A, [0x40A]); (0x45B, [0x40B]); (0x45C, [0x40C]); (0x45D, [0x40D]);
    (0x45E, [0x40E]); (0x45F, [0x40F]); (0x461, [0x460]); (0x463, [0x462]);
    (0x465, [0x464]); (0x467, [0x466]); (0x469, [0x468]); (0x46B, [0x46A]);
    (0x46D, [0x46C]); (0x46F, [0x46E]); (0x471, [0x470]); (0x473, [0x472]);
    (0x475, [0x474]); (0x477, [0x476]); (0x479, [0x478]); (0x47B, [0x47A]);
    (0x47D, [0x47C]); (0x47F, [0x47E]); (0x481, [0x480]); (0x48B, [0x48A]);
    (0x48D, [0x48C]); (0x48F, [0x48E]); (0x491, [0x490]); (0x493, [0x492]);
    (0x495, [0x494]); (0x497, [0x496]); (0x499, [0x498]); (0x49B, [0x49A]);
    (0x49D, [0x49C]); (0x49F, [0x49E]); (0x4A1, [0x4A0]); (0x4A3, [0x4A2]);
    (0x4A5, [0x4A4]); (0x4A7, [0x4A6]); (0x4A9, [0x4A8]); (0x4AB, [0x4AA]);
    (0x4AD, [0x4AC]); (0x4AF, [0x4AE]); (0x4B1, [0x4B0]); (0x4B3, [0x4B2]);
    (0x4B5, [0x4B4])
  ]%N.

Definition toUppercase_rows_3 : list (N * list N) :=
  [
    (0x4B7, [0x4B6]); (0x4B9, [0x4B8]); (0x4BB, [0x4BA]); (0x4BD, [0x4BC]);
    (0x4BF, [0x4BE]); (0x4C2, [0x4C1]); (0x4C4, [0x4C3]); (0x4C6, [0x4C5]);
    (0x4C8, [0x4C7]); (0x4CA, [0x4C9]); (0x4CC, [0x4CB]); (0x4CE, [0x4CD]);
    (0x4CF, [0x4C0]); (0x4D1, [0x4D0]); (0x4D3, [0x4D2]); (0x4D5, [0x4D4]);
    (0x4D7, [0x4D6]); (0x4D9, [0x4D8]); (0x4DB, [0x4DA]); (0x4DD, [0x4DC]);
    (0x4DF, [0x4DE]); (0x4E1, [0x4E0]); (0x4E3, [0x4E2]); (0x4E5, [0x4E4]);
    (0x4E7, [0x4E6]); (0x4E9, [0x4E8]); (0x4EB, [0x4EA]); (0x4ED, [0x4EC]);
    (0x4EF, [0x4EE]); (0x4F1, [0x4F0]); (0x4F3, [0x4F2]); (0x4F5, [0x4F4]);
    (0x4F7, [0x4F6]); (0x4F9, [0x4F8]); (0x4FB, [0x4FA]); (0x4FD, [0x4FC]);
    (0x4FF, [0x4FE]); (0x501, [0x500]); (0x503, [0x502]); (0x505, [0x504]);
    (0x507, [0x506]); (0x509, [0x508]); (0x50B, [0x50A]); (0x50D, [0x50C]);
    (0x50F, [0x50E]); (0x511, [0x510]); (0x513, [0x512]); (0x515, [0x514]);
    (0x517, [0x516]); (0x519, [0x518]); (0x51B, [0x51A]); (0x51D, [0x51C]);
    (0x51F, [0x51E]); (0x521, [0x520]); (0x523, [0x522]); (0x525, [0x524]);
    (0x527, [0x526]); (0x529, [0x528]); (0x52B, [0x52A]); (0x52D, [0x52C]);
    (0x52F, [0x52E]); (0x561, [0x531]); (0x562, [0x532]); (0x563, [0x533]);
    (0x564, [0x534]); (0x565, [0x535]); (0x566, [0x536]); (0x567, [0x537]);
    (0x568, [0x538]); (0x569, [0x539]); (0x56A, [0x53A]); (0x56B, [0x53B]);
    (0x56C, [0x53C]); (0x56D, [0x53D]); (0x56E, [0x53E]); (0x56F, [0x53F]);
    (0x570, [0x540]); (0x571, [0x541]); (0x572, [0x542]); (0x573, [0x543]);
    (0x574, [0x544]); (0x575, [0x545]); (0x576, [0x546]); (0x577, [0x547]);
    (0x578, [0x548]); (0x579, [0x549]); (0x57A, [0x54A]); (0x57B, [0x54B]);
    (0x57C, [0x54C]); (0x57D, [0x54D]); (0x57E, [0x54E]); (0x57F, [0x54F]);
    (0x580, [0x550]); (0x581, [0x551]); (0x582, [0x552]); (0x583, [0x553]);
    (0x584, [0x554]); (0x585, [0x555]); (0x586, [0x556]); (0x587, [0x535; 0x552]);
    (0x10D0, [0x1C90]); (0x10D1, [0x1C91]); (0x10D2, [0x1C92]); (0x10D3, [0x1C93]);
    (0x10D4, [0x1C94]); (0x10D5, [0x1C95]); (0x10D6, [0x1C96]); (0x10D7, [0x1C97]);
    (0x10D8, [0x1C98]); (0x10D9, [0x1C99]); (0x10DA, [0x1C9A]); (0x10DB, [0x1C9B]);
    (0x10DC, [0x1C9C]); (0x10DD, [0x1C9D]); (0x10DE, [0x1C9E]); (0x10DF, [0x1C9F]);
    (0x10E0, [0x1CA0]); (0x10E1, [0x1CA1]); (0x10E2, [0x1CA2]); (0x10E3, [0x1CA3]);
    (0x10E4, [0x1CA4]); (0x10E5, [0x1CA5]); (0x10E6, [0x1CA6]); (0x10E7, [0x1CA7]);
    (0x10E8, [0x1CA8])
  ]%N.

Definition toUppercase_rows_4 : list (N * list N) :=
  [
    (0x10E9, [0x1CA9]); (0x10EA, [0x1CAA]); (0x10EB, [0x1CAB]); (0x10EC, [0x1CAC]);
    (0x10ED, [0x1CAD]); (0x10EE, [0x1CAE]); (0x10EF, [0x1CAF]); (0x10F0, [0x1CB0]);
    (0x10F1, [0x1CB1]); (0x10F2, [0x1CB2]); (0x10F3, [0x1CB3]); (0x10F4, [0x1CB4]);
    (0x10F5, [0x1CB5]); (0x10F6, [0x1CB6]); (0x10F7, [0x1CB7]); (0x10F8, [0x1CB8]);
    (0x10F9, [0x1CB9]); (0x10FA, [0x1CBA]); (0x10FD, [0x1CBD]); (0x10FE, [0x1CBE]);
    (0x10FF, [0x1CBF]); (0x13F8, [0x13F0]); (0x13F9, [0x13F1]); (0x13FA, [0x13F2]);
    (0x13FB, [0x13F3]); (0x13FC, [0x13F4]); (0x13FD, [0x13F5]); (0x1C80, [0x412]);
    (0x1C81, [0x414]); (0x1C82, [0x41E]); (0x1C83, [0x421]); (0x1C84, [0x422]);
    (0x1C85, [0x422]); (0x1C86, [0x42A]); (0x1C87, [0x462]); (0x1C88, [0xA64A]);
    (0x1D79, [0xA77D]); (0x1D7D, [0x2C63]); (0x1D8E, [0xA7C6]); (0x1E01, [0x1E00]);
    (0x1E03, [0x1E02]); (0x1E05, [0x1E04]); (0x1E07, [0x1E06]); (0x1E09, [0x1E08]);
    (0x1E0B, [0x1E0A]); (0x1E0D, [0x1E0C]); (0x1E0F, [0x1E0E]); (0x1E11, [0x1E10]);
    (0x1E13, [0x1E12]); (0x1E15, [0x1E14]); (0x1E17, [0x1E16]); (0x1E19, [0x1E18]);
    (0x1E1B, [0x1E1A]); (0x1E1D, [0x1E1C]); (0x1E1F, [0x1E1E]); (0x1E21, [0x1E20]);
    (0x1E23, [0x1E22]); (0x1E25, [0x1E24]); (0x1E27, [0x1E26]); (0x1E29, [0x1E28]);
    (0x1E2B, [0x1E2A]); (0x1E2D, [0x1E2C]); (0x1E2F, [0x1E2E]); (0x1E31, [0x1E30]);
    (0x1E33, [0x1E32]); (0x1E35, [0x1E34]); (0x1E37, [0x1E36]); (0x1E39, [0x1E38]);
    (0x1E3B, [0x1E3A]); (0x1E3D, [0x1E3C]); (0x1E3F, [0x1E3E]); (0x1E41, [0x1E40]);
    (0x1E43, [0x1E42]); (0x1E45, [0x1E44]); (0x1E47, [0x1E46]); (0x1E49, [0x1E48]);
    (0x1E4B, [0x1E4A]); (0x1E4D, [0x1E4C]); (0x1E4F, [0x1E4E]); (0x1E51, [0x1E50]);
    (0x1E53, [0x1E52]); (0x1E55, [0x1E54]); (0x1E57, [0x1E56]); (0x1E59, [0x1E58]);
    (0x1E5B, [0x1E5A]); (0x1E5D, [0x1E5C]); (0x1E5F, [0x1E5E]); (0x1E61, [0x1E60]);
    (0x1E63, [0x1E62]); (0x1E65, [0x1E64]); (0x1E67, [0x1E66]); (0x1E69, [0x1E68]);
    (0x1E6B, [0x1E6A]); (0x1E6D, [0x1E6C]); (0x1E6F, [0x1E6E]); (0x1E71, [0x1E70]);
    (0x1E73, [0x1E72]); (0x1E75, [0x1E74]); (0x1E77, [0x1E76]); (0x1E79, [0x1E78]);
    (0x1E7B, [0x1E7A]); (0x1E7D, [0x1E7C]); (0x1E7F, [0x1E7E]); (0x1E81, [0x1E80]);
    (0x1E83, [0x1E82]); (0x1E85, [0x1E84]); (0x1E87, [0x1E86]); (0x1E89, [0x1E88]);
    (0x1E8B, [0x1E8A]); (0x1E8D, [0x1E8C]); (0x1E8F, [0x1E8E]); (0x1E91, [0x1E90]);
    (0x1E93, [0x1E92]); (0x1E95, [0x1E94]); (0x1E96, [0x48; 0x331]); (0x1E97, [0x54; 0x308]);
    (0x1E98, [0x57; 0x30A]); (0x1E99, [0x59; 0x30A]); (0x1E9A, [0x41; 0x2BE]); (0x1E9B, [0x1E60]);
    (0x1EA1, [0x1EA0]); (0x1EA3, [0x1EA2]); (0x1EA5, [0x1EA4]); (0x1EA7, [0x1EA6]);
    (0x1EA9, [0x1EA8])
  ]%N.

Definition toUppercase_rows_5 : list (N * list N) :=
  [
    (0x1EAB, [0x1EAA]); (0x1EAD, [0x1EAC]); (0x1EAF, [0x1EAE]); (0x1EB1, [0x1EB0]);
    (0x1EB3, [0x1EB2]); (0x1EB5, [0x1EB4]); (0x1EB7, [0x1EB6]); (0x1EB9, [0x1EB8]);
    (0x1EBB, [0x1EBA]); (0x1EBD, [0x1EBC]); (0x1EBF, [0x1EBE]); (0x1EC1, [0x1EC0]);
    (0x1EC3, [0x1EC2]); (0x1EC5, [0x1EC4]); (0x1EC7, [0x1EC6]); (0x1EC9, [0x1EC8]);
    (0x1ECB, [0x1ECA]); (0x1ECD, [0x1ECC]); (0x1ECF, [0x1ECE]); (0x1ED1, [0x1ED0]);
    (0x1ED3, [0x1ED2]); (0x1ED5, [0x1ED4]); (0x1ED7, [0x1ED6]); (0x1ED9, [0x1ED8]);
    (0x1EDB, [0x1EDA]); (0x1EDD, [0x1EDC]); (0x1EDF, [0x1EDE]); (0x1EE1, [0x1EE0]);
    (0x1EE3, [0x1EE2]); (0x1EE5, [0x1EE4]); (0x1EE7, [0x1EE6]); (0x1EE9, [0x1EE8]);
    (0x1EEB, [0x1EEA]); (0x1EED, [0x1EEC]); (0x1EEF, [0x1EEE]); (0x1EF1, [0x1EF0]);
    (0x1EF3, [0x1EF2]); (0x1EF5, [0x1EF4]); (0x1EF7, [0x1EF6]); (0x1EF9, [0x1EF8]);
    (0x1EFB, [0x1EFA]); (0x1EFD, [0x1EFC]); (0x1EFF, [0x1EFE]); (0x1F00, [0x1F08]);
    (0x1F01, [0x1F09]); (0x1F02, [0x1F0A]); (0x1F03, [0x1F0B]); (0x1F04, [0x1F0C]);
    (0x1F05, [0x1F0D]); (0x1F06, [0x1F0E]); (0x1F07, [0x1F0F]); (0x1F10, [0x1F18]);
    (0x1F11, [0x1F19]); (0x1F12, [0x1F1A]); (0x1F13, [0x1F1B]); (0x1F14, [0x1F1C]);
    (0x1F15, [0x1F1D]); (0x1F20, [0x1F28]); (0x1F21, [0x1F29]); (0x1F22, [0x1F2A]);
    (0x1F23, [0x1F2B]); (0x1F24, [0x1F2C]); (0x1F25, [0x1F2D]); (0x1F26, [0x1F2E]);
    (0x1F27, [0x1F2F]); (0x1F30, [0x1F38]); (0x1F31, [0x1F39]); (0x1F32, [0x1F3A]);
    (0x1F33, [0x1F3B]); (0x1F34, [0x1F3C]); (0x1F35, [0x1F3D]); (0x1F36, [0x1F3E]);
    (0x1F37, [0x1F3F]); (0x1F40, [0x1F48]); (0x1F41, [0x1F49]); (0x1F42, [0x1F4A]);
    (0x1F43, [0x1F4B]); (0x1F44, [0x1F4C]); (0x1F45, [0x1F4D]); (0x1F50, [0x3A5; 0x313]);
    (0x1F51, [0x1F59]); (0x1F52, [0x3A5; 0x313; 0x300]); (0x1F53, [0x1F5B]); (0x1F54, [0x3A5; 0x313; 0x301]);
    (0x1F55, [0x1F5D]); (0x1F56, [0x3A5; 0x313; 0x342]); (0x1F57, [0x1F5F]); (0x1F60, [0x1F68]);
    (0x1F61, [0x1F69]); (0x1F62, [0x1F6A]); (0x1F63, [0x1F6B]); (0x1F64, [0x1F6C]);
    (0x1F65, [0x1F6D]); (0x1F66, [0x1F6E]); (0x1F67, [0x1F6F]); (0x1F70, [0x1FBA]);
    (0x1F71, [0x1FBB]); (0x1F72, [0x1FC8]); (0x1F73, [0x1FC9]); (0x1F74, [0x1FCA]);
    (0x1F75, [0x1FCB]); (0x1F76, [0x1FDA]); (0x1F77, [0x1FDB]); (0x1F78, [0x1FF8]);
    (0x1F79, [0x1FF9]); (0x1F7A, [0x1FEA]); (0x1F7B, [0x1FEB]); (0x1F7C, [0x1FFA]);
    (0x1F7D, [0x1FFB]); (0x1F80, [0x1F08; 0x399]); (0x1F81, [0x1F09; 0x399]); (0x1F82, [0x1F0A; 0x399]);
    (0x1F83, [0x1F0B; 0x399]); (0x1F84, [0x1F0C; 0x399]); (0x1F85, [0x1F0D; 0x399]); (0x1F86, [0x1F0E; 0x399]);
    (0x1F87, [0x1F0F; 0x399]); (0x1F88, [0x1F08; 0x399]); (0x1F89, [0x1F09; 0x399]); (0x1F8A, [0x1F0A; 0x399]);
    (0x1F8B, [0x1F0B; 0x399]); (0x1F8C, [0x1F0C; 0x399]); (0x1F8D, [0x1F0D; 0x399]); (0x1F8E, [0x1F0E; 0x399]);
    (0x1F8F, [0x1F0F; 0x399])
  ]%N.

Definition toUppercase_rows_6 : list (N * list N) :=
  [
    (0x1F90, [0x1F28; 0x399]); (0x1F91, [0x1F29; 0x399]); (0x1F92, [0x1F2A; 0x399]); (0x1F93, [0x1F2B; 0x399]);
    (0x1F94, [0x1F2C; 0x399]); (0x1F95, [0x1F2D; 0x399]); (0x1F96, [0x1F2E; 0x399]); (0x1F97, [0x1F2F; 0x399]);
    (0x1F98, [0x1F28; 0x399]); (0x1F99, [0x1F29; 0x399]); (0x1F9A, [0x1F2A; 0x399]); (0x1F9B, [0x1F2B; 0x399]);
    (0x1F9C, [0x1F2C; 0x399]); (0x1F9D, [0x1F2D; 0x399]); (0x1F9E, [0x1F2E; 0x399]); (0x1F9F, [0x1F2F; 0x399]);
    (0x1FA0, [0x1F68; 0x399]); (0x1FA1, [0x1F69; 0x399]); (0x1FA2, [0x1F6A; 0x399]); (0x1FA3, [0x1F6B; 0x399]);
    (0x1FA4, [0x1F6C; 0x399]); (0x1FA5, [0x1F6D; 0x399]); (0x1FA6, [0x1F6E; 0x399]); (0x1FA7, [0x1F6F; 0x399]);
    (0x1FA8, [0x1F68; 0x399]); (0x1FA9, [0x1F69; 0x399]); (0x1FAA, [0x1F6A; 0x399]); (0x1FAB, [0x1F6B; 0x399]);
    (0x1FAC, [0x1F6C; 0x399]); (0x1FAD, [0x1F6D; 0x399]); (0x1FAE, [0x1F6E; 0x399]); (0x1FAF, [0x1F6F; 0x399]);
    (0x1FB0, [0x1FB8]); (0x1FB1, [0x1FB9]); (0x1FB2, [0x1FBA; 0x399]); (0x1FB3, [0x391; 0x399]);
    (0x1FB4, [0x386; 0x399]); (0x1FB6, [0x391; 0x342]); (0x1FB7, [0x391; 0x342; 0x399]); (0x1FBC, [0x391; 0x399]);
    (0x1FBE, [0x399]); (0x1FC2, [0x1FCA; 0x399]); (0x1FC3, [0x397; 0x399]); (0x1FC4, [0x389; 0x399]);
    (0x1FC6, [0x397; 0x342]); (0x1FC7, [0x397; 0x342; 0x399]); (0x1FCC, [0x397; 0x399]); (0x1FD0, [0x1FD8]);
    (0x1FD1, [0x1FD9]); (0x1FD2, [0x399; 0x308; 0x300]); (0x1FD3, [0x399; 0x308; 0x301]); (0x1FD6, [0x399; 0x342]);
    (0x1FD7, [0x399; 0x308; 0x342]); (0x1FE0, [0x1FE8]); (0x1FE1, [0x1FE9]); (0x1FE2, [0x3A5; 0x308; 0x300]);
    (0x1FE3, [0x3A5; 0x308; 0x301]); (0x1FE4, [0x3A1; 0x313]); (0x1FE5, [0x1FEC]); (0x1FE6, [0x3A5; 0x342]);
    (0x1FE7, [0x3A5; 0x308; 0x342]); (0x1FF2, [0x1FFA; 0x399]); (0x1FF3, [0x3A9; 0x399]); (0x1FF4, [0x38F; 0x399]);
    (0x1FF6, [0x3A9; 0x342]); (0x1FF7, [0x3A9; 0x342; 0x399]); (0x1FFC, [0x3A9; 0x399]); (0x214E, [0x2132]);
    (0x2170, [0x2160]); (0x2171, [0x2161]); (0x2172, [0x2162]); (0x2173, [0x2163]);
    (0x2174, [0x2164]); (0x2175, [0x2165]); (0x2176, [0x2166]); (0x2177, [0x2167]);
    (0x2178, [0x2168]); (0x2179, [0x2169]); (0x217A, [0x216A]); (0x217B, [0x216B]);
    (0x217C, [0x216C]); (0x217D, [0x216D]); (0x217E, [0x216E]); (0x217F, [0x216F]);
    (0x2184, [0x2183]); (0x24D0, [0x24B6]); (0x24D1, [0x24B7]); (0x24D2, [0x24B8]);
    (0x24D3, [0x24B9]); (0x24D4, [0x24BA]); (0x24D5, [0x24BB]); (0x24D6, [0x24BC]);
    (0x24D7, [0x24BD]); (0x24D8, [0x24BE]); (0x24D9, [0x24BF]); (0x24DA, [0x24C0]);
    (0x24DB, [0x24C1]); (0x24DC, [0x24C2]); (0x24DD, [0x24C3]); (0x24DE, [0x24C4]);
    (0x24DF, [0x24C5]); (0x24E0, [0x24C6]); (0x24E1, [0x24C7]); (0x24E2, [0x24C8]);
    (0x24E3, [0x24C9]); (0x24E4, [0x24CA]); (0x24E5, [0x24CB]); (0x24E6, [0x24CC]);
    (0x24E7, [0x24CD]); (0x24E8, [0x24CE]); (0x24E9, [0x24CF]); (0x2C30, [0x2C00]);
    (0x2C31, [0x2C01]); (0x2C32, [0x2C02]); (0x2C33, [0x2C03]); (0x2C34, [0x2C04]);
    (0x2C35, [0x2C05]); (0x2C36, [0x2C06]); (0x2C37, [0x2C07]); (0x2C38, [0x2C08]);
    (0x2C39, [0x2C09]); (0x2C3A, [0x2C0A]); (0x2C3B, [0x2C0B]); (0x2C3C, [0x2C0C]);
    (0x2C3D, [0x2C0D])
  ]%N.

Definition toUppercase_rows_7 : list (N * list N) :=
  [
    (0x2C3E, [0x2C0E]); (0x2C3F, [0x2C0F]); (0x2C40, [0x2C10]); (0x2C41, [0x2C11]);
    (0x2C42, [0x2C12]); (0x2C43, [0x2C13]); (0x2C44, [0x2C14]); (0x2C45, [0x2C15]);
    (0x2C46, [0x2C16]); (0x2C47, [0x2C17]); (0x2C48, [0x2C18]); (0x2C49, [0x2C19]);
    (0x2C4A, [0x2C1A]); (0x2C4B, [0x2C1B]); (0x2C4C, [0x2C1C]); (0x2C4D, [0x2C1D]);
    (0x2C4E, [0x2C1E]); (0x2C4F, [0x2C1F]); (0x2C50, [0x2C20]); (0x2C51, [0x2C21]);
    (0x2C52, [0x2C22]); (0x2C53, [0x2C23]); (0x2C54, [0x2C24]); (0x2C55, [0x2C25]);
    (0x2C56, [0x2C26]); (0x2C57, [0x2C27]); (0x2C58, [0x2C28]); (0x2C59, [0x2C29]);
    (0x2C5A, [0x2C2A]); (0x2C5B, [0x2C2B]); (0x2C5C, [0x2C2C]); (0x2C5D, [0x2C2D]);
    (0x2C5E, [0x2C2E]); (0x2C5F, [0x2C2F]); (0x2C61, [0x2C60]); (0x2C65, [0x23A]);
    (0x2C66, [0x23E]); (0x2C68, [0x2C67]); (0x2C6A, [0x2C69]); (0x2C6C, [0x2C6B]);
    (0x2C73, [0x2C72]); (0x2C76, [0x2C75]); (0x2C81, [0x2C80]); (0x2C83, [0x2C82]);
    (0x2C85, [0x2C84]); (0x2C87, [0x2C86]); (0x2C89, [0x2C88]); (0x2C8B, [0x2C8A]);
    (0x2C8D, [0x2C8C]); (0x2C8F, [0x2C8E]); (0x2C91, [0x2C90]); (0x2C93, [0x2C92]);
    (0x2C95, [0x2C94]); (0x2C97, [0x2C96]); (0x2C99, [0x2C98]); (0x2C9B, [0x2C9A]);
    (0x2C9D, [0x2C9C]); (0x2C9F, [0x2C9E]); (0x2CA1, [0x2CA0]); (0x2CA3, [0x2CA2]);
    (0x2CA5, [0x2CA4]); (0x2CA7, [0x2CA6]); (0x2CA9, [0x2CA8]); (0x2CAB, [0x2CAA]);
    (0x2CAD, [0x2CAC]); (0x2CAF, [0x2CAE]); (0x2CB1, [0x2CB0]); (0x2CB3, [0x2CB2]);
    (0x2CB5, [0x2CB4]); (0x2CB7, [0x2CB6]); (0x2CB9, [0x2CB8]); (0x2CBB, [0x2CBA]);
    (0x2CBD, [0x2CBC]); (0x2CBF, [0x2CBE]); (0x2CC1, [0x2CC0]); (0x2CC3, [0x2CC2]);
    (0x2CC5, [0x2CC4]); (0x2CC7, [0x2CC6]); (0x2CC9, [0x2CC8]); (0x2CCB, [0x2CCA]);
    (0x2CCD, [0x2CCC]); (0x2CCF, [0x2CCE]); (0x2CD1, [0x2CD0]); (0x2CD3, [0x2CD2]);
    (0x2CD5, [0x2CD4]); (0x2CD7, [0x2CD6]); (0x2CD9, [0x2CD8]); (0x2CDB, [0x2CDA]);
    (0x2CDD, [0x2CDC]); (0x2CDF, [0x2CDE]); (0x2CE1, [0x2CE0]); (0x2CE3, [0x2CE2]);
    (0x2CEC, [0x2CEB]); (0x2CEE, [0x2CED]); (0x2CF3, [0x2CF2]); (0x2D00, [0x10A0]);
    (0x2D01, [0x10A1]); (0x2D02, [0x10A2]); (0x2D03, [0x10A3]); (0x2D04, [0x10A4]);
    (0x2D05, [0x10A5]); (0x2D06, [0x10A6]); (0x2D07, [0x10A7]); (0x2D08, [0x10A8]);
    (0x2D09, [0x10A9]); (0x2D0A, [0x10AA]); (0x2D0B, [0x10AB]); (0x2D0C, [0x10AC]);
    (0x2D0D, [0x10AD]); (0x2D0E, [0x10AE]); (0x2D0F, [0x10AF]); (0x2D10, [0x10B0]);
    (0x2D11, [0x10B1]); (0x2D12, [0x10B2]); (0x2D13, [0x10B3]); (0x2D14, [0x10B4]);
    (0x2D15, [0x10B5]); (0x2D16, [0x10B6]); (0x2D17, [0x10B7]); (0x2D18, [0x10B8]);
    (0x2D19, [0x10B9]); (0x2D1A, [0x10BA]); (0x2D1B, [0x10BB]); (0x2D1C, [0x10BC]);
    (0x2D1D, [0x10BD])
  ]%N.

Definition toUppercase_rows_8 : list (N * list N) :=
  [
    (0x2D1E, [0x10BE]); (0x2D1F, [0x10BF]); (0x2D20, [0x10C0]); (0x2D21, [0x10C1]);
    (0x2D22, [0x10C2]); (0x2D23, [0x10C3]); (0x2D24, [0x10C4]); (0x2D25, [0x10C5]);
    (0x2D27, [0x10C7]); (0x2D2D, [0x10CD]); (0xA641, [0xA640]); (0xA643, [0xA642]);
    (0xA645, [0xA644]); (0xA647, [0xA646]); (0xA649, [0xA648]); (0xA64B, [0xA64A]);
    (0xA64D, [0xA64C]); (0xA64F, [0xA64E]); (0xA651, [0xA650]); (0xA653, [0xA652]);
    (0xA655, [0xA654]); (0xA657, [0xA656]); (0xA659, [0xA658]); (0xA65B, [0xA65A]);
    (0xA65D, [0xA65C]); (0xA65F, [0xA65E]); (0xA661, [0xA660]); (0xA663, [0xA662]);
    (0xA665, [0xA664]); (0xA667, [0xA666]); (0xA669, [0xA668]); (0xA66B, [0xA66A]);
    (0xA66D, [0xA66C]); (0xA681, [0xA680]); (0xA683, [0xA682]); (0xA685, [0xA684]);
    (0xA687, [0xA686]); (0xA689, [0xA688]); (0xA68B, [0xA68A]); (0xA68D, [0xA68C]);
    (0xA68F, [0xA68E]); (0xA691, [0xA690]); (0xA693, [0xA692]); (0xA695, [0xA694]);
    (0xA697, [0xA696]); (0xA699, [0xA698]); (0xA69B, [0xA69A]); (0xA723, [0xA722]);
    (0xA725, [0xA724]); (0xA727, [0xA726]); (0xA729, [0xA728]); (0xA72B, [0xA72A]);
    (0xA72D, [0xA72C]); (0xA72F, [0xA72E]); (0xA733, [0xA732]); (0xA735, [0xA734]);
    (0xA737, [0xA736]); (0xA739, [0xA738]); (0xA73B, [0xA73A]); (0xA73D, [0xA73C]);
    (0xA73F, [0xA73E]); (0xA741, [0xA740]); (0xA743, [0xA742]); (0xA745, [0xA744]);
    (0xA747, [0xA746]); (0xA749, [0xA748]); (0xA74B, [0xA74A]); (0xA74D, [0xA74C]);
    (0xA74F, [0xA74E]); (0xA751, [0xA750]); (0xA753, [0xA752]); (0xA755, [0xA754]);
    (0xA757, [0xA756]); (0xA759, [0xA758]); (0xA75B, [0xA75A]); (0xA75D, [0xA75C]);
    (0xA75F, [0xA75E]); (0xA761, [0xA760]); (0xA763, [0xA762]); (0xA765, [0xA764]);
    (0xA767, [0xA766]); (0xA769, [0xA768]); (0xA76B, [0xA76A]); (0xA76D, [0xA76C]);
    (0xA76F, [0xA76E]); (0xA77A, [0xA779]); (0xA77C, [0xA77B]); (0xA77F, [0xA77E]);
    (0xA781, [0xA780]); (0xA783, [0xA782]); (0xA785, [0xA784]); (0xA787, [0xA786]);
    (0xA78C, [0xA78B]); (0xA791, [0xA790]); (0xA793, [0xA792]); (0xA794, [0xA7C4]);
    (0xA797, [0xA796]); (0xA799, [0xA798]); (0xA79B, [0xA79A]); (0xA79D, [0xA79C]);
    (0xA79F, [0xA79E]); (0xA7A1, [0xA7A0]); (0xA7A3, [0xA7A2]); (0xA7A5, [0xA7A4]);
    (0xA7A7, [0xA7A6]); (0xA7A9, [0xA7A8]); (0xA7B5, [0xA7B4]); (0xA7B7, [0xA7B6]);
    (0xA7B9, [0xA7B8]); (0xA7BB, [0xA7BA]); (0xA7BD, [0xA7BC]); (0xA7BF, [0xA7BE]);
    (0xA7C1, [0xA7C0]); (0xA7C3, [0xA7C2]); (0xA7C8, [0xA7C7]); (0xA7CA, [0xA7C9]);
    (0xA7D1, [0xA7D0]); (0xA7D7, [0xA7D6]); (0xA7D9, [0xA7D8]); (0xA7F6, [0xA7F5]);
    (0xAB53, [0xA7B3]); (0xAB70, [0x13A0]); (0xAB71, [0x13A1]); (0xAB72, [0x13A2]);
    (0xAB73, [0x13A3])
  ]%N.

Definition toUppercase_rows_9 : list (N * list N) :=
  [
    (0xAB74, [0x13A4]); (0xAB75, [0x13A5]); (0xAB76, [0x13A6]); (0xAB77, [0x13A7]);
    (0xAB78, [0x13A8]); (0xAB79, [0x13A9]); (0xAB7A, [0x13AA]); (0xAB7B, [0x13AB]);
    (0xAB7C, [0x13AC]); (0xAB7D, [0x13AD]); (0xAB7E, [0x13AE]); (0xAB7F, [0x13AF]);
    (0xAB80, [0x13B0]); (0xAB81, [0x13B1]); (0xAB82, [0x13B2]); (0xAB83, [0x13B3]);
    (0xAB84, [0x13B4]); (0xAB85, [0x13B5]); (0xAB86, [0x13B6]); (0xAB87, [0x13B7]);
    (0xAB88, [0x13B8]); (0xAB89, [0x13B9]); (0xAB8A, [0x13BA]); (0xAB8B, [0x13BB]);
    (0xAB8C, [0x13BC]); (0xAB8D, [0x13BD]); (0xAB8E, [0x13BE]); (0xAB8F, [0x13BF]);
    (0xAB90, [0x13C0]); (0xAB91, [0x13C1]); (0xAB92, [0x13C2]); (0xAB93, [0x13C3]);
    (0xAB94, [0x13C4]); (0xAB95, [0x13C5]); (0xAB96, [0x13C6]); (0xAB97, [0x13C7]);
    (0xAB98, [0x13C8]); (0xAB99, [0x13C9]); (0xAB9A, [0x13CA]); (0xAB9B, [0x13CB]);
    (0xAB9C, [0x13CC]); (0xAB9D, [0x13CD]); (0xAB9E, [0x13CE]); (0xAB9F, [0x13CF]);
    (0xABA0, [0x13D0]); (0xABA1, [0x13D1]); (0xABA2, [0x13D2]); (0xABA3, [0x13D3]);
    (0xABA4, [0x13D4]); (0xABA5, [0x13D5]); (0xABA6, [0x13D6]); (0xABA7, [0x13D7]);
    (0xABA8, [0x13D8]); (0xABA9, [0x13D9]); (0xABAA, [0x13DA]); (0xABAB, [0x13DB]);
    (0xABAC, [0x13DC]); (0xABAD, [0x13DD]); (0xABAE, [0x13DE]); (0xABAF, [0x13DF]);
    (0xABB0, [0x13E0]); (0xABB1, [0x13E1]); (0xABB2, [0x13E2]); (0xABB3, [0x13E3]);
    (0xABB4, [0x13E4]); (0xABB5, [0x13E5]); (0xABB6, [0x13E6]); (0xABB7, [0x13E7]);
    (0xABB8, [0x13E8]); (0xABB9, [0x13E9]); (0xABBA, [0x13EA]); (0xABBB, [0x13EB]);
    (0xABBC, [0x13EC]); (0xABBD, [0x13ED]); (0xABBE, [0x13EE]); (0xABBF, [0x13EF]);
    (0xFB00, [0x46; 0x46]); (0xFB01, [0x46; 0x49]); (0xFB02, [0x46; 0x4C]); (0xFB03, [0x46; 0x46; 0x49]);
    (0xFB04, [0x46; 0x46; 0x4C]); (0xFB05, [0x53; 0x54]); (0xFB06, [0x53; 0x54]); (0xFB13, [0x544; 0x546]);
    (0xFB14, [0x544; 0x535]); (0xFB15, [0x544; 0x53B]); (0xFB16, [0x54E; 0x546]); (0xFB17, [0x544; 0x53D]);
    (0xFF41, [0xFF21]); (0xFF42, [0xFF22]); (0xFF43, [0xFF23]); (0xFF44, [0xFF24]);
    (0xFF45, [0xFF25]); (0xFF46, [0xFF26]); (0xFF47, [0xFF27]); (0xFF48, [0xFF28]);
    (0xFF49, [0xFF29]); (0xFF4A, [0xFF2A]); (0xFF4B, [0xFF2B]); (0xFF4C, [0xFF2C]);
    (0xFF4D, [0xFF2D]); (0xFF4E, [0xFF2E]); (0xFF4F, [0xFF2F]); (0xFF50, [0xFF30]);
    (0xFF51, [0xFF31]); (0xFF52, [0xFF32]); (0xFF53, [0xFF33]); (0xFF54, [0xFF34]);
    (0xFF55, [0xFF35]); (0xFF56, [0xFF36]); (0xFF57, [0xFF37]); (0xFF58, [0xFF38]);
    (0xFF59, [0xFF39]); (0xFF5A, [0xFF3A]); (0x10428, [0x10400]); (0x10429, [0x10401]);
    (0x1042A, [0x10402]); (0x1042B, [0x10403]); (0x1042C, [0x10404]); (0x1042D, [0x10405]);
    (0x1042E, [0x10406]); (0x1042F, [0x10407]); (0x10430, [0x10408]); (0x10431, [0x10409]);
    (0x10432, [0x1040A])
  ]%N.

Definition toUppercase_rows_10 : list (N * list N) :=
  [
    (0x10433, [0x1040B]); (0x10434, [0x1040C]); (0x10435, [0x1040D]); (0x10436, [0x1040E]);
    (0x10437, [0x1040F]); (0x10438, [0x10410]); (0x10439, [0x10411]); (0x1043A, [0x10412]);
    (0x1043B, [0x10413]); (0x1043C, [0x10414]); (0x1043D, [0x10415]); (0x1043E, [0x10416]);
    (0x1043F, [0x10417]); (0x10440, [0x10418]); (0x10441, [0x10419]); (0x10442, [0x1041A]);
    (0x10443, [0x1041B]); (0x10444, [0x1041C]); (0x10445, [0x1041D]); (0x10446, [0x1041E]);
    (0x10447, [0x1041F]); (0x10448, [0x10420]); (0x10449, [0x10421]); (0x1044A, [0x10422]);
    (0x1044B, [0x10423]); (0x1044C, [0x10424]); (0x1044D, [0x10425]); (0x1044E, [0x10426]);
    (0x1044F, [0x10427]); (0x104D8, [0x104B0]); (0x104D9, [0x104B1]); (0x104DA, [0x104B2]);
    (0x104DB, [0x104B3]); (0x104DC, [0x104B4]); (0x104DD, [0x104B5]); (0x104DE, [0x104B6]);
    (0x104DF, [0x104B7]); (0x104E0, [0x104B8]); (0x104E1, [0x104B9]); (0x104E2, [0x104BA]);
    (0x104E3, [0x104BB]); (0x104E4, [0x104BC]); (0x104E5, [0x104BD]); (0x104E6, [0x104BE]);
    (0x104E7, [0x104BF]); (0x104E8, [0x104C0]); (0x104E9, [0x104C1]); (0x104EA, [0x104C2]);
    (0x104EB, [0x104C3]); (0x104EC, [0x104C4]); (0x104ED, [0x104C5]); (0x104EE, [0x104C6]);
    (0x104EF, [0x104C7]); (0x104F0, [0x104C8]); (0x104F1, [0x104C9]); (0x104F2, [0x104CA]);
    (0x104F3, [0x104CB]); (0x104F4, [0x104CC]); (0x104F5, [0x104CD]); (0x104F6, [0x104CE]);
    (0x104F7, [0x104CF]); (0x104F8, [0x104D0]); (0x104F9, [0x104D1]); (0x104FA, [0x104D2]);
    (0x104FB, [0x104D3]); (0x10597, [0x10570]); (0x10598, [0x10571]); (0x10599, [0x10572]);
    (0x1059A, [0x10573]); (0x1059B, [0x10574]); (0x1059C, [0x10575]); (0x1059D, [0x10576]);
    (0x1059E, [0x10577]); (0x1059F, [0x10578]); (0x105A0, [0x10579]); (0x105A1, [0x1057A]);
    (0x105A3, [0x1057C]); (0x105A4, [0x1057D]); (0x105A5, [0x1057E]); (0x105A6, [0x1057F]);
    (0x105A7, [0x10580]); (0x105A8, [0x10581]); (0x105A9, [0x10582]); (0x105AA, [0x10583]);
    (0x105AB, [0x10584]); (0x105AC, [0x10585]); (0x105AD, [0x10586]); (0x105AE, [0x10587]);
    (0x105AF, [0x10588]); (0x105B0, [0x10589]); (0x105B1, [0x1058A]); (0x105B3, [0x1058C]);
    (0x105B4, [0x1058D]); (0x105B5, [0x1058E]); (0x105B6, [0x1058F]); (0x105B7, [0x10590]);
    (0x105B8, [0x10591]); (0x105B9, [0x10592]); (0x105BB, [0x10594]); (0x105BC, [0x10595]);
    (0x10CC0, [0x10C80]); (0x10CC1, [0x10C81]); (0x10CC2, [0x10C82]); (0x10CC3, [0x10C83]);
    (0x10CC4, [0x10C84]); (0x10CC5, [0x10C85]); (0x10CC6, [0x10C86]); (0x10CC7, [0x10C87]);
    (0x10CC8, [0x10C88]); (0x10CC9, [0x10C89]); (0x10CCA, [0x10C8A]); (0x10CCB, [0x10C8B]);
    (0x10CCC, [0x10C8C]); (0x10CCD, [0x10C8D]); (0x10CCE, [0x10C8E]); (0x10CCF, [0x10C8F]);
    (0x10CD0, [0x10C90]); (0x10CD1, [0x10C91]); (0x10CD2, [0x10C92]); (0x10CD3, [0x10C93]);
    (0x10CD4, [0x10C94]); (0x10CD5, [0x10C95]); (0x10CD6, [0x10C96]); (0x10CD7, [0x10C97]);
    (0x10CD8, [0x10C98])
  ]%N.

Definition toUppercase_rows_11 : list (N * list N) :=
  [
    (0x10CD9, [0x10C99]); (0x10CDA, [0x10C9A]); (0x10CDB, [0x10C9B]); (0x10CDC, [0x10C9C]);
    (0x10CDD, [0x10C9D]); (0x10CDE, [0x10C9E]); (0x10CDF, [0x10C9F]); (0x10CE0, [0x10CA0]);
    (0x10CE1, [0x10CA1]); (0x10CE2, [0x10CA2]); (0x10CE3, [0x10CA3]); (0x10CE4, [0x10CA4]);
    (0x10CE5, [0x10CA5]); (0x10CE6, [0x10CA6]); (0x10CE7, [0x10CA7]); (0x10CE8, [0x10CA8]);
    (0x10CE9, [0x10CA9]); (0x10CEA, [0x10CAA]); (0x10CEB, [0x10CAB]); (0x10CEC, [0x10CAC]);
    (0x10CED, [0x10CAD]); (0x10CEE, [0x10CAE]); (0x10CEF, [0x10CAF]); (0x10CF0, [0x10CB0]);
    (0x10CF1, [0x10CB1]); (0x10CF2, [0x10CB2]); (0x118C0, [0x118A0]); (0x118C1, [0x118A1]);
    (0x118C2, [0x118A2]); (0x118C3, [0x118A3]); (0x118C4, [0x118A4]); (0x118C5, [0x118A5]);
    (0x118C6, [0x118A6]); (0x118C7, [0x118A7]); (0x118C8, [0x118A8]); (0x118C9, [0x118A9]);
    (0x118CA, [0x118AA]); (0x118CB, [0x118AB]); (0x118CC, [0x118AC]); (0x118CD, [0x118AD]);
    (0x118CE, [0x118AE]); (0x118CF, [0x118AF]); (0x118D0, [0x118B0]); (0x118D1, [0x118B1]);
    (0x118D2, [0x118B2]); (0x118D3, [0x118B3]); (0x118D4, [0x118B4]); (0x118D5, [0x118B5]);
    (0x118D6, [0x118B6]); (0x118D7, [0x118B7]); (0x118D8, [0x118B8]); (0x118D9, [0x118B9]);
    (0x118DA, [0x118BA]); (0x118DB, [0x118BB]); (0x118DC, [0x118BC]); (0x118DD, [0x118BD]);
    (0x118DE, [0x118BE]); (0x118DF, [0x118BF]); (0x16E60, [0x16E40]); (0x16E61, [0x16E41]);
    (0x16E62, [0x16E42]); (0x16E63, [0x16E43]); (0x16E64, [0x16E44]); (0x16E65, [0x16E45]);
    (0x16E66, [0x16E46]); (0x16E67, [0x16E47]); (0x16E68, [0x16E48]); (0x16E69, [0x16E49]);
    (0x16E6A, [0x16E4A]); (0x16E6B, [0x16E4B]); (0x16E6C, [0x16E4C]); (0x16E6D, [0x16E4D]);
    (0x16E6E, [0x16E4E]); (0x16E6F, [0x16E4F]); (0x16E70, [0x16E50]); (0x16E71, [0x16E51]);
    (0x16E72, [0x16E52]); (0x16E73, [0x16E53]); (0x16E74, [0x16E54]); (0x16E75, [0x16E55]);
    (0x16E76, [0x16E56]); (0x16E77, [0x16E57]); (0x16E78, [0x16E58]); (0x16E79, [0x16E59]);
    (0x16E7A, [0x16E5A]); (0x16E7B, [0x16E5B]); (0x16E7C, [0x16E5C]); (0x16E7D, [0x16E5D]);
    (0x16E7E, [0x16E5E]); (0x16E7F, [0x16E5F]); (0x1E922, [0x1E900]); (0x1E923, [0x1E901]);
    (0x1E924, [0x1E902]); (0x1E925, [0x1E903]); (0x1E926, [0x1E904]); (0x1E927, [0x1E905]);
    (0x1E928, [0x1E906]); (0x1E929, [0x1E907]); (0x1E92A, [0x1E908]); (0x1E92B, [0x1E909]);
    (0x1E92C, [0x1E90A]); (0x1E92D, [0x1E90B]); (0x1E92E, [0x1E90C]); (0x1E92F, [0x1E90D]);
    (0x1E930, [0x1E90E]); (0x1E931, [0x1E90F]); (0x1E932, [0x1E910]); (0x1E933, [0x1E911]);
    (0x1E934, [0x1E912]); (0x1E935, [0x1E913]); (0x1E936, [0x1E914]); (0x1E937, [0x1E915]);
    (0x1E938, [0x1E916]); (0x1E939, [0x1E917]); (0x1E93A, [0x1E918]); (0x1E93B, [0x1E919]);
    (0x1E93C, [0x1E91A]); (0x1E93D, [0x1E91B]); (0x1E93E, [0x1E91C]); (0x1E93F, [0x1E91D]);
    (0x1E940, [0x1E91E]); (0x1E941, [0x1E91F]); (0x1E942, [0x1E920]); (0x1E943, [0x1E921])
  ]%N.

Definition toUppercase_table : list (N * list N) :=
  (toUppercase_rows_0
   ++ toUppercase_rows_1
   ++ toUppercase_rows_2
   ++ toUppercase_rows_3
   ++ toUppercase_rows_4
   ++ toUppercase_rows_5
   ++ toUppercase_rows_6
   ++ toUppercase_rows_7
   ++ toUppercase_rows_8
   ++ toUppercase_rows_9
   ++ toUppercase_rows_10
   ++ toUppercase_rows_11)%list.

Fixpoint lookup (cp : N) (table : list (N * list N)) : option (list N) :=
  match table with
  | [] => None
  | (k, upper) :: rest => if (k =? cp)%N then Some upper else lookup cp rest
  end.

(** toUppercase of one code point. *)
Definition toUppercase (cp : N) : list N :=
  if ((0x61 <=? cp) && (cp <=? 0x7A))%N then [(cp - 0x20)%N]
  else if (cp <? 0x80)%N then [cp]
  else match lookup cp toUppercase_table with
       | Some upper => upper
       | None => [cp]
       end.

Definition byte (n : N) : string := String (ascii_of_N n) EmptyString.

(** The UTF-8 form of a code point. *)
Definition encode (cp : N) : string :=
  if (cp <? 0x80)%N then byte cp
  else if (cp <? 0x800)%N then
    byte (N.lor 0xC0 (N.shiftr cp 6)) +:+ byte (N.lor 0x80 (N.land cp 0x3F))
  else if (cp <? 0x10000)%N then
    byte (N.lor 0xE0 (N.shiftr cp 12)) +:+ byte (N.lor 0x80 (N.land (N.shiftr cp 6) 0x3F))
    +:+ byte (N.lor 0x80 (N.land cp 0x3F))
  else
    byte (N.lor 0xF0 (N.shiftr cp 18)) +:+ byte (N.lor 0x80 (N.land (N.shiftr cp 12) 0x3F))
    +:+ byte (N.lor 0x80 (N.land (N.shiftr cp 6) 0x3F)) +:+ byte (N.lor 0x80 (N.land cp 0x3F)).

Fixpoint encode_all (cps : list N) : string :=
  match cps with
  | [] => EmptyString
  | cp :: rest => encode cp +:+ encode_all rest
  end.

Definition is_continuation (b : ascii) : bool :=
  ((0x80 <=? N_of_ascii b) && (N_of_ascii b <? 0xC0))%N.

(** The number of bytes of the sequence that starts with the byte [b]; 0 when
    no sequence starts with [b]. *)
Definition sequence_length (b : ascii) : nat :=
  let n := N_of_ascii b in
  if (n <? 0x80)%N then 1
  else if ((0xC2 <=? n) && (n <? 0xE0))%N then 2
  else if ((0xE0 <=? n) && (n <? 0xF0))%N then 3
  else if ((0xF0 <=? n) && (n <? 0xF5))%N then 4
  else 0.

Definition payload (b : ascii) : N := N.land (N_of_ascii b) 0x3F.

(** The code point of a whole sequence; none for the forms UTF-8 excludes
    (overlong forms, surrogates, code points above U+10FFFF). *)
Definition decode (bytes : string) : option N :=
  match bytes with
  | String b1 EmptyString =>
      if (N_of_ascii b1 <? 0x80)%N then Some (N_of_ascii b1) else None
  | String b1 (String b2 EmptyString) =>
      Some (N.lor (N.shiftl (N.land (N_of_ascii b1) 0x1F) 6) (payload b2))
  | String b1 (String b2 (String b3 EmptyString)) =>
      let cp := N.lor (N.shiftl (N.land (N_of_ascii b1) 0x0F) 12)
                  (N.lor (N.shiftl (payload b2) 6) (payload b3)) in
      if ((0x800 <=? cp) && negb ((0xD800 <=? cp) && (cp <=? 0xDFFF)))%N then Some cp else None
  | String b1 (String b2 (String b3 (String b4 EmptyString))) =>
      let cp := N.lor (N.shiftl (N.land (N_of_ascii b1) 0x07) 18)
                  (N.lor (N.shiftl (payload b2) 12)
                     (N.lor (N.shiftl (payload b3) 6) (payload b4))) in
      if ((0x10000 <=? cp) && (cp <=? 0x10FFFF))%N then Some cp else None
  | _ => None
  end.

(** The upper case of one whole sequence; bytes that are the form of no code
    point stay as they are. *)
Definition upper_sequence (bytes : string) : string :=
  match decode bytes with
  | Some cp => encode_all (toUppercase cp)
  | None => bytes
  end.

(** The upper case of a text, byte by byte: [pending] holds the bytes of a
    sequence that is not yet whole. *)
Fixpoint upper_go (pending : string) (s : string) : string :=
  match s with
  | EmptyString => pending
  | String b rest =>
      if is_continuation b && negb (Nat.eqb (String.length pending) 0) then
        let pending' := pending +:+ String b EmptyString in
        if Nat.eqb (String.length pending')
             (match pending' with
              | String lead _ => sequence_length lead
              | EmptyString => 0
              end)
        then upper_sequence pending' +:+ upper_go EmptyString rest
        else upper_go pending' rest
      else
        pending +:+
        match sequence_length b with
        | 0 => String b (upper_go EmptyString rest)
        | 1 => upper_sequence (String b EmptyString) +:+ upper_go EmptyString rest
        | _ => upper_go (String b EmptyString) rest
        end
  end.

End Unicode.

(** ** The string methods the sources call *)

Module Str.

Definition is_lower (c : ascii) : bool :=
  (97 <=? nat_of_ascii c)%nat && (nat_of_ascii c <=? 122)%nat.

Definition is_upper (c : ascii) : bool :=
  (65 <=? nat_of_ascii c)%nat && (nat_of_ascii c <=? 90)%nat.

(** The capital form and the small form of a character of ASCII. *)
Definition upper_char (c : ascii) : ascii :=
  if is_lower c then ascii_of_nat (nat_of_ascii c - 32) else c.

Definition lower_char (c : ascii) : ascii :=
  if is_upper c then ascii_of_nat (nat_of_ascii c + 32) else c.

Fixpoint map_chars (f : ascii -> ascii) (s : string) : string :=
  match s with
  | EmptyString => EmptyString
  | String c rest => String (f c) (map_chars f rest)
  end.

(** [s.toUpperCase()], and [s.toLowerCase()] for a text of the characters of
    ASCII (the code applies it to the values of the [AppMode] enum). *)
Definition toUpperCase (s : string) : string := Unicode.upper_go EmptyString s.
Definition toLowerCase (s : string) : string := map_chars lower_char s.

(** [s.startsWith(p)]. *)
Fixpoint startsWith (p s : string) : bool :=
  match p, s with
  | EmptyString, _ => true
  | String _ _, EmptyString => false
  | String a p', String b s' => if Ascii.eqb a b then startsWith p' s' else false
  end.

(** [hay.includes(needle)]: [needle] occurs in [hay] at some position. *)
Fixpoint includes (needle hay : string) : bool :=
  startsWith needle hay ||
  match hay with
  | EmptyString => false
  | String _ rest => includes needle rest
  end.

(** [s.replace(a, b)] for one-character strings [a] and [b]: only the first
    occurrence is replaced. *)
Fixpoint replace_first (a b : ascii) (s : string) : string :=
  match s with
  | EmptyString => EmptyString
  | String c rest =>
      if Ascii.eqb c a then String b rest else String c (replace_first a b rest)
  end.

(** [s.split(c)] for a one-character separator. *)
Fixpoint split_go (c : ascii) (cur : string) (s : string) : list string :=
  match s with
  | EmptyString => [cur]
  | String d rest =>
      if Ascii.eqb d c then cur :: split_go c EmptyString rest
      else split_go c (cur +:+ String d EmptyString) rest
  end.

Definition split (c : ascii) (s : string) : list string := split_go c EmptyString s.

(** A string in a boolean position: the empty string is falsy. *)
Definition truthy (s : string) : bool :=
  match s with EmptyString => false | String _ _ => true end.

(** [s || d] where [s] may be undefined. *)
Definition or_else (s : option string) (d : string) : string :=
  match s with
  | Some s' => if truthy s' then s' else d
  | None => d
  end.

End Str.

(** ** Settled promises and try/catch *)

Inductive Promise (A : Type) : Type :=
| Resolved (a : A)
| Rejected (e : string).

Arguments Resolved {A} a.
Arguments Rejected {A} e.

Definition bind {A B : Type} (p : Promise A) (k : A -> Promise B) : Promise B :=
  match p with
  | Resolved a => k a
  | Rejected e => Rejected e
  end.

Definition try_catch {A : Type} (body : Promise A) (handler : string -> Promise A)
  : Promise A :=
  match body with
  | Resolved a => Resolved a
  | Rejected e => handler e
  end.

Notation "'await' x <- p ; k" := (bind p (fun x => k))
  (at level 10, x name, p at level 100, k at level 200).

(** ** services/geminiService.ts *)

Module Gemini.

Definition SYSTEM_INSTRUCTION : string := "
You are an intelligent accessibility assistant for visually impaired users. 
Your goal is to be their eyes. 
Speak naturally, clearly, and concisely. 
Use spatial language (clock positions, distance in feet/steps). 
Always prioritize safety warnings (stairs, cars, obstacles) before other details.
Do not use markdown formatting like asterisks or bullet points in the output, just plain text suitable for text-to-speech.
".

(** The [switch] of getPromptForMode. *)
Definition basePrompt (mode : AppMode) : string :=
  match mode with
  | NAVIGATION => "Navigation Mode. Focus ONLY on the path ahead. Identify obstacles, clear paths, doorways, changes in elevation (stairs, curbs), and hazards. Give specific directions and distances."
  | TEXT => "Text Reader Mode. Read all visible text clearly. If it's a menu, read items and prices. If it's a sign, explain its purpose. If it's a document, identify fields. Ignore background clutter."
  | SOCIAL => "Social Mode. Describe people, their approximate ages, facial expressions, body language, and where they are looking. Describe the social atmosphere (relaxed, busy, private conversation)."
  | SHOPPING => "Shopping Mode. Identify products, read brand names and prices if visible. Compare items if multiple are present. Mention colors and packaging details."
  | GENERAL => "General Mode. Describe the scene comprehensively but concisely. Mention the most important objects, people, and layout of the room or area. Identify immediate surroundings."
  end.

(** The [if] chain of getPromptForMode. *)
Definition lengthInstruction (v : Verbosity) : string :=
  match v with
  | MINIMAL => "Keep response under 15 words. Only critical info and hazards."
  | STANDARD => "Keep response under 40 words. Balance detail with speed."
  | DETAILED => "Provide a detailed description (up to 70 words)."
  end.

(** The sentence the template literal of getPromptForMode ends with. *)
Definition warningRule : string :=
  "If you see an immediate danger (car, drop-off, fire), start with 'WARNING:'.".

Definition getPromptForMode (mode : AppMode) (v : Verbosity) : string :=
  basePrompt mode +:+ " " +:+ lengthInstruction v +:+ " " +:+ warningRule.

Record InlineData := mkInlineData { mimeType : string; data : string }.

Record GenerateContentParameters := mkParams {
  model : string;
  inlineData : InlineData;
  promptText : string;
  systemInstruction : string;
  temperature : Q
}.

(** What the code reads of a response: [response.text], possibly undefined. *)
Record GenerateContentResponse := mkResponse { responseText : option string }.

(** The object analyzeImage returns, [{ text, isUrgent }]. *)
Record AnalysisOutput := mkOutput { outText : string; isUrgent : bool }.

(** The argument of [ai.models.generateContent] in analyzeImage. *)
Definition request (base64Image : string) (prompt : string) : GenerateContentParameters :=
  {| model := "gemini-2.5-flash";
     inlineData := {| mimeType := "image/jpeg"; data := base64Image |};
     promptText := prompt;
     systemInstruction := SYSTEM_INSTRUCTION;
     temperature := (4 # 10)%Q |}.

(** The result of the [catch] block of analyzeImage. *)
Definition connectionError : AnalysisOutput :=
  {| outText := "Connection error. Please try again."; isUrgent := false |}.

(** analyzeImage, with [ai.models.generateContent] as a parameter: the
    analysis service either resolves with a response or rejects. *)
Definition analyzeImage
    (generateContent : GenerateContentParameters -> Promise GenerateContentResponse)
    (base64Image : string) (mode : AppMode) (v : Verbosity) : Promise AnalysisOutput :=
  try_catch
    (let prompt := getPromptForMode mode v in
     await response <- generateContent (request base64Image prompt);
     let text := Str.or_else (responseText response) "I couldn't analyze the scene." in
     let isUrgent := Str.includes "WARNING" (Str.toUpperCase text)
                     || Str.includes "CAUTION" (Str.toUpperCase text) in
     Resolved {| outText := text; isUrgent := isUrgent |})
    (fun error => Resolved connectionError).

End Gemini.

(** ** The speech output device

    The Web Speech API objects the TTS service drives.  The service uses four
    members of [window.speechSynthesis]: [cancel()], [speak(u)], [speaking]
    and [getVoices()]. *)

Record SpeechSynthesisVoice := mkVoice { lang : string; localService : bool }.

Record SpeechSynthesisUtterance := mkUtterance {
  uttText : string;
  rate : Q;
  pitch : Q;
  volume : Q;
  voice : option SpeechSynthesisVoice
}.

Class SpeechSynthesis (D : Type) := {
  synth_cancel : D -> D;
  synth_speak : SpeechSynthesisUtterance -> D -> D;
  synth_speaking : D -> bool;
  synth_getVoices : D -> list SpeechSynthesisVoice
}.

(** The device as the Web Speech API describes it: a queue of utterances whose
    head is the one being spoken.  [cancel] removes every utterance from the
    queue, [speak] adds one at the end, and the device is speaking exactly
    when its queue is not empty. *)
Record Speaker := mkSpeaker {
  voices : list SpeechSynthesisVoice;
  queue : list SpeechSynthesisUtterance
}.

#[global] Instance Speaker_synthesis : SpeechSynthesis Speaker := {
  synth_cancel d := {| voices := voices d; queue := [] |};
  synth_speak u d := {| voices := voices d; queue := queue d ++ [u] |};
  synth_speaking d := match queue d with [] => false | _ :: _ => true end;
  synth_getVoices d := voices d
}.

(** The utterance at the head of the queue has been spoken to its end. *)
Definition utterance_ends (d : Speaker) : Speaker :=
  {| voices := voices d; queue := tail (queue d) |}.

(** ** services/ttsService.ts *)

Module TTS.

Section Service.
Context {D : Type} `{SpeechSynthesis D}.

Record TTSService := mkTTS {
  synthesis : D;
  currentUtterance : option SpeechSynthesisUtterance
}.

Definition stop (this : TTSService) : TTSService :=
  {| synthesis := synth_cancel (synthesis this);
     currentUtterance := currentUtterance this |}.

(** [voices.find(v => v.lang.startsWith('en') && v.localService) ||
     voices.find(v => v.lang.startsWith('en'))]. *)
Definition preferredVoice (vs : list SpeechSynthesisVoice) : option SpeechSynthesisVoice :=
  match List.find (fun v => Str.startsWith "en" (lang v) && localService v) vs with
  | Some v => Some v
  | None => List.find (fun v => Str.startsWith "en" (lang v)) vs
  end.

(** The device after the two cancelling branches of speak. *)
Definition interrupt (priority : Priority) (settings : AppSettings) (syn : D) : D :=
  if decide (priority = urgent) then synth_cancel syn
  else if synth_speaking syn && autoNarration settings then synth_cancel syn
  else syn.

(** [new SpeechSynthesisUtterance(text)] with the settings the code assigns. *)
Definition newUtterance (text : string) (priority : Priority) (settings : AppSettings)
    (syn : D) : SpeechSynthesisUtterance :=
  let utterance :=
    {| uttText := text;
       rate := speechRate settings;
       pitch := if decide (priority = urgent) then (11 # 10)%Q else (1 # 1)%Q;
       volume := (1 # 1)%Q;
       voice := None |} in
  match preferredVoice (synth_getVoices syn) with
  | Some v =>
      {| uttText := uttText utterance; rate := rate utterance; pitch := pitch utterance;
         volume := volume utterance; voice := Some v |}
  | None => utterance
  end.

Definition speak (text : string) (priority : Priority) (settings : AppSettings)
    (this : TTSService) : TTSService :=
  if negb (Str.truthy text) then this
  else
    let syn := interrupt priority settings (synthesis this) in
    let utterance := newUtterance text priority settings syn in
    {| synthesis := synth_speak utterance syn;
       currentUtterance := Some utterance |}.

End Service.

Arguments TTSService D : clear implicits.

End TTS.

(** ** components/CameraView.tsx *)

Module CameraView.

Record HTMLVideoElement := mkVideo {
  readyState : Z;
  videoWidth : Z;
  videoHeight : Z
}.

(** What the browser answers to the calls of captureFrame: the permission
    state of the component, the video element it renders, whether
    [canvas.getContext('2d')] gives a context, and the data URL that
    [canvas.toDataURL('image/jpeg', 0.8)] gives for a canvas of a given width
    and height on which the current video frame was drawn. *)
Record Dom := mkDom {
  hasPermission : option bool;
  video : HTMLVideoElement;
  context2d : bool;
  toDataURL : Z -> Z -> string
}.

(** [videoRef.current]: the component renders the video element only when it
    is active and permission has not been refused; otherwise the ref is null. *)
Definition videoRef_current (isActive : bool) (dom : Dom) : option HTMLVideoElement :=
  if negb isActive then None
  else match hasPermission dom with
       | Some false => None
       | _ => Some (video dom)
       end.

(** captureFrame.  The canvas is half the size of the video frame (a canvas
    dimension is an integer: the product with 0.5 is truncated). *)
Definition captureFrame (isActive : bool) (dom : Dom) : option string :=
  match videoRef_current isActive dom with
  | None => None
  | Some v =>
      if negb (readyState v =? 4)%Z then None
      else
        let width := (videoWidth v / 2)%Z in
        let height := (videoHeight v / 2)%Z in
        if context2d dom
        then Str.split "," (toDataURL dom width height) !! 1%nat
        else None
  end.

End CameraView.

(** ** App.tsx *)

Module App.

(** The values a processFrame callback captured from the render that created
    it: the dependencies of its [useCallback]. *)
Record closure := mkClosure {
  cl_isCameraActive : bool;
  cl_currentMode : AppMode;
  cl_settings : AppSettings
}.

(** A call of processFrame suspended at [await analyzeImage(...)]. *)
Record pending := mkPending {
  triggeredByAuto : bool;
  base64Image : string;
  captured : closure
}.

(** A timer of the browser whose callback calls processFrame: [ms] is the
    period of an interval or the delay of a timeout. *)
Record timer := mkTimer {
  ms : Z;
  handler : closure
}.

Record state := mkState {
  (* useState *)
  isCameraActive : bool;
  currentMode : AppMode;
  isProcessing : bool;
  transcripts : list AnalysisResult;
  errorMsg : option string;
  settings : AppSettings;
  (* useRef *)
  processingRef : bool;
  autoIntervalRef : option positive;
  (* the browser: running intervals, pending timeouts, the next timer
     handle, the analysis calls in flight, and the TTS service *)
  intervals : gmap positive timer;
  timeouts : gmap positive timer;
  nextTimer : positive;
  inflight : list pending;
  ttsService : TTS.TTSService Speaker
}.

Definition init (vs : list SpeechSynthesisVoice) : state :=
  {| isCameraActive := false;
     currentMode := GENERAL;
     isProcessing := false;
     transcripts := [];
     errorMsg := None;
     settings := {| verbosity := STANDARD; speechRate := (1 # 1)%Q;
                    autoNarration := false; autoInterval := 4000 |};
     processingRef := false;
     autoIntervalRef := None;
     intervals := ∅;
     timeouts := ∅;
     nextTimer := 1%positive;
     inflight := [];
     ttsService := {| TTS.synthesis := {| voices := vs; queue := [] |};
                      TTS.currentUtterance := None |} |}.

(** *** Assignments to one field *)

Definition setIsCameraActive (b : bool) (s : state) : state :=
  mkState b (currentMode s) (isProcessing s) (transcripts s) (errorMsg s) (settings s)
    (processingRef s) (autoIntervalRef s) (intervals s) (timeouts s) (nextTimer s)
    (inflight s) (ttsService s).

Definition setCurrentMode (m : AppMode) (s : state) : state :=
  mkState (isCameraActive s) m (isProcessing s) (transcripts s) (errorMsg s) (settings s)
    (processingRef s) (autoIntervalRef s) (intervals s) (timeouts s) (nextTimer s)
    (inflight s) (ttsService s).

Definition setIsProcessing (b : bool) (s : state) : state :=
  mkState (isCameraActive s) (currentMode s) b (transcripts s) (errorMsg s) (settings s)
    (processingRef s) (autoIntervalRef s) (intervals s) (timeouts s) (nextTimer s)
    (inflight s) (ttsService s).

Definition setTranscripts (f : list AnalysisResult -> list AnalysisResult) (s : state)
  : state :=
  mkState (isCameraActive s) (currentMode s) (isProcessing s) (f (transcripts s))
    (errorMsg s) (settings s) (processingRef s) (autoIntervalRef s) (intervals s)
    (timeouts s) (nextTimer s) (inflight s) (ttsService s).

Definition setErrorMsg (e : option string) (s : state) : state :=
  mkState (isCameraActive s) (currentMode s) (isProcessing s) (transcripts s) e (settings s)
    (processingRef s) (autoIntervalRef s) (intervals s) (timeouts s) (nextTimer s)
    (inflight s) (ttsService s).

Definition setSettings (f : AppSettings -> AppSettings) (s : state) : state :=
  mkState (isCameraActive s) (currentMode s) (isProcessing s) (transcripts s) (errorMsg s)
    (f (settings s)) (processingRef s) (autoIntervalRef s) (intervals s) (timeouts s)
    (nextTimer s) (inflight s) (ttsService s).

Definition set_processingRef (b : bool) (s : state) : state :=
  mkState (isCameraActive s) (currentMode s) (isProcessing s) (transcripts s) (errorMsg s)
    (settings s) b (autoIntervalRef s) (intervals s) (timeouts s) (nextTimer s)
    (inflight s) (ttsService s).

Definition set_autoIntervalRef (h : option positive) (s : state) : state :=
  mkState (isCameraActive s) (currentMode s) (isProcessing s) (transcripts s) (errorMsg s)
    (settings s) (processingRef s) h (intervals s) (timeouts s) (nextTimer s)
    (inflight s) (ttsService s).

Definition set_intervals (m : gmap positive timer) (s : state) : state :=
  mkState (isCameraActive s) (currentMode s) (isProcessing s) (transcripts s) (errorMsg s)
    (settings s) (processingRef s) (autoIntervalRef s) m (timeouts s) (nextTimer s)
    (inflight s) (ttsService s).

Definition set_timeouts (m : gmap positive timer) (s : state) : state :=
  mkState (isCameraActive s) (currentMode s) (isProcessing s) (transcripts s) (errorMsg s)
    (settings s) (processingRef s) (autoIntervalRef s) (intervals s) m (nextTimer s)
    (inflight s) (ttsService s).

Definition set_nextTimer (h : positive) (s : state) : state :=
  mkState (isCameraActive s) (currentMode s) (isProcessing s) (transcripts s) (errorMsg s)
    (settings s) (processingRef s) (autoIntervalRef s) (intervals s) (timeouts s) h
    (inflight s) (ttsService s).

Definition set_inflight (l : list pending) (s : state) : state :=
  mkState (isCameraActive s) (currentMode s) (isProcessing s) (transcripts s) (errorMsg s)
    (settings s) (processingRef s) (autoIntervalRef s) (intervals s) (timeouts s)
    (nextTimer s) l (ttsService s).

Definition set_ttsService (t : TTS.TTSService Speaker) (s : state) : state :=
  mkState (isCameraActive s) (currentMode s) (isProcessing s) (transcripts s) (errorMsg s)
    (settings s) (processingRef s) (autoIntervalRef s) (intervals s) (timeouts s)
    (nextTimer s) (inflight s) t.

(** *** The browser's timers *)

(** [window.setInterval(cb, period)]: a new handle, returned with the state. *)
Definition setInterval (cb : closure) (period : Z) (s : state) : positive * state :=
  (nextTimer s,
   set_nextTimer (Pos.succ (nextTimer s))
     (set_intervals (<[nextTimer s := mkTimer period cb]> (intervals s)) s)).

(** [clearInterval(h)]: nothing happens when [h] names no running interval. *)
Definition clearInterval (h : positive) (s : state) : state :=
  set_intervals (delete h (intervals s)) s.

(** [setTimeout(cb, delay)]; the code drops the handle. *)
Definition setTimeout (cb : closure) (delay : Z) (s : state) : state :=
  set_nextTimer (Pos.succ (nextTimer s))
    (set_timeouts (<[nextTimer s := mkTimer delay cb]> (timeouts s)) s).

(** *** processFrame *)

(** The closure of the processFrame that the current render created. *)
Definition render_closure (s : state) : closure :=
  {| cl_isCameraActive := isCameraActive s;
     cl_currentMode := currentMode s;
     cl_settings := settings s |}.

(** [cameraRef.current?.captureFrame()]: the camera component is rendered
    with the current [isCameraActive] as its [isActive]. *)
Definition cameraRef_captureFrame (dom : CameraView.Dom) (s : state) : option string :=
  CameraView.captureFrame (isCameraActive s) dom.

(** processFrame from its call to its [await]: the gate, the capture, the
    two flags, and the call of analyzeImage, which leaves a pending call. *)
Definition processFrame (cl : closure) (auto : bool) (dom : CameraView.Dom) (s : state)
  : state :=
  if negb (cl_isCameraActive cl) || (processingRef s && auto) then s
  else
    match cameraRef_captureFrame dom s with
    | None => s
    | Some image =>
        if negb (Str.truthy image) then s
        else
          let s1 := setIsProcessing true s in
          let s2 := set_processingRef true s1 in
          set_inflight (inflight s2 ++ [mkPending auto image cl]) s2
    end.

(** The updater [prev => [newEntry, ...prev].slice(0, 10)]. *)
Definition keepLast10 (newEntry : AnalysisResult) (prev : list AnalysisResult)
  : list AnalysisResult :=
  take 10 (newEntry :: prev).


(** The entry processFrame builds from the result of analyzeImage. *)
Definition newEntry (result : Gemini.AnalysisOutput) (now : Z) : AnalysisResult :=
  {| text := Gemini.outText result;
     priority := if Gemini.isUrgent result then urgent else normal;
     timestamp := now |}.

(** processFrame after its [await]: [settled] is the promise of analyzeImage
    once settled, [now] the value of [Date.now()].  The [finally] block runs
    on both paths. *)
Definition processFrame_resume (p : pending) (settled : Promise Gemini.AnalysisOutput)
    (now : Z) (s : state) : state :=
  let s1 :=
    match settled with
    | Resolved result =>
        let entry := newEntry result now in
        let s' := setTranscripts (keepLast10 entry) s in
        set_ttsService
          (TTS.speak (Gemini.outText result) (priority entry) (cl_settings (captured p))
             (ttsService s')) s'
    | Rejected err => setErrorMsg (Some "Failed to analyze scene.") s
    end in
  set_processingRef false (setIsProcessing false s1).

(** *** Event handlers *)

Definition modeAnnouncement (mode : AppMode) : string :=
  Str.replace_first "_" " " (Str.toLowerCase (AppMode_value mode)) +:+ " mode selected".

Definition handleModeSelect (mode : AppMode) (s : state) : state :=
  let processFrame_now := render_closure s in
  let s1 := setCurrentMode mode s in
  let s2 := set_ttsService
              (TTS.speak (modeAnnouncement mode) urgent (settings s) (ttsService s1)) s1 in
  if negb (autoNarration (settings s)) && isCameraActive s
  then setTimeout processFrame_now 500 s2
  else s2.

Definition toggleCamera (s : state) : state :=
  let newState := negb (isCameraActive s) in
  let s1 := setIsCameraActive newState s in
  set_ttsService
    (TTS.speak (if newState then "Camera started" else "Camera stopped") urgent
       (settings s) (ttsService s1)) s1.

(** *** The auto-narration effect *)

(** The function the effect returns, run before the effect runs again. *)
Definition effectCleanup (s : state) : state :=
  match autoIntervalRef s with
  | Some h => clearInterval h s
  | None => s
  end.

(** The body of the effect, run with the values of the new render. *)
Definition effectBody (dom : CameraView.Dom) (s : state) : state :=
  if isCameraActive s && autoNarration (settings s) then
    let s1 := processFrame (render_closure s) true dom s in
    let '(h, s2) := setInterval (render_closure s) (autoInterval (settings s)) s1 in
    set_autoIntervalRef (Some h) s2
  else
    match autoIntervalRef s with
    | Some h => set_autoIntervalRef None (clearInterval h s)
    | None => s
    end.

(** A render after which a dependency of the effect differs: the cleanup of
    the previous effect, then the effect. *)
Definition rerunEffect (dom : CameraView.Dom) (s : state) : state :=
  effectBody dom (effectCleanup s).

(** The updater of the auto-narration button,
    [s => ({...s, autoNarration: !s.autoNarration})]. *)
Definition toggleAutoNarration (st : AppSettings) : AppSettings :=
  mkSettings (verbosity st) (speechRate st) (negb (autoNarration st)) (autoInterval st).

(** *** The component as a transition system *)

Inductive event :=
| ToggleCamera
| ToggleAutoNarration
| SetSpeechRate (r : Q)
| SetVerbosity (v : Verbosity)
| SetAutoInterval (n : Z)
| SelectMode (m : AppMode)
| AnalyzeNow
| DismissError
| IntervalFires (h : positive)
| TimeoutFires (h : positive)
| AnalysisSettles (i : nat) (outcome : Promise Gemini.GenerateContentResponse) (now : Z)
| UtteranceEnds.

(** One event, with what the browser answers while it is handled.  A click on
    a control that is disabled or not rendered changes nothing.  Every call of
    [setSettings] makes a new settings object, so processFrame and the effect
    are made anew; selecting the mode already selected leaves every
    dependency as it was. *)
Definition step (dom : CameraView.Dom) (e : event) (s : state) : state :=
  match e with
  | ToggleCamera => rerunEffect dom (toggleCamera s)
  | ToggleAutoNarration =>
      if negb (isCameraActive s) then s
      else rerunEffect dom (setSettings toggleAutoNarration s)
  | SetSpeechRate r =>
      rerunEffect dom
        (setSettings (fun _ => mkSettings (verbosity (settings s)) r
                                 (autoNarration (settings s)) (autoInterval (settings s))) s)
  | SetVerbosity v =>
      rerunEffect dom
        (setSettings (fun _ => mkSettings v (speechRate (settings s))
                                 (autoNarration (settings s)) (autoInterval (settings s))) s)
  | SetAutoInterval n =>
      rerunEffect dom
        (setSettings (fun _ => mkSettings (verbosity (settings s)) (speechRate (settings s))
                                 (autoNarration (settings s)) n) s)
  | SelectMode m =>
      if isProcessing s && bool_decide (currentMode s = m) then s
      else if bool_decide (currentMode s = m) then handleModeSelect m s
      else rerunEffect dom (handleModeSelect m s)
  | AnalyzeNow =>
      if isCameraActive s && negb (autoNarration (settings s)) && negb (isProcessing s)
      then processFrame (render_closure s) false dom s
      else s
  | DismissError => setErrorMsg None s
  | IntervalFires h =>
      match intervals s !! h with
      | Some t => processFrame (handler t) true dom s
      | None => s
      end
  | TimeoutFires h =>
      match timeouts s !! h with
      | Some t => processFrame (handler t) false dom (set_timeouts (delete h (timeouts s)) s)
      | None => s
      end
  | AnalysisSettles i outcome now =>
      match inflight s !! i with
      | Some p =>
          processFrame_resume p
            (Gemini.analyzeImage (fun _ => outcome) (base64Image p)
               (cl_currentMode (captured p)) (verbosity (cl_settings (captured p))))
            now (set_inflight (delete i (inflight s)) s)
      | None => s
      end
  | UtteranceEnds =>
      set_ttsService
        {| TTS.synthesis := utterance_ends (TTS.synthesis (ttsService s));
           TTS.currentUtterance := TTS.currentUtterance (ttsService s) |} s
  end.

Definition run (trace : list (CameraView.Dom * event)) (s : state) : state :=
  foldl (fun acc de => step (fst de) (snd de) acc) s trace.

Inductive reachable (vs : list SpeechSynthesisVoice) : state -> Prop :=
| reachable_init : reachable vs (init vs)
| reachable_step s dom e : reachable vs s -> reachable vs (step dom e s).

(** The number of auto-triggered analyses in flight. *)
Definition autoInFlight (s : state) : nat :=
  List.length (filter (fun p => triggeredByAuto p = true) (inflight s)).

End App.

(** ** The specification's vocabulary *)

(** The specification's reading of "the text contains the token, compared
    case-insensitively, at any position".  Two characters are the same up to
    case when they are equal or are the capital and the small form of one
    letter of the alphabet (the small form is 32 places after the capital);
    two strings are equal up to case when they have the same length and their
    characters are the same up to case, place by place; the text contains the
    token when some stretch of it equals the token up to case. *)
Definition same_ignoring_case (a b : ascii) : bool :=
  let x := nat_of_ascii a in
  let y := nat_of_ascii b in
  Nat.eqb x y || (Str.is_upper a && Nat.eqb (x + 32) y) || (Str.is_lower a && Nat.eqb x (y + 32)).

Fixpoint equal_ignoring_case (s token : string) : bool :=
  match s, token with
  | EmptyString, EmptyString => true
  | String a s', String b token' => same_ignoring_case a b && equal_ignoring_case s' token'
  | _, _ => false
  end.

Definition spec_contains_ignoring_case (token t : string) : Prop :=
  exists pre mid post,
    t = pre +:+ mid +:+ post /\ equal_ignoring_case mid token = true.

(** The same, as a test: the token, up to case, at the start of the text, or
    in the text after its first character. *)
Fixpoint starts_ignoring_case (token t : string) : bool :=
  match token, t with
  | EmptyString, _ => true
  | String _ _, EmptyString => false
  | String b token', String a t' => same_ignoring_case a b && starts_ignoring_case token' t'
  end.

Fixpoint contains_ignoring_case (token t : string) : bool :=
  starts_ignoring_case token t ||
  match t with
  | EmptyString => false
  | String _ rest => contains_ignoring_case token rest
  end.

(** A text of characters of ASCII alone, and a token of capital letters. *)
Fixpoint is_ascii_text (t : string) : bool :=
  match t with
  | EmptyString => true
  | String c rest => Nat.ltb (nat_of_ascii c) 128 && is_ascii_text rest
  end.

Fixpoint capital_letters (token : string) : bool :=
  match token with
  | EmptyString => true
  | String c rest => Str.is_upper c && capital_letters rest
  end.

(** The specification's schedule: while capture is active and auto-narration
    is enabled, exactly one interval runs, at the current period, calling the
    processFrame of the current render, and the ref holds its handle; at any
    other time no interval runs and the ref is null. *)
Definition spec_schedule (s : App.state) : Prop :=
  if App.isCameraActive s && autoNarration (App.settings s)
  then exists h,
         App.intervals s
           = {[ h := App.mkTimer (autoInterval (App.settings s)) (App.render_closure s) ]}
         /\ App.autoIntervalRef s = Some h
  else App.intervals s = ∅ /\ App.autoIntervalRef s = None.

(** Every handle in use was handed out before the next one. *)
Definition timers_fresh (s : App.state) : Prop :=
  forall h, is_Some (App.intervals s !! h) \/ is_Some (App.timeouts s !! h) ->
            (h < App.nextTimer s)%positive.

(** Two states agree on the fields on which the schedule depends. *)
Definition same_schedule (s s' : App.state) : Prop :=
  App.intervals s' = App.intervals s /\ App.autoIntervalRef s' = App.autoIntervalRef s /\
  App.timeouts s' = App.timeouts s /\ App.nextTimer s' = App.nextTimer s /\
  App.isCameraActive s' = App.isCameraActive s /\ App.currentMode s' = App.currentMode s /\
  App.settings s' = App.settings s.

(** Every running interval is the one the ref names. *)
Definition owned (s : App.state) : Prop :=
  forall h, is_Some (App.intervals s !! h) -> App.autoIntervalRef s = Some h.

(** The events that cannot lead to a manual call of processFrame: all but the
    manual button, the mode buttons and the timeout they set. *)
Definition auto_only (e : App.event) : bool :=
  match e with
  | App.AnalyzeNow | App.SelectMode _ | App.TimeoutFires _ => false
  | _ => true
  end.

(** The in-flight flag means what the specification says: it is set exactly
    when an analysis is outstanding, and at most one is, from an auto trigger. *)
Definition single_flight (s : App.state) : Prop :=
  App.timeouts s = ∅ /\
  ((App.processingRef s = false /\ App.inflight s = []) \/
   (App.processingRef s = true /\
    exists p, App.inflight s = [p] /\ App.triggeredByAuto p = true)).

(** ** Browsers for the examples *)

(** A camera whose video element has decoded a frame, and one that has not. *)
Definition camera_ready : CameraView.Dom :=
  {| CameraView.hasPermission := Some true;
     CameraView.video := CameraView.mkVideo 4 1280 720;
     CameraView.context2d := true;
     CameraView.toDataURL := fun _ _ => "data:image/jpeg;base64,/9j/4AAQSkZJRg==" |}.

Definition camera_warming_up : CameraView.Dom :=
  {| CameraView.hasPermission := None;
     CameraView.video := CameraView.mkVideo 0 0 0;
     CameraView.context2d := true;
     CameraView.toDataURL := fun _ _ => "data:," |}.

(** A session in which a narration takes long to come back: the camera is
    started, auto-narration is enabled (the first auto analysis starts) and
    disabled again, a mode is selected (the 500 ms timeout, handle 2), the
    timeout fires (a manual analysis starts), the manual analysis comes back,
    and auto-narration is enabled again. *)
Definition slow_narration_session : list (CameraView.Dom * App.event) :=
  [ (camera_warming_up, App.ToggleCamera);
    (camera_ready, App.ToggleAutoNarration);
    (camera_ready, App.ToggleAutoNarration);
    (camera_ready, App.SelectMode NAVIGATION);
    (camera_ready, App.TimeoutFires 2);
    (camera_ready,
     App.AnalysisSettles 1
       (Resolved {| Gemini.responseText := Some "Clear path ahead." |}) 1000);
    (camera_ready, App.ToggleAutoNarration) ].

(** The two flags go together, and a set flag has an analysis behind it. *)
Definition flags_agree (s : App.state) : Prop :=
  App.isProcessing s = App.processingRef s /\
  (App.processingRef s = true -> App.inflight s <> []).

(** ** components/ControlPanel.tsx *)


Module ControlPanel.

Inductive Icon := IconEye | IconType | IconUsers | IconNavigation | IconShoppingBag.

Record ButtonSpec := mkSpec {
  mode : AppMode;
  label : string;
  icon : Icon;
  color : string
}.

Definition buttons : list ButtonSpec :=
  [ mkSpec GENERAL "Describe Scene" IconEye "bg-blue-600";
    mkSpec NAVIGATION "Navigation" IconNavigation "bg-green-600";
    mkSpec TEXT "Read Text" IconType "bg-orange-600";
    mkSpec SOCIAL "Social Cues" IconUsers "bg-purple-600";
    mkSpec SHOPPING "Shopping" IconShoppingBag "bg-pink-600" ].

(** What the component renders for one entry of [buttons]: the attributes
    of the button that depend on the props, the argument its click passes to
    [onModeSelect], and the two class names that depend on [isActive] (the
    class names every button carries are left out). *)
Record Button := mkButton {
  key : AppMode;
  onClick : AppMode;
  disabled : bool;
  surface : string;
  textColor : string;
  ariaPressed : bool;
  ariaLabel : string;
  shownIcon : Icon;
  iconStroke : string;
  caption : string;
  processingDot : bool
}.

Definition renderButton (currentMode : AppMode) (isProcessing : bool) (btn : ButtonSpec)
  : Button :=
  let isActive := bool_decide (currentMode = mode btn) in
  {| key := mode btn;
     onClick := mode btn;
     disabled := isProcessing && isActive;
     surface :=
       if isActive
       then color btn +:+ " ring-4 ring-yellow-400 ring-offset-2 ring-offset-gray-900 scale-[1.02]"
       else "bg-gray-800 hover:bg-gray-700";
     textColor := if isActive then "text-white" else "text-gray-300";
     ariaPressed := isActive;
     ariaLabel := label btn +:+ " Mode";
     shownIcon := icon btn;
     iconStroke := if isActive then "stroke-2" else "stroke-1";
     caption := label btn;
     processingDot := isActive && isProcessing |}.

Definition render (currentMode : AppMode) (isProcessing : bool) : list Button :=
  map (renderButton currentMode isProcessing) buttons.

End ControlPanel.

(** ** App.tsx: the live output *)

Module LiveOutput.

(** One entry of the transcript as it is displayed: its key, whether it is
    shown at full opacity and in the large type (the entry at index 0),
    whether the Alert badge is shown, and its text. *)
Record Item := mkItem {
  itemKey : Z;
  emphasized : bool;
  alert : bool;
  body : string
}.

Definition renderItem (idx : nat) (t : AnalysisResult) : Item :=
  {| itemKey := timestamp t;
     emphasized := Nat.eqb idx 0;
     alert := Nat.eqb idx 0 && bool_decide (priority t = urgent);
     body := text t |}.

Inductive Output :=
| Placeholder (message : string)
| Items (items : list Item).

(** The content of the live region:
    [transcripts.length === 0 ? <p>...</p> : transcripts.map(...)]. *)
Definition render (isCameraActive : bool) (transcripts : list AnalysisResult) : Output :=
  if Nat.eqb (List.length transcripts) 0
  then Placeholder (if isCameraActive then "Waiting for analysis..." else "Start camera to begin.")
  else Items (imap renderItem transcripts).

End LiveOutput.

(** ** components/CameraView.tsx: the camera effect

    The component's [useEffect] and its promise, as a transition system of
    their own.  App passes a new [onCameraError] function at each of its
    renders, so each render of App changes a dependency of the effect: the
    cleanup of the previous run of the effect runs, then the effect runs
    again.  Each run of the effect has its own variable [stream]. *)

Module CameraEffect.

Record state := mkState {
  isActive : bool;
  hasPermission : option bool;
  (* [videoRef.current.srcObject], while the video element is rendered *)
  srcObject : option nat;
  (* the run of the effect whose cleanup has not run yet *)
  current : nat;
  (* the variable [stream] of each run, once getUserMedia has resolved *)
  streamOf : gmap nat nat;
  (* the runs whose call of getUserMedia has not settled *)
  awaiting : gset nat;
  (* the streams whose tracks have not been stopped *)
  live : gset nat;
  nextStream : nat;
  (* the messages passed to onCameraError *)
  reported : list string
}.

(** The state after the first render, with [isActive] false: the effect has
    run once and has done nothing. *)
Definition init : state :=
  {| isActive := false; hasPermission := None; srcObject := None; current := 0;
     streamOf := ∅; awaiting := ∅; live := ∅; nextStream := 0; reported := [] |}.

(** The video element is rendered when the component is active and
    permission has not been refused: then [videoRef.current] is not null. *)
Definition videoMounted (active : bool) (permission : option bool) : bool :=
  active && negb (bool_decide (permission = Some false)).

(** The function the effect returns:
    [if (stream) stream.getTracks().forEach(track => track.stop())]. *)
Definition cleanup (s : state) : state :=
  match streamOf s !! current s with
  | Some st =>
      mkState (isActive s) (hasPermission s) (srcObject s) (current s) (streamOf s)
        (awaiting s) (live s ∖ {[st]}) (nextStream s) (reported s)
  | None => s
  end.

(** The body of the effect for the run [run]: startCamera up to its [await]
    when active, else the reset of [srcObject]. *)
Definition effect (run : nat) (s : state) : state :=
  if isActive s then
    mkState (isActive s) (hasPermission s) (srcObject s) run (streamOf s)
      (awaiting s ∪ {[run]}) (live s) (nextStream s) (reported s)
  else
    mkState (isActive s) (hasPermission s)
      (if videoMounted (isActive s) (hasPermission s) then None else srcObject s)
      run (streamOf s) (awaiting s) (live s) (nextStream s) (reported s).

Inductive event :=
| ParentRenders (active : bool)
| Granted (run : nat)
| Denied (run : nat).

(** A video element that is no longer rendered takes its [srcObject] with it. *)
Definition commit (active : bool) (permission : option bool) (s : state) : state :=
  mkState active permission
    (if videoMounted active permission then srcObject s else None)
    (current s) (streamOf s) (awaiting s) (live s) (nextStream s) (reported s).

Definition step (e : event) (s : state) : state :=
  match e with
  | ParentRenders active =>
      effect (S (current s)) (cleanup (commit active (hasPermission s) s))
  | Granted run =>
      if decide (run ∈ awaiting s) then
        (* [stream = await getUserMedia(...)]: a new stream, its tracks live *)
        let st := nextStream s in
        if videoMounted (isActive s) (hasPermission s) then
          mkState (isActive s) (Some true) (Some st) (current s) (<[run := st]> (streamOf s))
            (awaiting s ∖ {[run]}) (live s ∪ {[st]}) (S st) (reported s)
        else
          mkState (isActive s) (hasPermission s) (srcObject s) (current s)
            (<[run := st]> (streamOf s))
            (awaiting s ∖ {[run]}) (live s ∪ {[st]}) (S st) (reported s)
      else s
  | Denied run =>
      if decide (run ∈ awaiting s) then
        commit (isActive s) (Some false)
          (mkState (isActive s) (hasPermission s) (srcObject s) (current s) (streamOf s)
             (awaiting s ∖ {[run]}) (live s) (nextStream s)
             (reported s ++ ["Camera permission denied or camera not found."]))
      else s
  end.

Definition run (trace : list event) (s : state) : state :=
  foldl (fun acc e => step e acc) s trace.

Inductive reachable : state -> Prop :=
| reachable_init : reachable init
| reachable_step s e : reachable s -> reachable (step e s).

(** The sessions in which the browser answers each call of getUserMedia
    before App renders again: every answer is for the current run. *)
Fixpoint timely (trace : list event) (s : state) : bool :=
  match trace with
  | [] => true
  | e :: rest =>
      match e with
      | ParentRenders _ => true
      | Granted r | Denied r => Nat.eqb r (current s)
      end && timely rest (step e s)
  end.

End CameraEffect.

(** The bookkeeping of the camera effect is consistent: a run that holds a
    stream or awaits one has started, a run that awaits a stream holds none,
    and every stream was handed out before the next one. *)
Definition camera_wf (s : CameraEffect.state) : Prop :=
  (forall k st, CameraEffect.streamOf s !! k = Some st ->
                (k <= CameraEffect.current s)%nat /\ (st < CameraEffect.nextStream s)%nat) /\
  (forall k, k ∈ CameraEffect.awaiting s ->
             (k <= CameraEffect.current s)%nat /\ CameraEffect.streamOf s !! k = None) /\
  (forall st, st ∈ CameraEffect.live s -> (st < CameraEffect.nextStream s)%nat).

(** Every live stream is the one the current run of the effect holds, which
    the cleanup of that run will stop. *)
Definition camera_tidy (s : CameraEffect.state) : Prop :=
  forall st, st ∈ CameraEffect.live s ->
             CameraEffect.streamOf s !! CameraEffect.current s = Some st.

(** The stream [st] is live and only a run whose cleanup is over holds it. *)
Definition camera_leaked (st : nat) (s : CameraEffect.state) : Prop :=
  st ∈ CameraEffect.live s /\ (st < CameraEffect.nextStream s)%nat /\
  (forall k, CameraEffect.streamOf s !! k = Some st -> (k < CameraEffect.current s)%nat).

(** * Properties *)

(** ** Strings *)

Section StringFacts.

Lemma append_nil_l (s : string) : "" +:+ s = s.
Proof. reflexivity. Qed.

Lemma append_cons (c : ascii) (a b : string) : String c a +:+ b = String c (a +:+ b).
Proof. reflexivity. Qed.

Ltac str_simpl := rewrite ?append_cons, ?append_nil_l.
Tactic Notation "str_simpl" "in" hyp(H) := rewrite ?append_cons, ?append_nil_l in H.

Lemma append_nil_r (s : string) : s +:+ "" = s.
Proof. induction s as [|c s IH]; str_simpl; [reflexivity | by rewrite IH]. Qed.

Lemma append_assoc (a b c : string) : (a +:+ b) +:+ c = a +:+ b +:+ c.
Proof. induction a as [|x a IH]; str_simpl; [reflexivity | by rewrite IH]. Qed.

Lemma startsWith_spec (p s : string) :
  Str.startsWith p s = true <-> exists post, s = p +:+ post.
Proof.
  revert s. induction p as [|a p IH]; intros s; simpl.
  - split; [intros _; by exists s | done].
  - destruct s as [|b s].
    + split; [done | intros [post Hpost]; discriminate].
    + destruct (Ascii.eqb_spec a b) as [->|Hne].
      * rewrite IH. split; intros [post Hpost]; exists post; str_simpl;
          [by rewrite Hpost | str_simpl in Hpost; congruence].
      * split; [done | intros [post Hpost]; str_simpl in Hpost; congruence].
Qed.

Lemma includes_spec (needle hay : string) :
  Str.includes needle hay = true <-> exists pre post, hay = pre +:+ needle +:+ post.
Proof.
  induction hay as [|c hay IH]; simpl.
  - rewrite orb_false_r, startsWith_spec. split.
    + intros [post Hpost]. by exists "", post.
    + intros [pre [post Hpost]]. destruct pre; [by exists post | discriminate].
  - rewrite orb_true_iff, startsWith_spec, IH. split.
    + intros [[post Hpost] | [pre [post Hpost]]].
      * by exists "", post.
      * exists (String c pre), post. str_simpl. by rewrite Hpost.
    + intros [pre [post Hpost]]. destruct pre as [|d pre]; str_simpl in Hpost.
      * left. by exists post.
      * right. exists pre, post. congruence.
Qed.

Lemma includes_empty (hay : string) : Str.includes "" hay = true.
Proof. by destruct hay. Qed.

Lemma map_chars_app (f : ascii -> ascii) (a b : string) :
  Str.map_chars f (a +:+ b) = Str.map_chars f a +:+ Str.map_chars f b.
Proof.
  induction a as [|c a IH]; str_simpl; simpl; [reflexivity | by rewrite IH].
Qed.

Lemma map_chars_split (f : ascii -> ascii) (t a b : string) :
  Str.map_chars f t = a +:+ b ->
  exists t1 t2, t = t1 +:+ t2 /\ Str.map_chars f t1 = a /\ Str.map_chars f t2 = b.
Proof.
  revert t. induction a as [|c a IH]; intros t Ht; str_simpl in Ht.
  - by exists "", t.
  - destruct t as [|d t]; simpl in Ht; [discriminate |].
    injection Ht as Hc Hrest. destruct (IH t Hrest) as (t1 & t2 & -> & H1 & H2).
    exists (String d t1), t2. simpl. by rewrite H1, Hc.
Qed.

(** *** Equality up to case and the capital form *)

Lemma is_upper_range (c : ascii) :
  Str.is_upper c = true <-> (65 <= nat_of_ascii c <= 90)%nat.
Proof.
  unfold Str.is_upper. rewrite andb_true_iff, !Nat.leb_le. reflexivity.
Qed.

Lemma is_lower_range (c : ascii) :
  Str.is_lower c = true <-> (97 <= nat_of_ascii c <= 122)%nat.
Proof.
  unfold Str.is_lower. rewrite andb_true_iff, !Nat.leb_le. reflexivity.
Qed.

Lemma nat_of_ascii_inj (a b : ascii) : nat_of_ascii a = nat_of_ascii b -> a = b.
Proof.
  intros Heq. rewrite <- (ascii_nat_embedding a), <- (ascii_nat_embedding b). by rewrite Heq.
Qed.

(** A character is the same up to case as a capital letter exactly when its
    capital form is that letter. *)
Lemma same_ignoring_case_capital (a b : ascii) :
  Str.is_upper b = true ->
  same_ignoring_case a b = true <-> Str.upper_char a = b.
Proof.
  intros Hb. apply is_upper_range in Hb. unfold same_ignoring_case, Str.upper_char.
  rewrite !orb_true_iff, !andb_true_iff, !Nat.eqb_eq, is_upper_range.
  destruct (Str.is_lower a) eqn:Hlow.
  - apply is_lower_range in Hlow. split.
    + intros [[Heq | [_ Heq]] | [_ Heq]]; try lia.
      rewrite <- (ascii_nat_embedding b). f_equal. lia.
    + intros <-. right. split; [reflexivity |].
      rewrite nat_ascii_embedding; lia.
  - split.
    + intros [[Heq | [Hup Heq]] | [Hfalse _]]; [by apply nat_of_ascii_inj | lia | discriminate].
    + intros ->. by left; left.
Qed.

Lemma same_ignoring_case_ascii (a b : ascii) :
  Str.is_upper b = true -> same_ignoring_case a b = true -> (nat_of_ascii a < 128)%nat.
Proof.
  intros Hb. pose proof Hb as Hrange. apply is_upper_range in Hrange.
  unfold same_ignoring_case.
  rewrite !orb_true_iff, !andb_true_iff, !Nat.eqb_eq, is_upper_range, is_lower_range.
  intros [[Heq | [_ Heq]] | [Hlow _]]; lia.
Qed.

Lemma equal_ignoring_case_capital (mid token : string) :
  capital_letters token = true ->
  equal_ignoring_case mid token = true <-> Str.map_chars Str.upper_char mid = token.
Proof.
  revert mid. induction token as [|b token IH]; intros mid Hcap.
  - destruct mid; simpl; split; congruence.
  - simpl in Hcap. apply andb_true_iff in Hcap as [Hb Hcap].
    destruct mid as [|a mid]; simpl; [split; congruence |].
    rewrite andb_true_iff, (same_ignoring_case_capital a b Hb), (IH mid Hcap).
    split; [intros [-> ->]; reflexivity | intros [= -> ->]; by split].
Qed.

Lemma equal_ignoring_case_ascii (mid token : string) :
  capital_letters token = true -> equal_ignoring_case mid token = true ->
  is_ascii_text mid = true.
Proof.
  revert mid. induction token as [|b token IH]; intros mid Hcap Heq.
  - by destruct mid.
  - simpl in Hcap. apply andb_true_iff in Hcap as [Hb Hcap].
    destruct mid as [|a mid]; simpl in *; [discriminate |].
    apply andb_true_iff in Heq as [Ha Heq]. apply andb_true_iff. split.
    + apply Nat.ltb_lt. by apply (same_ignoring_case_ascii a b).
    + by apply IH.
Qed.

Lemma starts_ignoring_case_spec (token t : string) :
  starts_ignoring_case token t = true
  <-> exists mid post, t = mid +:+ post /\ equal_ignoring_case mid token = true.
Proof.
  revert t. induction token as [|b token IH]; intros t.
  - split; [intros _; by exists "", t | by destruct t].
  - destruct t as [|a t]; simpl.
    + split; [done |]. intros (mid & post & Ht & Heq). destruct mid; [done | discriminate].
    + rewrite andb_true_iff, IH. split.
      * intros [Ha (mid & post & -> & Heq)]. exists (String a mid), post. simpl.
        by rewrite Ha, Heq.
      * intros (mid & post & Ht & Heq). destruct mid as [|a' mid]; [done |].
        str_simpl in Ht. injection Ht as <- ->. simpl in Heq.
        apply andb_true_iff in Heq as [Ha Heq]. split; [exact Ha |]. by exists mid, post.
Qed.

Lemma contains_ignoring_case_spec (token t : string) :
  contains_ignoring_case token t = true <-> spec_contains_ignoring_case token t.
Proof.
  unfold spec_contains_ignoring_case. induction t as [|c t IH]; simpl.
  - rewrite orb_false_r, starts_ignoring_case_spec. split.
    + intros (mid & post & Ht & Heq). by exists "", mid, post.
    + intros (pre & mid & post & Ht & Heq). destruct pre; [| discriminate].
      by exists mid, post.
  - rewrite orb_true_iff, starts_ignoring_case_spec, IH. split.
    + intros [(mid & post & Ht & Heq) | (pre & mid & post & Ht & Heq)].
      * by exists "", mid, post.
      * exists (String c pre), mid, post. str_simpl. by rewrite Ht.
    + intros (pre & mid & post & Ht & Heq). destruct pre as [|d pre]; str_simpl in Ht.
      * left. by exists mid, post.
      * right. injection Ht as -> ->. by exists pre, mid, post.
Qed.

(** *** The capital form of a text *)

(** A byte of ASCII is a sequence of its own, whose capital form is given by
    [upper_char]. *)
Lemma ascii_byte (c : ascii) :
  (nat_of_ascii c < 128)%nat ->
  Unicode.is_continuation c = false /\ Unicode.sequence_length c = 1%nat /\
  Unicode.upper_sequence (String c "") = String (Str.upper_char c) "".
Proof.
  destruct c as [[] [] [] [] [] [] [] []]; vm_compute; try (intros; lia); by intros _.
Qed.

(** Before a byte of ASCII a sequence that is not whole is given up. *)
Lemma upper_go_ascii_byte (pending : string) (c : ascii) (rest : string) :
  (nat_of_ascii c < 128)%nat ->
  Unicode.upper_go pending (String c rest)
    = pending +:+ String (Str.upper_char c) (Unicode.upper_go "" rest).
Proof.
  intros Hc. destruct (ascii_byte c Hc) as (Hcont & Hlen & Hupper).
  simpl. rewrite Hcont, Hlen, Hupper. reflexivity.
Qed.

Lemma upper_go_ascii_text (mid post : string) :
  is_ascii_text mid = true ->
  Unicode.upper_go "" (mid +:+ post)
    = Str.map_chars Str.upper_char mid +:+ Unicode.upper_go "" post.
Proof.
  induction mid as [|c mid IH]; intros Hascii; [reflexivity |].
  simpl in Hascii. apply andb_true_iff in Hascii as [Hc Hmid]. apply Nat.ltb_lt in Hc.
  str_simpl. rewrite (upper_go_ascii_byte "" c _ Hc), (IH Hmid). reflexivity.
Qed.

(** The capital form of a text of ASCII is made character by character. *)
Lemma toUpperCase_ascii_text (t : string) :
  is_ascii_text t = true -> Str.toUpperCase t = Str.map_chars Str.upper_char t.
Proof.
  intros Hascii. unfold Str.toUpperCase.
  rewrite <- (append_nil_r t) at 1. rewrite (upper_go_ascii_text t "" Hascii).
  apply append_nil_r.
Qed.

(** What [upper_go] does with the start of a text does not depend on what
    follows. *)
Lemma upper_go_prefix (pre pending : string) :
  exists out pending',
    forall rest, Unicode.upper_go pending (pre +:+ rest) = out +:+ Unicode.upper_go pending' rest.
Proof.
  revert pending. induction pre as [|b pre IH]; intros pending.
  - by exists "", pending.
  - destruct (Unicode.is_continuation b && negb (Nat.eqb (String.length pending) 0)) eqn:Hcont.
    + destruct (Nat.eqb (String.length (pending +:+ String b ""))
                  (match pending +:+ String b "" with
                   | String lead _ => Unicode.sequence_length lead
                   | EmptyString => 0%nat
                   end)) eqn:Hwhole.
      * destruct (IH "") as (out & pending' & Hrun).
        exists (Unicode.upper_sequence (pending +:+ String b "") +:+ out), pending'.
        intros rest. str_simpl. simpl. rewrite Hcont, Hwhole, Hrun. by rewrite append_assoc.
      * destruct (IH (pending +:+ String b "")) as (out & pending' & Hrun).
        exists out, pending'. intros rest. str_simpl. simpl. by rewrite Hcont, Hwhole, Hrun.
    + destruct (Unicode.sequence_length b) as [|[|n]] eqn:Hlen.
      * destruct (IH "") as (out & pending' & Hrun).
        exists (pending +:+ String b out), pending'. intros rest. str_simpl. simpl.
        rewrite Hcont, Hlen, Hrun. by rewrite append_assoc.
      * destruct (IH "") as (out & pending' & Hrun).
        exists (pending +:+ Unicode.upper_sequence (String b "") +:+ out), pending'.
        intros rest. str_simpl. simpl. rewrite Hcont, Hlen, Hrun. by rewrite !append_assoc.
      * destruct (IH (String b "")) as (out & pending' & Hrun).
        exists (pending +:+ out), pending'. intros rest. str_simpl. simpl.
        rewrite Hcont, Hlen, Hrun. by rewrite append_assoc.
Qed.

(** A token of capital letters that the text contains up to case is in the
    capital form of the text, whatever else the text holds. *)
Lemma includes_toUpperCase (token t : string) :
  capital_letters token = true ->
  spec_contains_ignoring_case token t ->
  Str.includes token (Str.toUpperCase t) = true.
Proof.
  intros Hcap (pre & mid & post & -> & Heq).
  pose proof (equal_ignoring_case_ascii mid token Hcap Heq) as Hascii.
  apply (equal_ignoring_case_capital mid token Hcap) in Heq.
  destruct mid as [|c mid]; [simpl in Heq; subst token; apply includes_empty |].
  unfold Str.toUpperCase. destruct (upper_go_prefix pre "") as (out & pending' & ->).
  simpl in Hascii. apply andb_true_iff in Hascii as [Hc Hmid]. apply Nat.ltb_lt in Hc.
  str_simpl. rewrite (upper_go_ascii_byte pending' c _ Hc), (upper_go_ascii_text mid post Hmid).
  apply includes_spec. exists (out +:+ pending'), (Unicode.upper_go "" post).
  rewrite <- Heq. simpl. by rewrite !append_assoc.
Qed.

(** In a text of ASCII the converse holds. *)
Lemma includes_toUpperCase_ascii (token t : string) :
  capital_letters token = true -> is_ascii_text t = true ->
  Str.includes token (Str.toUpperCase t) = true ->
  spec_contains_ignoring_case token t.
Proof.
  intros Hcap Hascii Hinc. rewrite (toUpperCase_ascii_text t Hascii) in Hinc.
  apply includes_spec in Hinc as (pre & post & Ht).
  apply map_chars_split in Ht as (t1 & t23 & -> & H1 & H23).
  apply map_chars_split in H23 as (t2 & t3 & -> & H2 & H3).
  exists t1, t2, t3. split; [reflexivity |]. by apply equal_ignoring_case_capital.
Qed.

Lemma spec_contains_nonempty (token t : string) :
  spec_contains_ignoring_case token t -> token <> "" -> t <> "".
Proof.
  intros (pre & mid & post & -> & Hmid) Htok Hnil.
  destruct pre; [|discriminate]. destruct mid; [|discriminate].
  destruct token; [done | discriminate].
Qed.

End StringFacts.

Example split_data_url :
  Str.split "," "data:image/jpeg;base64,/9j/4AAQ" = ["data:image/jpeg;base64"; "/9j/4AAQ"].
Proof. reflexivity. Qed.

Example split_empty_canvas : Str.split "," "data:," = ["data:"; ""].
Proof. reflexivity. Qed.

Example includes_anywhere : Str.includes "CAUTION" (Str.toUpperCase "Wet floor, caution.") = true.
Proof. reflexivity. Qed.

Example modeAnnouncement_navigation :
  App.modeAnnouncement NAVIGATION = "navigation mode selected".
Proof. reflexivity. Qed.

Example captureFrame_ready :
  CameraView.captureFrame true camera_ready = Some "/9j/4AAQSkZJRg==".
Proof. reflexivity. Qed.

(** ** The analysis client *)

Section AnalysisClient.

Variable generateContent :
  Gemini.GenerateContentParameters -> Promise Gemini.GenerateContentResponse.

Lemma analyzeImage_resolved (img : string) (m : AppMode) (v : Verbosity)
    (resp : Gemini.GenerateContentResponse) :
  generateContent (Gemini.request img (Gemini.getPromptForMode m v)) = Resolved resp ->
  Gemini.analyzeImage generateContent img m v =
    Resolved
      (let t := Str.or_else (Gemini.responseText resp) "I couldn't analyze the scene." in
       {| Gemini.outText := t;
          Gemini.isUrgent := Str.includes "WARNING" (Str.toUpperCase t)
                             || Str.includes "CAUTION" (Str.toUpperCase t) |}).
Proof. intros Hresp. unfold Gemini.analyzeImage. by rewrite Hresp. Qed.

Lemma analyzeImage_rejected (img : string) (m : AppMode) (v : Verbosity) (e : string) :
  generateContent (Gemini.request img (Gemini.getPromptForMode m v)) = Rejected e ->
  Gemini.analyzeImage generateContent img m v = Resolved Gemini.connectionError.
Proof. intros Hrej. unfold Gemini.analyzeImage. by rewrite Hrej. Qed.

Lemma priority_newEntry (result : Gemini.AnalysisOutput) (now : Z) :
  priority (App.newEntry result now) = urgent <-> Gemini.isUrgent result = true.
Proof. simpl. destruct (Gemini.isUrgent result); split; congruence. Qed.

Lemma priority_not_urgent (p : Priority) : p <> urgent -> p = normal.
Proof. destruct p; congruence. Qed.

(** C2, as the code has it. For every text [t] the analysis service answers
    with, the entry that processFrame builds from the result of analyzeImage
    has priority urgent if and only if the upper case of [t], as toUpperCase
    makes it, includes WARNING or CAUTION; otherwise its priority is normal.
    Hence every text that contains WARNING or CAUTION at any position, in
    capital letters, small letters or a mix of them, is urgent; and a text of
    ASCII that is urgent contains one of them so. *)
Theorem urgent_iff_upper_case_includes (img : string) (m : AppMode) (v : Verbosity)
    (now : Z) (t : string) :
  generateContent (Gemini.request img (Gemini.getPromptForMode m v))
    = Resolved {| Gemini.responseText := Some t |} ->
  exists result,
    Gemini.analyzeImage generateContent img m v = Resolved result /\
    (priority (App.newEntry result now) = urgent <->
       Str.includes "WARNING" (Str.toUpperCase t) = true
       \/ Str.includes "CAUTION" (Str.toUpperCase t) = true) /\
    (spec_contains_ignoring_case "WARNING" t \/ spec_contains_ignoring_case "CAUTION" t ->
       priority (App.newEntry result now) = urgent) /\
    (is_ascii_text t = true -> priority (App.newEntry result now) = urgent ->
       spec_contains_ignoring_case "WARNING" t \/ spec_contains_ignoring_case "CAUTION" t) /\
    (priority (App.newEntry result now) <> urgent ->
       priority (App.newEntry result now) = normal).
Proof.
  intros Hresp. eexists. split; [by apply analyzeImage_resolved |].
  assert (Hiff : priority (App.newEntry
            (let t' := Str.or_else (Some t) "I couldn't analyze the scene." in
             {| Gemini.outText := t';
                Gemini.isUrgent := Str.includes "WARNING" (Str.toUpperCase t')
                                   || Str.includes "CAUTION" (Str.toUpperCase t') |}) now)
          = urgent <->
          Str.includes "WARNING" (Str.toUpperCase t) = true
          \/ Str.includes "CAUTION" (Str.toUpperCase t) = true).
  { rewrite priority_newEntry. destruct t as [|c t].
    - vm_compute. split; [discriminate | by intros [H | H]].
    - cbn [Str.or_else Str.truthy Gemini.isUrgent]. apply orb_true_iff. }
  split; [exact Hiff |]. split; [| split].
  - intros Hcontains. apply Hiff.
    destruct Hcontains as [H | H]; [left | right]; by apply includes_toUpperCase.
  - intros Hascii Hurgent. apply Hiff in Hurgent.
    destruct Hurgent as [H | H]; [left | right]; by apply includes_toUpperCase_ascii.
  - apply priority_not_urgent.
Qed.

(** C6. analyzeImage never rejects: whatever the service does, the promise
    resolves; and when the service rejects, it resolves with the fixed
    connection-error text and no urgency, from which processFrame builds an
    entry of priority normal. *)
Theorem analyzeImage_never_rejects (img : string) (m : AppMode) (v : Verbosity) :
  (exists result, Gemini.analyzeImage generateContent img m v = Resolved result) /\
  (forall e now,
     generateContent (Gemini.request img (Gemini.getPromptForMode m v)) = Rejected e ->
     Gemini.analyzeImage generateContent img m v = Resolved Gemini.connectionError /\
     text (App.newEntry Gemini.connectionError now) = "Connection error. Please try again." /\
     priority (App.newEntry Gemini.connectionError now) = normal).
Proof.
  split.
  - destruct (generateContent (Gemini.request img (Gemini.getPromptForMode m v)))
      as [resp | e] eqn:Hsvc.
    + eexists. by apply analyzeImage_resolved.
    + eexists. by eapply analyzeImage_rejected.
  - intros e now Hrej. split; [by eapply analyzeImage_rejected | done].
Qed.

End AnalysisClient.

(** A response in mixed case with the marker in the middle. *)
Lemma urgent_iff_upper_case_includes_witness :
  exists result,
    Gemini.analyzeImage (fun _ => Resolved {| Gemini.responseText := Some "Stop. Warning: stairs" |})
      "aGk=" NAVIGATION MINIMAL = Resolved result /\
    priority (App.newEntry result 0) = urgent.
Proof.
  destruct (urgent_iff_upper_case_includes
              (fun _ => Resolved {| Gemini.responseText := Some "Stop. Warning: stairs" |})
              "aGk=" NAVIGATION MINIMAL 0 "Stop. Warning: stairs" eq_refl)
    as (result & Hresult & _ & Hif & _).
  exists result. split; [exact Hresult |].
  apply Hif. left. apply contains_ignoring_case_spec. reflexivity.
Defined.

(** C2 as the specification words it fails for a response in which the
    dotless i (U+0131) stands where the token has an I: the upper case of the
    dotless i is I, so the entry is urgent, and the text holds neither token
    in whatever case. *)
Lemma urgent_without_either_token :
  exists result,
    Gemini.analyzeImage (fun _ => Resolved {| Gemini.responseText := Some "warnıng" |})
      "aGk=" GENERAL STANDARD = Resolved result /\
    priority (App.newEntry result 0) = urgent /\
    ~ (spec_contains_ignoring_case "WARNING" "warnıng"
       \/ spec_contains_ignoring_case "CAUTION" "warnıng").
Proof.
  eexists. split; [reflexivity |]. split; [by vm_compute |].
  intros [H | H]; apply contains_ignoring_case_spec in H; vm_compute in H; discriminate.
Qed.

(** A service that is unreachable. *)
Lemma analyzeImage_never_rejects_witness :
  Gemini.analyzeImage (fun _ => Rejected "fetch failed") "aGk=" GENERAL STANDARD
    = Resolved Gemini.connectionError /\
  text (App.newEntry Gemini.connectionError 0) = "Connection error. Please try again." /\
  priority (App.newEntry Gemini.connectionError 0) = normal.
Proof.
  exact (proj2 (analyzeImage_never_rejects (fun _ => Rejected "fetch failed")
                  "aGk=" GENERAL STANDARD) "fetch failed" 0%Z eq_refl).
Defined.

(** ** Prompt construction *)

(** C7. The instruction for a mode and a verbosity is the fixed task
    description of the mode (written out below for each of the five modes, no
    two of them alike), then the fixed length sentence of the verbosity, then
    the warning-prefix rule, whatever the mode and the verbosity: it is a
    function of the two alone.  The length sentences ask for under 15 words
    (Minimal), under 40 words (Standard) and up to 70 words (Detailed); the
    rule names the marker WARNING:.  For Navigation and Minimal the
    instruction is the one written out below: hazards, under 15 words, and the
    rule. *)
Theorem getPromptForMode_shape (m : AppMode) (v : Verbosity) :
  Gemini.getPromptForMode m v
    = Gemini.basePrompt m +:+ " " +:+ Gemini.lengthInstruction v +:+ " " +:+ Gemini.warningRule /\
  Gemini.getPromptForMode m v
    = (match m with
       | NAVIGATION =>
           "Navigation Mode. Focus ONLY on the path ahead. Identify obstacles, clear paths, doorways, changes in elevation (stairs, curbs), and hazards. Give specific directions and distances."
       | TEXT =>
           "Text Reader Mode. Read all visible text clearly. If it's a menu, read items and prices. If it's a sign, explain its purpose. If it's a document, identify fields. Ignore background clutter."
       | SOCIAL =>
           "Social Mode. Describe people, their approximate ages, facial expressions, body language, and where they are looking. Describe the social atmosphere (relaxed, busy, private conversation)."
       | SHOPPING =>
           "Shopping Mode. Identify products, read brand names and prices if visible. Compare items if multiple are present. Mention colors and packaging details."
       | GENERAL =>
           "General Mode. Describe the scene comprehensively but concisely. Mention the most important objects, people, and layout of the room or area. Identify immediate surroundings."
       end)
      +:+ " "
      +:+ (match v with
           | MINIMAL => "Keep response under 15 words. Only critical info and hazards."
           | STANDARD => "Keep response under 40 words. Balance detail with speed."
           | DETAILED => "Provide a detailed description (up to 70 words)."
           end)
      +:+ " If you see an immediate danger (car, drop-off, fire), start with 'WARNING:'." /\
  (forall m', Gemini.basePrompt m = Gemini.basePrompt m' -> m = m') /\
  (forall v', Gemini.lengthInstruction v = Gemini.lengthInstruction v' -> v = v') /\
  Str.startsWith (match m with
                  | NAVIGATION => "Navigation Mode."
                  | TEXT => "Text Reader Mode."
                  | SOCIAL => "Social Mode."
                  | SHOPPING => "Shopping Mode."
                  | GENERAL => "General Mode."
                  end) (Gemini.getPromptForMode m v) = true /\
  Str.startsWith (Gemini.basePrompt m) (Gemini.getPromptForMode m v) = true /\
  Str.includes (Gemini.lengthInstruction v) (Gemini.getPromptForMode m v) = true /\
  Str.includes (match v with
                | MINIMAL => "under 15 words"
                | STANDARD => "under 40 words"
                | DETAILED => "up to 70 words"
                end) (Gemini.lengthInstruction v) = true /\
  (exists pre, Gemini.getPromptForMode m v = pre +:+ " " +:+ Gemini.warningRule) /\
  Str.includes "start with 'WARNING:'" Gemini.warningRule = true /\
  Gemini.getPromptForMode NAVIGATION MINIMAL
    = "Navigation Mode. Focus ONLY on the path ahead. Identify obstacles, clear paths, doorways, changes in elevation (stairs, curbs), and hazards. Give specific directions and distances. Keep response under 15 words. Only critical info and hazards. If you see an immediate danger (car, drop-off, fire), start with 'WARNING:'." /\
  Str.includes "hazards" (Gemini.basePrompt NAVIGATION) = true /\
  Str.includes "hazards" (Gemini.lengthInstruction MINIMAL) = true.
Proof.
  split; [reflexivity |].
  split; [by destruct m, v; vm_compute |].
  split; [intros m'; destruct m, m'; intros H; try reflexivity; vm_compute in H; discriminate H |].
  split; [intros v'; destruct v, v'; intros H; try reflexivity; vm_compute in H; discriminate H |].
  split; [by destruct m, v; vm_compute |].
  split; [by destruct m, v; vm_compute |].
  split; [by destruct m, v; vm_compute |].
  split; [by destruct v; vm_compute |].
  split.
  { exists (Gemini.basePrompt m +:+ " " +:+ Gemini.lengthInstruction v).
    unfold Gemini.getPromptForMode. by rewrite !append_assoc. }
  repeat split; by vm_compute.
Qed.

(** ** The speech arbiter *)

Section SpeechArbiter.

Implicit Types (this : TTS.TTSService Speaker) (st : AppSettings) (p : Priority).

(** Cancelling leaves the voices of the device as they are, so the utterance
    speak builds is the same before and after its cancelling branches. *)
Lemma newUtterance_interrupt (txt : string) p st (d : Speaker) :
  TTS.newUtterance txt p st (TTS.interrupt p st d) = TTS.newUtterance txt p st d.
Proof.
  unfold TTS.newUtterance, TTS.interrupt.
  destruct (decide (p = urgent)); [reflexivity |].
  by destruct (synth_speaking d && autoNarration st).
Qed.

Lemma newUtterance_fields (txt : string) p st (d : Speaker) :
  uttText (TTS.newUtterance txt p st d) = txt /\
  rate (TTS.newUtterance txt p st d) = speechRate st /\
  pitch (TTS.newUtterance txt p st d)
    = (if decide (p = urgent) then (11 # 10)%Q else (1 # 1)%Q) /\
  volume (TTS.newUtterance txt p st d) = (1 # 1)%Q /\
  voice (TTS.newUtterance txt p st d) = TTS.preferredVoice (voices d).
Proof.
  unfold TTS.newUtterance. simpl.
  by destruct (TTS.preferredVoice (voices d)).
Qed.

Lemma truthy_false (txt : string) : Str.truthy txt = false <-> txt = "".
Proof. destruct txt; simpl; split; congruence. Qed.

Lemma speak_empty p st this : TTS.speak "" p st this = this.
Proof. reflexivity. Qed.

Lemma speak_urgent (txt : string) st this :
  txt <> "" ->
  TTS.speak txt urgent st this =
    let u := TTS.newUtterance txt urgent st (TTS.synthesis this) in
    {| TTS.synthesis := synth_speak u (synth_cancel (TTS.synthesis this));
       TTS.currentUtterance := Some u |}.
Proof.
  intros Htxt. unfold TTS.speak.
  destruct (Str.truthy txt) eqn:Htruthy; [| by apply truthy_false in Htruthy].
  simpl negb. cbv iota. by rewrite newUtterance_interrupt.
Qed.

(** C3. speak with an empty text does nothing.  Otherwise it speaks one new
    utterance with the given text: with priority urgent after cancelling all
    the device holds, so that the new utterance is alone in the queue; with
    priority normal, while the device is speaking and auto-narration is
    enabled, likewise after a cancel; with priority normal in every other case
    without a cancel, so that the utterance joins the end of the queue of the
    device, behind whatever it is speaking. *)
Theorem speak_arbitration (txt : string) p st this :
  let d := TTS.synthesis this in
  let u := TTS.newUtterance txt p st d in
  let after := TTS.synthesis (TTS.speak txt p st this) in
  uttText u = txt /\
  (txt = "" -> TTS.speak txt p st this = this) /\
  (txt <> "" -> p = urgent ->
     after = synth_speak u (synth_cancel d) /\ queue after = [u]) /\
  (txt <> "" -> p = normal -> synth_speaking d = true -> autoNarration st = true ->
     after = synth_speak u (synth_cancel d) /\ queue after = [u]) /\
  (txt <> "" -> p = normal -> synth_speaking d && autoNarration st = false ->
     after = synth_speak u d /\ queue after = (queue d ++ [u])%list).
Proof.
  intros d u after. split; [apply newUtterance_fields |].
  split; [intros ->; apply speak_empty |].
  assert (Hgen : txt <> "" ->
            after = synth_speak u (TTS.interrupt p st d)).
  { intros Htxt. subst after u d. unfold TTS.speak.
    destruct (Str.truthy txt) eqn:Htruthy; [| by apply truthy_false in Htruthy].
    simpl. by rewrite newUtterance_interrupt. }
  split; [| split].
  - intros Htxt ->. rewrite (Hgen Htxt). by unfold TTS.interrupt.
  - intros Htxt -> Hspeaking Hauto. rewrite (Hgen Htxt). unfold TTS.interrupt.
    by rewrite Hspeaking, Hauto.
  - intros Htxt -> Hquiet. rewrite (Hgen Htxt). unfold TTS.interrupt.
    by rewrite Hquiet.
Qed.

End SpeechArbiter.

(** The scenario of an urgent warning while a normal narration is being
    spoken, and a normal narration arriving while another is being spoken
    with auto-narration off and on. *)
Lemma speak_arbitration_witness :
  let manual := {| verbosity := STANDARD; speechRate := (1 # 1)%Q;
                   autoNarration := false; autoInterval := 4000 |} in
  let live := {| verbosity := STANDARD; speechRate := (1 # 1)%Q;
                 autoNarration := true; autoInterval := 4000 |} in
  let current := TTS.newUtterance "object to your left" normal manual (mkSpeaker [] []) in
  let busy := {| TTS.synthesis := mkSpeaker [] [current];
                 TTS.currentUtterance := Some current |} in
  queue (TTS.synthesis (TTS.speak "WARNING: step ahead" urgent manual busy))
    = [TTS.newUtterance "WARNING: step ahead" urgent manual (mkSpeaker [] [current])] /\
  queue (TTS.synthesis (TTS.speak "door ahead" normal live busy))
    = [TTS.newUtterance "door ahead" normal live (mkSpeaker [] [current])] /\
  queue (TTS.synthesis (TTS.speak "door ahead" normal manual busy))
    = [current; TTS.newUtterance "door ahead" normal manual (mkSpeaker [] [current])] /\
  TTS.speak "" urgent manual busy = busy.
Proof.
  intros manual live current busy.
  destruct (speak_arbitration "WARNING: step ahead" urgent manual busy)
    as (_ & _ & Hurgent & _ & _).
  destruct (speak_arbitration "door ahead" normal live busy) as (_ & _ & _ & Hlive & _).
  destruct (speak_arbitration "door ahead" normal manual busy) as (_ & _ & _ & _ & Hqueue).
  destruct (speak_arbitration "" urgent manual busy) as (_ & Hempty & _).
  split; [apply Hurgent; [discriminate | reflexivity] |].
  split; [apply Hlive; [discriminate | reflexivity | reflexivity | reflexivity] |].
  split; [apply Hqueue; [discriminate | reflexivity | reflexivity] |].
  apply Hempty. reflexivity.
Defined.

(** ** The transcript log *)

Section TranscriptLog.

Implicit Types (e : AnalysisResult) (log es : list AnalysisResult).

Lemma keepLast10_front e log : App.keepLast10 e log = e :: take 9 log.
Proof. reflexivity. Qed.

Lemma keepLast10_length e log : (List.length (App.keepLast10 e log) <= 10)%nat.
Proof. unfold App.keepLast10. rewrite length_take. lia. Qed.




End TranscriptLog.

(** ** The component *)

Section Component.

Import App.

Implicit Types (s : state) (dom : CameraView.Dom) (cl : closure) (e : event).

(** *** What processFrame leaves alone *)

Lemma same_schedule_refl s : same_schedule s s.
Proof. by repeat split. Qed.

Lemma processFrame_cases cl (auto : bool) dom s :
  processFrame cl auto dom s = s \/
  exists image,
    cameraRef_captureFrame dom s = Some image /\ image <> "" /\
    cl_isCameraActive cl = true /\ (processingRef s && auto = false) /\
    processFrame cl auto dom s
      = set_inflight (inflight s ++ [mkPending auto image cl])
          (set_processingRef true (setIsProcessing true s)).
Proof.
  unfold processFrame.
  destruct (cl_isCameraActive cl); simpl; [| by left].
  destruct (processingRef s && auto) eqn:Hgate; [by left |].
  destruct (cameraRef_captureFrame dom s) as [image|]; [| by left].
  destruct image as [|c image]; simpl; [by left |].
  right. exists (String c image). by repeat split.
Qed.

Lemma processFrame_same_schedule cl (auto : bool) dom s :
  same_schedule s (processFrame cl auto dom s).
Proof.
  destruct (processFrame_cases cl auto dom s) as [-> | (image & _ & _ & _ & _ & ->)];
    by repeat split.
Qed.

Lemma processFrame_resume_same_schedule (p : pending) settled (now : Z) s :
  same_schedule s (processFrame_resume p settled now s).
Proof. unfold processFrame_resume. destruct settled; by repeat split. Qed.

Lemma spec_schedule_same s s' : same_schedule s s' -> spec_schedule s -> spec_schedule s'.
Proof.
  intros (Hi & Hr & _ & _ & Ha & Hm & Hs). unfold spec_schedule, render_closure.
  by rewrite Hi, Hr, Ha, Hm, Hs.
Qed.

Lemma timers_fresh_same s s' : same_schedule s s' -> timers_fresh s -> timers_fresh s'.
Proof.
  intros (Hi & _ & Ht & Hn & _). unfold timers_fresh. by rewrite Hi, Ht, Hn.
Qed.

(** *** The effect *)

Lemma spec_schedule_owned s : spec_schedule s -> owned s.
Proof.
  unfold spec_schedule, owned. intros Hs h [t Ht].
  destruct (isCameraActive s && autoNarration (settings s)).
  - destruct Hs as (h' & Hi & Hr). rewrite Hi in Ht.
    apply lookup_singleton_Some in Ht as [-> _]. exact Hr.
  - destruct Hs as [Hi _]. rewrite Hi in Ht. by rewrite lookup_empty in Ht.
Qed.

(** The cleanup leaves no interval running. *)
Lemma effectCleanup_intervals s : owned s -> intervals (effectCleanup s) = ∅.
Proof.
  intros Hown. unfold effectCleanup. apply map_eq. intros h. rewrite lookup_empty.
  destruct (autoIntervalRef s) as [h0|] eqn:Href; simpl.
  - destruct (decide (h0 = h)) as [-> | Hne]; [apply lookup_delete_eq |].
    rewrite lookup_delete_ne by done.
    destruct (intervals s !! h) eqn:Hh; [| done].
    specialize (Hown h (mk_is_Some _ _ Hh)). congruence.
  - destruct (intervals s !! h) eqn:Hh; [| done].
    specialize (Hown h (mk_is_Some _ _ Hh)). congruence.
Qed.

Lemma effectCleanup_fields s :
  autoIntervalRef (effectCleanup s) = autoIntervalRef s /\
  timeouts (effectCleanup s) = timeouts s /\ nextTimer (effectCleanup s) = nextTimer s /\
  isCameraActive (effectCleanup s) = isCameraActive s /\
  currentMode (effectCleanup s) = currentMode s /\ settings (effectCleanup s) = settings s /\
  ttsService (effectCleanup s) = ttsService s /\ inflight (effectCleanup s) = inflight s /\
  processingRef (effectCleanup s) = processingRef s /\
  transcripts (effectCleanup s) = transcripts s /\ errorMsg (effectCleanup s) = errorMsg s /\
  isProcessing (effectCleanup s) = isProcessing s.
Proof. unfold effectCleanup. destruct (autoIntervalRef s) eqn:Href; by repeat split. Qed.

(** The effect run with capture active and auto-narration enabled: one call
    of processFrame for an auto trigger, then one new interval at the current
    period, whose handle goes into the ref. *)
Lemma effectBody_enabled dom s :
  isCameraActive s = true -> autoNarration (settings s) = true ->
  effectBody dom s =
    set_autoIntervalRef (Some (nextTimer s))
      (setInterval (render_closure s) (autoInterval (settings s))
         (processFrame (render_closure s) true dom s)).2.
Proof.
  intros Ha Hn. unfold effectBody. rewrite Ha, Hn. simpl.
  by destruct (processFrame_same_schedule (render_closure s) true dom s)
    as (_ & _ & _ & -> & _).
Qed.

Lemma rerunEffect_schedule dom s :
  owned s -> spec_schedule (rerunEffect dom s).
Proof.
  intros Hown. unfold rerunEffect.
  pose proof (effectCleanup_intervals s Hown) as Hclean.
  destruct (effectCleanup_fields s) as (Hr & _ & _ & Ha & Hm & Hs & _).
  set (c := effectCleanup s) in *. clearbody c.
  destruct (isCameraActive c && autoNarration (settings c)) eqn:Hon.
  - apply andb_true_iff in Hon as [Hact Haut].
    rewrite (effectBody_enabled dom c Hact Haut).
    destruct (processFrame_same_schedule (render_closure c) true dom c)
      as (Hi' & Hr' & Ht' & Hn' & Ha' & Hm' & Hs').
    set (c' := processFrame (render_closure c) true dom c) in *. clearbody c'.
    unfold spec_schedule, render_closure. simpl.
    rewrite Ha', Hs', Hm', Hi', Hn', Hclean, Hact, Haut. simpl.
    exists (nextTimer c). split; [| done]. apply insert_empty.
  - unfold spec_schedule, effectBody. rewrite Hon.
    destruct (autoIntervalRef c) as [h|] eqn:Href; simpl; rewrite Hon.
    + split; [| done]. rewrite Hclean. apply delete_empty.
    + by split.
Qed.

Lemma rerunEffect_fresh dom s : timers_fresh s -> timers_fresh (rerunEffect dom s).
Proof.
  intros Hfresh. unfold rerunEffect.
  assert (Hc : timers_fresh (effectCleanup s)).
  { unfold effectCleanup. destruct (autoIntervalRef s) as [h0|]; [| done].
    intros h [[t Ht] | Ht]; apply Hfresh; [left | by right].
    simpl in Ht. apply lookup_delete_Some in Ht as [_ Ht]. eauto. }
  set (c := effectCleanup s) in *. clearbody c.
  unfold effectBody. destruct (isCameraActive c && autoNarration (settings c)).
  - pose proof (processFrame_same_schedule (render_closure c) true dom c) as Hsame.
    apply (timers_fresh_same _ _ Hsame) in Hc.
    set (c' := processFrame (render_closure c) true dom c) in *. clearbody c'.
    intros h. simpl. intros [[t Ht] | Ht].
    + apply lookup_insert_Some in Ht as [[<- _] | [_ Ht]]; [lia |].
      specialize (Hc h (or_introl (ex_intro _ t Ht))). lia.
    + specialize (Hc h (or_intror Ht)). lia.
  - destruct (autoIntervalRef c) as [h0|]; [| done].
    intros h [[t Ht] | Ht]; simpl in *; apply Hc; [left | by right].
    apply lookup_delete_Some in Ht as [_ Ht]. eauto.
Qed.

Lemma rerunEffect_intervals dom s :
  owned s ->
  intervals (rerunEffect dom s) = ∅ \/
  exists t, intervals (rerunEffect dom s) = {[ nextTimer s := t ]}.
Proof.
  intros Hown. unfold rerunEffect.
  pose proof (effectCleanup_intervals s Hown) as Hclean.
  destruct (effectCleanup_fields s) as (_ & _ & Hn & _).
  set (c := effectCleanup s) in *. clearbody c.
  destruct (isCameraActive c && autoNarration (settings c)) eqn:Hon.
  - apply andb_true_iff in Hon as [Hact Haut].
    rewrite (effectBody_enabled dom c Hact Haut).
    destruct (processFrame_same_schedule (render_closure c) true dom c)
      as (Hi' & _ & _ & Hn' & _).
    right. eexists. simpl. rewrite Hi', Hn', Hclean, Hn. apply insert_empty.
  - left. unfold effectBody. rewrite Hon.
    destruct (autoIntervalRef c); [| done]. simpl. rewrite Hclean. apply delete_empty.
Qed.

(** *** The handlers and the schedule *)

Lemma owned_same s s' :
  intervals s' = intervals s -> autoIntervalRef s' = autoIntervalRef s -> owned s -> owned s'.
Proof. intros Hi Hr. unfold owned. by rewrite Hi, Hr. Qed.

Lemma handleModeSelect_fields (m : AppMode) s :
  intervals (handleModeSelect m s) = intervals s /\
  autoIntervalRef (handleModeSelect m s) = autoIntervalRef s /\
  isCameraActive (handleModeSelect m s) = isCameraActive s /\
  settings (handleModeSelect m s) = settings s /\
  currentMode (handleModeSelect m s) = m /\
  inflight (handleModeSelect m s) = inflight s /\
  processingRef (handleModeSelect m s) = processingRef s /\
  timeouts (handleModeSelect m s)
    = (if negb (autoNarration (settings s)) && isCameraActive s
       then <[nextTimer s := mkTimer 500 (render_closure s)]> (timeouts s)
       else timeouts s) /\
  nextTimer (handleModeSelect m s)
    = (if negb (autoNarration (settings s)) && isCameraActive s
       then Pos.succ (nextTimer s) else nextTimer s).
Proof.
  unfold handleModeSelect.
  destruct (negb (autoNarration (settings s)) && isCameraActive s); by repeat split.
Qed.

Lemma handleModeSelect_fresh (m : AppMode) s :
  timers_fresh s -> timers_fresh (handleModeSelect m s).
Proof.
  intros Hfresh h.
  destruct (handleModeSelect_fields m s) as (-> & _ & _ & _ & _ & _ & _ & -> & ->).
  destruct (negb (autoNarration (settings s)) && isCameraActive s); [| apply Hfresh].
  intros [Hi | [t Ht]].
  - specialize (Hfresh h (or_introl Hi)). lia.
  - apply lookup_insert_Some in Ht as [[<- _] | [_ Ht]]; [lia |].
    specialize (Hfresh h (or_intror (mk_is_Some _ _ Ht))). lia.
Qed.

Lemma step_schedule dom e s :
  spec_schedule s /\ timers_fresh s ->
  spec_schedule (step dom e s) /\ timers_fresh (step dom e s).
Proof.
  intros [Hsched Hfresh]. pose proof (spec_schedule_owned s Hsched) as Hown.
  destruct e; simpl.
  - split; [by apply rerunEffect_schedule | by apply rerunEffect_fresh].
  - destruct (isCameraActive s); simpl; [| done].
    split; [by apply rerunEffect_schedule | by apply rerunEffect_fresh].
  - split; [by apply rerunEffect_schedule | by apply rerunEffect_fresh].
  - split; [by apply rerunEffect_schedule | by apply rerunEffect_fresh].
  - split; [by apply rerunEffect_schedule | by apply rerunEffect_fresh].
  - pose proof (handleModeSelect_fresh m s Hfresh) as Hfresh'.
    destruct (handleModeSelect_fields m s) as (Hi & Hr & Ha & Hs & Hm & _).
    destruct (isProcessing s && bool_decide (currentMode s = m)); [done |].
    case_bool_decide as Hsame.
    + split; [| done]. unfold spec_schedule, render_closure.
      rewrite Hi, Hr, Ha, Hs, Hm, <- Hsame. exact Hsched.
    + split; [| by apply rerunEffect_fresh].
      apply rerunEffect_schedule. by apply (owned_same s).
  - destruct (isCameraActive s && negb (autoNarration (settings s)) && negb (isProcessing s));
      [| done].
    pose proof (processFrame_same_schedule (render_closure s) false dom s) as Hsame.
    split; [by apply (spec_schedule_same s) | by apply (timers_fresh_same s)].
  - done.
  - destruct (intervals s !! h) as [t|]; [| done].
    pose proof (processFrame_same_schedule (handler t) true dom s) as Hsame.
    split; [by apply (spec_schedule_same s) | by apply (timers_fresh_same s)].
  - destruct (timeouts s !! h) as [t|]; [| done].
    set (s' := set_timeouts (delete h (timeouts s)) s).
    pose proof (processFrame_same_schedule (handler t) false dom s') as Hsame.
    assert (Hs' : spec_schedule s') by exact Hsched.
    assert (Hf' : timers_fresh s').
    { intros h' [Hi | [t' Ht']]; apply Hfresh; [by left | right].
      simpl in Ht'. apply lookup_delete_Some in Ht' as [_ Ht']. eauto. }
    split; [by apply (spec_schedule_same s') | by apply (timers_fresh_same s')].
  - destruct (inflight s !! i) as [p|]; [| done].
    set (s' := set_inflight (delete i (inflight s)) s).
    match goal with
    | |- context [processFrame_resume p ?r now s'] =>
        pose proof (processFrame_resume_same_schedule p r now s') as Hsame
    end.
    split; [by apply (spec_schedule_same s') | by apply (timers_fresh_same s')].
  - done.
Qed.

Lemma reachable_schedule (vs : list SpeechSynthesisVoice) s :
  reachable vs s -> spec_schedule s /\ timers_fresh s.
Proof.
  induction 1 as [| s dom e _ IH].
  - split; [by split |]. intros h [[t Ht] | [t Ht]]; simpl in Ht; by rewrite lookup_empty in Ht.
  - by apply step_schedule.
Qed.

(** *** The recurring schedule *)

Lemma spec_schedule_size s : spec_schedule s -> (size (intervals s) <= 1)%nat.
Proof.
  unfold spec_schedule. destruct (isCameraActive s && autoNarration (settings s)).
  - intros (h & -> & _). rewrite map_size_singleton. lia.
  - intros [-> _]. rewrite map_size_empty. lia.
Qed.

Lemma rerunEffect_replaces dom s s' :
  spec_schedule s -> timers_fresh s ->
  intervals s' = intervals s -> autoIntervalRef s' = autoIntervalRef s ->
  nextTimer s' = nextTimer s ->
  (exists rendered,
     rerunEffect dom s' = effectBody dom (effectCleanup rendered) /\
     intervals (effectCleanup rendered) = ∅) /\
  (forall h, is_Some (intervals s !! h) -> intervals (rerunEffect dom s') !! h = None).
Proof.
  intros Hsched Hfresh Hi Hr Hn.
  assert (Hown : owned s') by (apply (owned_same s); [done | done | by apply spec_schedule_owned]).
  split.
  - exists s'. split; [reflexivity | by apply effectCleanup_intervals].
  - intros h Hh. specialize (Hfresh h (or_introl Hh)).
    destruct (rerunEffect_intervals dom s' Hown) as [-> | [t ->]].
    + apply lookup_empty.
    + apply lookup_singleton_ne. rewrite Hn. lia.
Qed.

(** C5. In every reachable state at most one interval runs: exactly one, at
    the current period, while capture is active and auto-narration enabled,
    and none otherwise.  Enabling auto-narration while capture is active calls
    processFrame once for an auto trigger and then starts one interval at the
    current period.  Toggling auto-narration, toggling the camera and
    changing the interval run the cleanup of the effect, after which no
    interval runs, and only then its body: no interval that ran before the
    event runs after it. *)
Theorem one_recurring_schedule (vs : list SpeechSynthesisVoice) s dom :
  reachable vs s ->
  (size (intervals s) <= 1)%nat /\
  spec_schedule s /\
  (isCameraActive s = true -> autoNarration (settings s) = false ->
     let rendered := setSettings toggleAutoNarration s in
     step dom ToggleAutoNarration s
       = set_autoIntervalRef (Some (nextTimer s))
           (setInterval (render_closure rendered) (autoInterval (settings s))
              (processFrame (render_closure rendered) true dom rendered)).2 /\
     intervals (step dom ToggleAutoNarration s)
       = {[ nextTimer s := mkTimer (autoInterval (settings s)) (render_closure rendered) ]}) /\
  (forall e,
     e = ToggleAutoNarration \/ e = ToggleCamera \/ (exists n, e = SetAutoInterval n) ->
     (exists rendered,
        step dom e s = effectBody dom (effectCleanup rendered) /\
        intervals (effectCleanup rendered) = ∅) /\
     (forall h, is_Some (intervals s !! h) -> intervals (step dom e s) !! h = None)).
Proof.
  intros Hreach. destruct (reachable_schedule vs s Hreach) as [Hsched Hfresh].
  split; [by apply spec_schedule_size |]. split; [exact Hsched |]. split.
  - intros Hact Hoff rendered.
    assert (Hstep : step dom ToggleAutoNarration s
              = set_autoIntervalRef (Some (nextTimer s))
                  (setInterval (render_closure rendered) (autoInterval (settings s))
                     (processFrame (render_closure rendered) true dom rendered)).2).
    { simpl. rewrite Hact. simpl. unfold rerunEffect.
      assert (Hclean : effectCleanup rendered = rendered).
      { unfold effectCleanup. unfold spec_schedule in Hsched.
        rewrite Hact, Hoff in Hsched. destruct Hsched as [_ Href].
        subst rendered. simpl. by rewrite Href. }
      fold rendered. rewrite Hclean. rewrite effectBody_enabled.
      - reflexivity.
      - exact Hact.
      - subst rendered. simpl. by rewrite Hoff. }
    split; [exact Hstep |]. rewrite Hstep.
    destruct (processFrame_same_schedule (render_closure rendered) true dom rendered)
      as (Hi' & _ & _ & Hn' & _).
    simpl. rewrite Hi', Hn'. subst rendered. simpl.
    unfold spec_schedule in Hsched. rewrite Hact, Hoff in Hsched.
    destruct Hsched as [-> _]. apply insert_empty.
  - intros e [-> | [-> | [n ->]]]; simpl.
    + destruct (isCameraActive s) eqn:Hact; simpl.
      * by apply (rerunEffect_replaces dom s).
      * unfold spec_schedule in Hsched. rewrite Hact in Hsched. simpl in Hsched.
        destruct Hsched as [Hi Href]. split.
        -- exists s. unfold effectCleanup, effectBody. rewrite Href, Hact. simpl.
           by rewrite Href.
        -- intros h [t Ht]. rewrite Hi in Ht. by rewrite lookup_empty in Ht.
    + by apply (rerunEffect_replaces dom s).
    + by apply (rerunEffect_replaces dom s).
Qed.

(** *** What the effect leaves alone *)

Lemma processFrame_quiet cl (auto : bool) dom s :
  ttsService (processFrame cl auto dom s) = ttsService s /\
  transcripts (processFrame cl auto dom s) = transcripts s /\
  errorMsg (processFrame cl auto dom s) = errorMsg s.
Proof.
  destruct (processFrame_cases cl auto dom s) as [-> | (image & _ & _ & _ & _ & ->)];
    by repeat split.
Qed.

Lemma rerunEffect_quiet dom s :
  timeouts (rerunEffect dom s) = timeouts s /\
  ttsService (rerunEffect dom s) = ttsService s /\
  transcripts (rerunEffect dom s) = transcripts s /\
  errorMsg (rerunEffect dom s) = errorMsg s.
Proof.
  unfold rerunEffect.
  destruct (effectCleanup_fields s) as (_ & Ht & _ & _ & _ & _ & Htts & _ & _ & Htr & He & _).
  rewrite <- Ht, <- Htts, <- Htr, <- He.
  set (c := effectCleanup s). clearbody c.
  destruct (isCameraActive c && autoNarration (settings c)) eqn:Hon.
  - apply andb_true_iff in Hon as [Hact Haut].
    rewrite (effectBody_enabled dom c Hact Haut).
    destruct (processFrame_same_schedule (render_closure c) true dom c)
      as (_ & _ & Ht' & _).
    destruct (processFrame_quiet (render_closure c) true dom c) as (Htts' & Htr' & He').
    by repeat split.
  - unfold effectBody. rewrite Hon. destruct (autoIntervalRef c); by repeat split.
Qed.

(** *** No frame *)

(** C9. captureFrame is a total function: it answers with a frame or with
    null and has no other outcome.  It answers null when the camera is
    inactive and when the video element has no decoded frame yet.  When it
    answers null, or an empty string, processFrame returns at once and leaves
    the whole state as it was: no error message, neither flag set, no
    analysis started, nothing spoken. *)
Theorem no_frame_is_skipped dom cl (auto : bool) s :
  CameraView.captureFrame false dom = None /\
  (CameraView.readyState (CameraView.video dom) <> 4%Z ->
     forall active, CameraView.captureFrame active dom = None) /\
  (cameraRef_captureFrame dom s = None \/ cameraRef_captureFrame dom s = Some "" ->
     processFrame cl auto dom s = s /\
     errorMsg (processFrame cl auto dom s) = errorMsg s /\
     processingRef (processFrame cl auto dom s) = processingRef s /\
     isProcessing (processFrame cl auto dom s) = isProcessing s /\
     inflight (processFrame cl auto dom s) = inflight s).
Proof.
  split; [reflexivity |]. split.
  - intros Hready active. unfold CameraView.captureFrame, CameraView.videoRef_current.
    destruct active; simpl; [| reflexivity].
    destruct (CameraView.hasPermission dom) as [[|]|]; simpl; try reflexivity.
    + destruct (Z.eqb_spec (CameraView.readyState (CameraView.video dom)) 4); done.
    + destruct (Z.eqb_spec (CameraView.readyState (CameraView.video dom)) 4); done.
  - intros Hnone.
    assert (Hskip : processFrame cl auto dom s = s).
    { unfold processFrame.
      destruct (negb (cl_isCameraActive cl) || processingRef s && auto); [reflexivity |].
      by destruct Hnone as [-> | ->]. }
    by rewrite Hskip.
Qed.

(** *** The trigger after a mode switch *)

(** C8. Selecting a mode (on a button that is enabled) while capture is
    active and auto-narration is disabled adds exactly one timeout, with a
    delay of 500 ms, whose callback calls processFrame as a manual trigger
    does; selecting a mode while capture is inactive or auto-narration is
    enabled adds none. *)
Theorem mode_switch_trigger (vs : list SpeechSynthesisVoice) s dom (m : AppMode) :
  reachable vs s ->
  isProcessing s && bool_decide (currentMode s = m) = false ->
  (isCameraActive s = true -> autoNarration (settings s) = false ->
     timeouts s !! nextTimer s = None /\
     timeouts (step dom (SelectMode m) s)
       = <[nextTimer s := mkTimer 500 (render_closure s)]> (timeouts s) /\
     size (timeouts (step dom (SelectMode m) s)) = S (size (timeouts s)) /\
     (forall dom' s2,
        timeouts s2 !! nextTimer s = Some (mkTimer 500 (render_closure s)) ->
        step dom' (TimeoutFires (nextTimer s)) s2
          = processFrame (render_closure s) false dom'
              (set_timeouts (delete (nextTimer s) (timeouts s2)) s2))) /\
  (isCameraActive s = false \/ autoNarration (settings s) = true ->
     timeouts (step dom (SelectMode m) s) = timeouts s).
Proof.
  intros Hreach Henabled. destruct (reachable_schedule vs s Hreach) as [_ Hfresh].
  assert (Hstep : timeouts (step dom (SelectMode m) s) = timeouts (handleModeSelect m s)).
  { simpl. rewrite Henabled. case_bool_decide; [reflexivity |].
    by destruct (rerunEffect_quiet dom (handleModeSelect m s)) as [-> _]. }
  rewrite Hstep.
  destruct (handleModeSelect_fields m s) as (_ & _ & _ & _ & _ & _ & _ & -> & _).
  split.
  - intros -> ->. simpl.
    assert (Hnew : timeouts s !! nextTimer s = None).
    { destruct (timeouts s !! nextTimer s) eqn:Hlook; [| reflexivity].
      specialize (Hfresh (nextTimer s) (or_intror (mk_is_Some _ _ Hlook))). lia. }
    split; [exact Hnew |]. split; [reflexivity |].
    split; [by apply map_size_insert_None |].
    intros dom' s2 Hpending. simpl. by rewrite Hpending.
  - intros [-> | ->]; [by rewrite andb_false_r | reflexivity].
Qed.

(** *** Announcements *)

Lemma modeAnnouncement_nonempty (m : AppMode) : modeAnnouncement m <> "".
Proof. by destruct m. Qed.

(** C10. Selecting a mode and starting or stopping the camera each call speak
    with priority urgent and a text that is not empty: the device is cancelled
    and then given the announcement, which is then alone in its queue, at the
    raised pitch.  The effect that runs after the handler says nothing, so the
    same holds after the whole event; a click on a disabled mode button
    selects nothing and announces nothing. *)
Theorem announcements_are_urgent dom s (m : AppMode) :
  let d := TTS.synthesis (ttsService s) in
  let announce txt := TTS.newUtterance txt urgent (settings s) d in
  let camera := if negb (isCameraActive s) then "Camera started" else "Camera stopped" in
  (uttText (announce (modeAnnouncement m)) = modeAnnouncement m /\
   uttText (announce camera) = camera /\
   pitch (announce (modeAnnouncement m)) = (11 # 10)%Q /\
   pitch (announce camera) = (11 # 10)%Q) /\
  TTS.synthesis (ttsService (handleModeSelect m s))
    = synth_speak (announce (modeAnnouncement m)) (synth_cancel d) /\
  queue (TTS.synthesis (ttsService (handleModeSelect m s))) = [announce (modeAnnouncement m)] /\
  TTS.synthesis (ttsService (toggleCamera s)) = synth_speak (announce camera) (synth_cancel d) /\
  queue (TTS.synthesis (ttsService (toggleCamera s))) = [announce camera] /\
  queue (TTS.synthesis (ttsService (step dom ToggleCamera s))) = [announce camera] /\
  queue (TTS.synthesis (ttsService (step dom (SelectMode m) s)))
    = (if isProcessing s && bool_decide (currentMode s = m) then queue d
       else [announce (modeAnnouncement m)]).
Proof.
  intros d announce camera.
  assert (Hcamera : camera <> "") by (subst camera; by destruct (isCameraActive s)).
  assert (Hmode : TTS.synthesis (ttsService (handleModeSelect m s))
                  = synth_speak (announce (modeAnnouncement m)) (synth_cancel d)).
  { unfold handleModeSelect.
    destruct (negb (autoNarration (settings s)) && isCameraActive s); simpl;
      by rewrite (speak_urgent _ _ _ (modeAnnouncement_nonempty m)). }
  assert (Htoggle : TTS.synthesis (ttsService (toggleCamera s))
                    = synth_speak (announce camera) (synth_cancel d)).
  { unfold toggleCamera. simpl. fold camera. by rewrite (speak_urgent _ _ _ Hcamera). }
  split.
  { subst announce. simpl.
    destruct (newUtterance_fields (modeAnnouncement m) urgent (settings s) d)
      as (-> & _ & -> & _).
    destruct (newUtterance_fields camera urgent (settings s) d) as (-> & _ & -> & _).
    by repeat split. }
  split; [exact Hmode |]. split; [by rewrite Hmode |].
  split; [exact Htoggle |]. split; [by rewrite Htoggle |].
  split.
  - simpl. destruct (rerunEffect_quiet dom (toggleCamera s)) as (_ & -> & _).
    by rewrite Htoggle.
  - simpl. destruct (isProcessing s && bool_decide (currentMode s = m)); [reflexivity |].
    case_bool_decide.
    + by rewrite Hmode.
    + destruct (rerunEffect_quiet dom (handleModeSelect m s)) as (_ & -> & _).
      by rewrite Hmode.
Qed.

(** *** The single-flight gate *)

(** An auto trigger while the in-flight flag is set does nothing. *)
Lemma auto_trigger_gated cl dom s :
  processingRef s = true -> processFrame cl true dom s = s.
Proof.
  intros Hflag. unfold processFrame. rewrite Hflag. simpl. by rewrite orb_true_r.
Qed.

(** A manual trigger goes ahead whenever capture is active (in the render
    that made the callback) and there is a frame, whatever the flag. *)
Lemma manual_trigger_proceeds cl dom s (image : string) :
  cl_isCameraActive cl = true ->
  cameraRef_captureFrame dom s = Some image -> image <> "" ->
  processFrame cl false dom s
    = set_inflight (inflight s ++ [mkPending false image cl])
        (set_processingRef true (setIsProcessing true s)).
Proof.
  intros Hact Hframe Himage. unfold processFrame.
  rewrite Hact, Hframe, andb_false_r. simpl.
  destruct image; [done | reflexivity].
Qed.

Lemma autoInFlight_single_flight s : single_flight s -> (autoInFlight s <= 1)%nat.
Proof.
  unfold autoInFlight. intros [_ [[_ ->] | [_ (p & -> & Hp)]]]; simpl; [lia |].
  rewrite filter_cons. case_decide; simpl; lia.
Qed.

Lemma processFrame_single_flight cl dom s :
  single_flight s -> single_flight (processFrame cl true dom s).
Proof.
  intros Hsf.
  destruct (processFrame_cases cl true dom s)
    as [-> | (image & _ & _ & _ & Hgate & ->)]; [exact Hsf |].
  rewrite andb_true_r in Hgate.
  destruct Hsf as [Ht [[_ Hin] | [Hflag _]]]; [| congruence].
  split; [exact Ht |]. right. split; [reflexivity |].
  eexists. simpl. rewrite Hin. by split.
Qed.

Lemma rerunEffect_single_flight dom s :
  single_flight s -> single_flight (rerunEffect dom s).
Proof.
  intros Hsf. unfold rerunEffect.
  assert (Hc : single_flight (effectCleanup s)).
  { destruct (effectCleanup_fields s) as (_ & Ht & _ & _ & _ & _ & _ & Hin & Hflag & _).
    unfold single_flight. by rewrite Ht, Hin, Hflag. }
  set (c := effectCleanup s) in *. clearbody c.
  destruct (isCameraActive c && autoNarration (settings c)) eqn:Hon.
  - apply andb_true_iff in Hon as [Hact Haut].
    rewrite (effectBody_enabled dom c Hact Haut).
    exact (processFrame_single_flight (render_closure c) dom c Hc).
  - unfold effectBody. rewrite Hon. by destruct (autoIntervalRef c).
Qed.

Lemma step_single_flight dom e s :
  auto_only e = true -> single_flight s -> single_flight (step dom e s).
Proof.
  intros Hauto Hsf. destruct e; try discriminate; simpl.
  - by apply rerunEffect_single_flight.
  - destruct (isCameraActive s); [| done]. by apply rerunEffect_single_flight.
  - by apply rerunEffect_single_flight.
  - by apply rerunEffect_single_flight.
  - by apply rerunEffect_single_flight.
  - done.
  - destruct (intervals s !! h); [| done]. by apply processFrame_single_flight.
  - destruct (inflight s !! i) as [p|] eqn:Hi; [| done].
    destruct Hsf as [Ht [[_ Hin] | [_ (p0 & Hin & _)]]]; rewrite Hin in Hi.
    + done.
    + destruct i; [| done]. split.
      * unfold processFrame_resume. by case_match.
      * left. unfold processFrame_resume. rewrite Hin. by case_match.
  - done.
Qed.

(** With auto triggers alone, at most one analysis is in flight. *)
Lemma auto_only_single_flight (vs : list SpeechSynthesisVoice)
    (trace : list (CameraView.Dom * event)) :
  Forall (fun de => auto_only de.2 = true) trace ->
  (autoInFlight (run trace (init vs)) <= 1)%nat.
Proof.
  intros Hall. apply autoInFlight_single_flight.
  assert (Hinit : single_flight (init vs)) by (split; [done | by left]).
  revert Hinit. generalize (init vs). unfold run.
  induction Hall as [| [dom e] trace He _ IH]; intros s Hs; [exact Hs |].
  simpl. apply IH. by apply step_single_flight.
Qed.

(** C1 on the session [slow_narration_session]: the analysis that the timeout
    started comes back while the first auto analysis is still out, its
    [finally] block clears the flag, and the auto trigger that follows is let
    through: two auto-triggered analyses are in flight. *)
Theorem two_auto_analyses_in_flight :
  let before := run (take 6 slow_narration_session) (init []) in
  let after := run slow_narration_session (init []) in
  map triggeredByAuto (inflight before) = [true] /\
  processingRef before = false /\
  isCameraActive after = true /\
  autoNarration (settings after) = true /\
  map triggeredByAuto (inflight after) = [true; true] /\
  autoInFlight after = 2%nat.
Proof. by vm_compute. Qed.

(** *** The caller of analyzeImage *)

(** The [catch] block of processFrame is never entered: when an analysis
    settles, whether the service answered or failed, no error message is set,
    one entry is logged and both flags are cleared. *)
Lemma analysis_failure_is_narrated dom s (i : nat) outcome (now : Z) (p : pending) :
  inflight s !! i = Some p ->
  let s' := step dom (AnalysisSettles i outcome now) s in
  errorMsg s' = errorMsg s /\ processingRef s' = false /\ isProcessing s' = false /\
  exists entry, transcripts s' = keepLast10 entry (transcripts s) /\
    (forall err, outcome = Rejected err ->
       text entry = "Connection error. Please try again." /\ priority entry = normal).
Proof.
  intros Hp. simpl. rewrite Hp.
  destruct outcome as [resp | err0].
  - rewrite (analyzeImage_resolved (fun _ => Resolved resp) _ _ _ resp eq_refl).
    simpl. repeat split. eexists. split; [reflexivity | discriminate].
  - rewrite (analyzeImage_rejected (fun _ => Rejected err0) _ _ _ err0 eq_refl).
    simpl. repeat split. eexists. split; [reflexivity | done].
Qed.

Lemma reachable_transcripts (vs : list SpeechSynthesisVoice) s :
  reachable vs s -> (List.length (transcripts s) <= 10)%nat.
Proof.
  induction 1 as [| s dom e _ IH]; [simpl; lia |].
  assert (Hpf : forall cl (auto : bool) dom' s0,
            (List.length (transcripts s0) <= 10)%nat ->
            (List.length (transcripts (processFrame cl auto dom' s0)) <= 10)%nat).
  { intros cl auto dom' s0. by destruct (processFrame_quiet cl auto dom' s0) as (_ & -> & _). }
  assert (Hre : forall s0,
            (List.length (transcripts s0) <= 10)%nat ->
            (List.length (transcripts (rerunEffect dom s0)) <= 10)%nat).
  { intros s0. by destruct (rerunEffect_quiet dom s0) as (_ & _ & -> & _). }
  assert (Hm : forall m, transcripts (handleModeSelect m s) = transcripts s).
  { intros m. unfold handleModeSelect.
    by destruct (negb (autoNarration (settings s)) && isCameraActive s). }
  destruct e; simpl.
  - by apply Hre.
  - destruct (isCameraActive s); [by apply Hre | done].
  - by apply Hre.
  - by apply Hre.
  - by apply Hre.
  - destruct (isProcessing s && bool_decide (currentMode s = m)); [done |].
    case_bool_decide; [| apply Hre]; by rewrite Hm.
  - destruct (isCameraActive s && negb (autoNarration (settings s)) && negb (isProcessing s));
      [by apply Hpf | done].
  - done.
  - destruct (intervals s !! h); [by apply Hpf | done].
  - destruct (timeouts s !! h); [by apply Hpf | done].
  - destruct (inflight s !! i); [| done].
    unfold processFrame_resume. case_match; simpl; [| done].
    unfold keepLast10. rewrite length_take. lia.
  - done.
Qed.

End Component.

(** ** The theorems at work *)

(** The camera has just been started; auto-narration is then enabled. *)
Lemma one_recurring_schedule_witness :
  let s := App.step camera_warming_up App.ToggleCamera (App.init []) in
  (size (App.intervals s) <= 1)%nat /\
  App.intervals (App.step camera_ready App.ToggleAutoNarration s)
    = {[ 1%positive :=
           App.mkTimer 4000 (App.render_closure (App.setSettings App.toggleAutoNarration s)) ]} /\
  (forall h, is_Some (App.intervals s !! h) ->
             App.intervals (App.step camera_ready App.ToggleCamera s) !! h = None).
Proof.
  intros s.
  destruct (one_recurring_schedule [] s camera_ready
              (App.reachable_step [] _ camera_warming_up App.ToggleCamera
                 (App.reachable_init []))) as (Hsize & _ & Hon & Hre).
  split; [exact Hsize |].
  split; [exact (proj2 (Hon eq_refl eq_refl)) |].
  exact (proj2 (Hre App.ToggleCamera (or_intror (or_introl eq_refl)))).
Defined.

(** The camera is on and auto-narration off: Navigation is selected. *)
Lemma mode_switch_trigger_witness :
  let s := App.step camera_warming_up App.ToggleCamera (App.init []) in
  App.timeouts s !! 1%positive = None /\
  App.timeouts (App.step camera_ready (App.SelectMode NAVIGATION) s)
    = <[1%positive := App.mkTimer 500 (App.render_closure s)]> (App.timeouts s) /\
  App.timeouts (App.step camera_ready (App.SelectMode TEXT) (App.init []))
    = App.timeouts (App.init []).
Proof.
  intros s.
  destruct (mode_switch_trigger [] s camera_ready NAVIGATION
              (App.reachable_step [] _ camera_warming_up App.ToggleCamera
                 (App.reachable_init [])) eq_refl) as [Hon _].
  destruct (Hon eq_refl eq_refl) as (Hfree & Hadd & _).
  destruct (mode_switch_trigger [] (App.init []) camera_ready TEXT
              (App.reachable_init []) eq_refl) as [_ Hoff].
  split; [exact Hfree |]. split; [exact Hadd |].
  exact (Hoff (or_introl eq_refl)).
Defined.

(** The camera has just been started and has no frame yet when the interval
    fires. *)
Lemma no_frame_is_skipped_witness :
  let s := App.step camera_warming_up App.ToggleCamera (App.init []) in
  CameraView.captureFrame true camera_warming_up = None /\
  App.processFrame (App.render_closure s) true camera_warming_up s = s.
Proof.
  intros s.
  destruct (no_frame_is_skipped camera_warming_up (App.render_closure s) true s)
    as (_ & Hwarming & Hskip).
  split.
  - apply Hwarming. discriminate.
  - apply Hskip. left. reflexivity.
Defined.

(** * Further properties *)

(** ** Voices and utterances *)

Section Voices.

Implicit Types (this : TTS.TTSService Speaker) (st : AppSettings) (p : Priority)
  (v w : SpeechSynthesisVoice) (vs : list SpeechSynthesisVoice).

Lemma find_first {A : Type} (f : A -> bool) (l : list A) (x : A) :
  List.find f l = Some x ->
  exists before after, l = (before ++ x :: after)%list /\ f x = true /\
                       Forall (fun y => f y = false) before.
Proof.
  induction l as [|y l IH]; simpl; [discriminate |].
  destruct (f y) eqn:Hy.
  - intros [= ->]. by exists [], l.
  - intros Hfind. destruct (IH Hfind) as (before & after & -> & Hx & Hbefore).
    exists (y :: before), after. by repeat split; [| constructor].
Qed.

Lemma find_nothing {A : Type} (f : A -> bool) (l : list A) :
  List.find f l = None -> Forall (fun y => f y = false) l.
Proof.
  induction l as [|y l IH]; simpl; [by constructor |].
  destruct (f y) eqn:Hy; [discriminate |]. intros Hfind. constructor; auto.
Qed.

(** X1. The voice speak chooses: when the device has an English voice that
    is local, the first such voice in the device's list; when it has English
    voices but none is local, the first English voice; when it has no English
    voice, none (the utterance keeps the default voice of the engine). *)
Theorem preferredVoice_choice vs :
  match TTS.preferredVoice vs with
  | Some v =>
      exists before after,
        vs = (before ++ v :: after)%list /\
        Str.startsWith "en" (lang v) = true /\
        (if localService v
         then Forall (fun w => Str.startsWith "en" (lang w) && localService w = false) before
         else Forall (fun w => Str.startsWith "en" (lang w) && localService w = false) vs /\
              Forall (fun w => Str.startsWith "en" (lang w) = false) before)
  | None => Forall (fun w => Str.startsWith "en" (lang w) = false) vs
  end.
Proof.
  unfold TTS.preferredVoice.
  destruct (List.find (fun v => Str.startsWith "en" (lang v) && localService v) vs)
    as [v|] eqn:Hlocal.
  - apply find_first in Hlocal as (before & after & -> & Hv & Hbefore).
    apply andb_true_iff in Hv as [Hen Hloc]. exists before, after.
    rewrite Hloc. by repeat split.
  - apply find_nothing in Hlocal.
    destruct (List.find (fun v => Str.startsWith "en" (lang v)) vs) as [v|] eqn:Hen.
    + apply find_first in Hen as (before & after & -> & Hv & Hbefore).
      exists before, after. split; [reflexivity |]. split; [exact Hv |].
      destruct (localService v) eqn:Hloc; [| by split].
      apply Forall_app in Hlocal as [_ Hlocal]. apply Forall_cons in Hlocal as [Hlocal _].
      cbv beta in Hlocal. rewrite Hv, Hloc in Hlocal. discriminate.
    + by apply find_nothing in Hen.
Qed.

(** X2. What speak hands to the device for a text that is not empty: one
    utterance, last in the queue and kept as the current utterance, with the
    text, the speech rate of the settings, volume 1, pitch 1.1 for urgent and
    1.0 for normal, and the preferred voice of the device; the voices of the
    device are as before. *)
Theorem speak_configures_utterance (txt : string) p st this :
  txt <> "" ->
  exists u,
    last (queue (TTS.synthesis (TTS.speak txt p st this))) = Some u /\
    TTS.currentUtterance (TTS.speak txt p st this) = Some u /\
    uttText u = txt /\
    rate u = speechRate st /\
    volume u = (1 # 1)%Q /\
    pitch u = (match p with urgent => (11 # 10)%Q | normal => (1 # 1)%Q end) /\
    voice u = TTS.preferredVoice (voices (TTS.synthesis this)) /\
    voices (TTS.synthesis (TTS.speak txt p st this)) = voices (TTS.synthesis this).
Proof.
  intros Htxt. exists (TTS.newUtterance txt p st (TTS.synthesis this)).
  destruct (newUtterance_fields txt p st (TTS.synthesis this)) as (Ht & Hr & Hp & Hv & Hvoice).
  assert (Hspeak : TTS.speak txt p st this
            = {| TTS.synthesis :=
                   synth_speak (TTS.newUtterance txt p st (TTS.synthesis this))
                     (TTS.interrupt p st (TTS.synthesis this));
                 TTS.currentUtterance :=
                   Some (TTS.newUtterance txt p st (TTS.synthesis this)) |}).
  { unfold TTS.speak. destruct (Str.truthy txt) eqn:Htruthy; [| by apply truthy_false in Htruthy].
    simpl. by rewrite newUtterance_interrupt. }
  rewrite Hspeak. simpl.
  split; [apply last_snoc |]. split; [reflexivity |].
  split; [exact Ht |]. split; [exact Hr |]. split; [exact Hv |].
  split; [rewrite Hp; by destruct p |]. split; [exact Hvoice |].
  unfold TTS.interrupt. destruct (decide (p = urgent)); [reflexivity |].
  by destruct (synth_speaking (TTS.synthesis this) && autoNarration st).
Qed.


End Voices.

(** A device with a remote and a local English voice after a French one. *)
Lemma speak_configures_utterance_witness :
  let device := mkSpeaker [mkVoice "fr-FR" true; mkVoice "en-GB" false; mkVoice "en-US" true] [] in
  let this := {| TTS.synthesis := device; TTS.currentUtterance := None |} in
  let st := {| verbosity := MINIMAL; speechRate := (3 # 2)%Q;
               autoNarration := false; autoInterval := 2000 |} in
  exists u,
    last (queue (TTS.synthesis (TTS.speak "Door on your right" normal st this))) = Some u /\
    uttText u = "Door on your right" /\ rate u = (3 # 2)%Q /\ pitch u = (1 # 1)%Q /\
    voice u = Some (mkVoice "en-US" true).
Proof.
  intros device this st.
  destruct (speak_configures_utterance "Door on your right" normal st this)
    as (u & Hlast & _ & Htext & Hrate & _ & Hpitch & Hvoice & _); [discriminate |].
  exists u. by repeat split.
Defined.


(** ** Prompts and frames *)

Section PromptsAndFrames.

Lemma prompt_determines_settings (m m' : AppMode) (v v' : Verbosity) :
  Gemini.getPromptForMode m v = Gemini.getPromptForMode m' v' -> m = m' /\ v = v'.
Proof.
  destruct m, m'; try (intros H; vm_compute in H; discriminate H);
    destruct v, v'; try (intros H; vm_compute in H; discriminate H);
    by intros _.
Qed.

(** X4. Two settings give the same instruction only if they are the same
    settings: each of the fifteen pairs of a mode and a verbosity has an
    instruction of its own. *)
Theorem getPromptForMode_injective (m m' : AppMode) (v v' : Verbosity) :
  Gemini.getPromptForMode m v = Gemini.getPromptForMode m' v' -> m = m' /\ v = v'.
Proof. apply prompt_determines_settings. Qed.

Lemma includes_char (c d : ascii) (s : string) :
  Str.includes (String c "") (String d s) = Ascii.eqb c d || Str.includes (String c "") s.
Proof. simpl. by destruct (Ascii.eqb c d). Qed.

Lemma split_go_plain (c : ascii) (cur s : string) :
  Str.includes (String c "") s = false -> Str.split_go c cur s = [cur +:+ s].
Proof.
  revert cur. induction s as [|d s IH]; intros cur Hfree; simpl.
  - by rewrite append_nil_r.
  - rewrite includes_char in Hfree. apply orb_false_iff in Hfree as [Hd Hs].
    rewrite Ascii.eqb_sym, Hd, (IH _ Hs), append_assoc. reflexivity.
Qed.

Lemma split_go_at_separator (c : ascii) (cur a b : string) :
  Str.includes (String c "") a = false ->
  Str.split_go c cur (a +:+ String c b) = (cur +:+ a) :: Str.split_go c "" b.
Proof.
  revert cur. induction a as [|d a IH]; intros cur Hfree.
  - rewrite append_nil_l, append_nil_r. simpl. by rewrite Ascii.eqb_refl.
  - rewrite includes_char in Hfree. apply orb_false_iff in Hfree as [Hd Ha].
    rewrite append_cons. simpl. rewrite Ascii.eqb_sym, Hd, (IH _ Ha), append_assoc.
    reflexivity.
Qed.

(** X5. captureFrame returns the payload of the data URL without its header:
    when the component is active, permission has not been refused, the video
    has a decoded frame and the canvas gives a context, and the data URL of
    the canvas (half the width and half the height of the video frame) is a
    header, a comma and a payload, neither holding a comma, the result is the
    payload. *)
Theorem captureFrame_payload (dom : CameraView.Dom) (header payload : string) :
  CameraView.hasPermission dom <> Some false ->
  CameraView.readyState (CameraView.video dom) = 4%Z ->
  CameraView.context2d dom = true ->
  CameraView.toDataURL dom
    (CameraView.videoWidth (CameraView.video dom) / 2)%Z
    (CameraView.videoHeight (CameraView.video dom) / 2)%Z = header +:+ "," +:+ payload ->
  Str.includes "," header = false ->
  Str.includes "," payload = false ->
  CameraView.captureFrame true dom = Some payload.
Proof.
  intros Hperm Hready Hctx Hurl Hheader Hpayload.
  unfold CameraView.captureFrame, CameraView.videoRef_current. simpl.
  assert (Hvideo : match CameraView.hasPermission dom with
                   | Some false => None
                   | _ => Some (CameraView.video dom)
                   end = Some (CameraView.video dom)).
  { by destruct (CameraView.hasPermission dom) as [[|]|]. }
  rewrite Hvideo, Hready, Hctx, Hurl. simpl.
  unfold Str.split.
  change ("," +:+ payload) with (String "," payload).
  rewrite (split_go_at_separator _ _ _ _ Hheader), (split_go_plain _ _ _ Hpayload).
  reflexivity.
Qed.

End PromptsAndFrames.

Lemma getPromptForMode_injective_witness : SOCIAL = SOCIAL /\ DETAILED = DETAILED.
Proof. apply (getPromptForMode_injective SOCIAL SOCIAL DETAILED DETAILED). reflexivity. Defined.

Lemma captureFrame_payload_witness :
  CameraView.captureFrame true camera_ready = Some "/9j/4AAQSkZJRg==".
Proof.
  apply (captureFrame_payload camera_ready "data:image/jpeg;base64" "/9j/4AAQSkZJRg==");
    [discriminate | reflexivity | reflexivity | reflexivity | reflexivity | reflexivity].
Defined.

(** ** The component: flags, analyses and the camera *)

Section Flight.

Import App.

Implicit Types (s : state) (dom : CameraView.Dom) (cl : closure) (e : event).

Lemma processFrame_camera_off cl (auto : bool) dom s :
  isCameraActive s = false -> processFrame cl auto dom s = s.
Proof.
  intros Hoff. unfold processFrame, cameraRef_captureFrame. rewrite Hoff. simpl.
  by destruct (negb (cl_isCameraActive cl) || processingRef s && auto).
Qed.

(** What a run of the effect does to the flags and the analyses in flight:
    nothing, or it starts one analysis for an auto trigger. *)
Lemma rerunEffect_flight dom s :
  isCameraActive (rerunEffect dom s) = isCameraActive s /\
  currentMode (rerunEffect dom s) = currentMode s /\
  settings (rerunEffect dom s) = settings s /\
  ((isProcessing (rerunEffect dom s) = isProcessing s /\
    processingRef (rerunEffect dom s) = processingRef s /\
    inflight (rerunEffect dom s) = inflight s) \/
   (isCameraActive s = true /\ processingRef s = false /\
    isProcessing (rerunEffect dom s) = true /\
    processingRef (rerunEffect dom s) = true /\
    exists image cl,
      inflight (rerunEffect dom s) = (inflight s ++ [mkPending true image cl])%list)).
Proof.
  unfold rerunEffect.
  destruct (effectCleanup_fields s)
    as (_ & _ & _ & Ha & Hm & Hs & _ & Hin & Hflag & _ & _ & Hproc).
  rewrite <- Ha, <- Hm, <- Hs, <- Hin, <- Hflag, <- Hproc.
  set (c := effectCleanup s). clearbody c.
  destruct (isCameraActive c && autoNarration (settings c)) eqn:Hon.
  - apply andb_true_iff in Hon as [Hact Haut].
    rewrite (effectBody_enabled dom c Hact Haut). simpl.
    destruct (processFrame_same_schedule (render_closure c) true dom c)
      as (_ & _ & _ & _ & Ha' & Hm' & Hs').
    split; [exact Ha' |]. split; [exact Hm' |]. split; [exact Hs' |].
    destruct (processFrame_cases (render_closure c) true dom c)
      as [-> | (image & _ & _ & _ & Hgate & ->)]; [by left |].
    right. rewrite andb_true_r in Hgate. simpl. repeat split; try done. by eexists _, _.
  - unfold effectBody. rewrite Hon.
    destruct (autoIntervalRef c); repeat split; by left.
Qed.

Lemma handleModeSelect_flight (m : AppMode) s :
  isProcessing (handleModeSelect m s) = isProcessing s /\
  processingRef (handleModeSelect m s) = processingRef s /\
  inflight (handleModeSelect m s) = inflight s.
Proof.
  unfold handleModeSelect.
  by destruct (negb (autoNarration (settings s)) && isCameraActive s).
Qed.

Lemma flags_agree_same s s' :
  isProcessing s' = isProcessing s -> processingRef s' = processingRef s ->
  inflight s' = inflight s -> flags_agree s -> flags_agree s'.
Proof. intros Hp Hr Hi. unfold flags_agree. by rewrite Hp, Hr, Hi. Qed.

Lemma flags_agree_started s s' (p : pending) :
  isProcessing s' = true -> processingRef s' = true ->
  inflight s' = (inflight s ++ [p])%list -> flags_agree s'.
Proof.
  intros Hp Hr Hi. unfold flags_agree. rewrite Hp, Hr, Hi. split; [done |].
  intros _. by destruct (inflight s).
Qed.

Lemma processFrame_flags cl (auto : bool) dom s :
  flags_agree s -> flags_agree (processFrame cl auto dom s).
Proof.
  intros Hs.
  destruct (processFrame_cases cl auto dom s) as [-> | (image & _ & _ & _ & _ & ->)];
    [exact Hs |].
  by eapply (flags_agree_started s).
Qed.

Lemma rerunEffect_flags dom s s' :
  isProcessing s' = isProcessing s -> processingRef s' = processingRef s ->
  inflight s' = inflight s -> flags_agree s -> flags_agree (rerunEffect dom s').
Proof.
  intros Hp Hr Hi Hs.
  destruct (rerunEffect_flight dom s')
    as (_ & _ & _ & [(Hp' & Hr' & Hi') | (_ & _ & Hp' & Hr' & image & cl & Hi')]).
  - apply (flags_agree_same s); congruence.
  - by eapply (flags_agree_started s').
Qed.

Lemma step_flags dom e s : flags_agree s -> flags_agree (step dom e s).
Proof.
  intros Hs. destruct e; simpl.
  - by apply (rerunEffect_flags dom s).
  - destruct (isCameraActive s); [| done]. by apply (rerunEffect_flags dom s).
  - by apply (rerunEffect_flags dom s).
  - by apply (rerunEffect_flags dom s).
  - by apply (rerunEffect_flags dom s).
  - destruct (handleModeSelect_flight m s) as (Hp & Hr & Hi).
    destruct (isProcessing s && bool_decide (currentMode s = m)); [done |].
    case_bool_decide.
    + by apply (flags_agree_same s).
    + by apply (rerunEffect_flags dom s).
  - destruct (isCameraActive s && negb (autoNarration (settings s)) && negb (isProcessing s));
      [| done].
    by apply processFrame_flags.
  - done.
  - destruct (intervals s !! h); [| done]. by apply processFrame_flags.
  - destruct (timeouts s !! h); [| done]. by apply processFrame_flags.
  - destruct (inflight s !! i); [| done].
    unfold processFrame_resume. by case_match.
  - done.
Qed.

(** X6. In every reachable state of the component the transcript holds at
    most 10 entries, the state flag [isProcessing] equals the ref
    [processingRef], and while the flag is set at least one analysis is in
    flight. *)
Theorem reachable_flags_and_log (vs : list SpeechSynthesisVoice) s :
  reachable vs s ->
  (List.length (transcripts s) <= 10)%nat /\
  isProcessing s = processingRef s /\
  (processingRef s = true -> inflight s <> []).
Proof.
  intros Hreach. split; [by apply (reachable_transcripts vs) |].
  induction Hreach as [| s dom e _ IH]; [done |]. by apply step_flags.
Qed.

Lemma run_single_flight (trace : list (CameraView.Dom * event)) s :
  Forall (fun de => auto_only de.2 = true) trace ->
  single_flight s -> single_flight (run trace s).
Proof.
  intros Hall. revert s. unfold run.
  induction Hall as [| [dom e] trace He _ IH]; intros s Hs; [exact Hs |].
  simpl. apply IH. by apply step_single_flight.
Qed.

(** X7. In a session without the manual button, the mode buttons and their
    timeouts, the flag does its work: after every event either the flag is
    clear and no analysis is in flight, or the flag is set and exactly one
    analysis, from an auto trigger, is in flight. *)
Theorem auto_triggers_alone_are_single_flight (vs : list SpeechSynthesisVoice)
    (trace : list (CameraView.Dom * event)) :
  Forall (fun de => auto_only de.2 = true) trace ->
  let s := run trace (init vs) in
  (processingRef s = false /\ inflight s = []) \/
  (processingRef s = true /\ exists p, inflight s = [p] /\ triggeredByAuto p = true).
Proof.
  intros Hall.
  assert (Hinit : single_flight (init vs)) by (split; [done | by left]).
  exact (proj2 (run_single_flight trace (init vs) Hall Hinit)).
Qed.

End Flight.

Section Analyses.

Import App.

Implicit Types (s : state) (dom : CameraView.Dom) (cl : closure) (e : event).

Lemma or_else_nonempty (o : option string) (d : string) : d <> "" -> Str.or_else o d <> "".
Proof.
  intros Hd. unfold Str.or_else. destruct o as [[|c t]|]; simpl; done.
Qed.

(** The text analyzeImage resolves with is never empty. *)
Lemma analyzeImage_text generateContent (img : string) (m : AppMode) (v : Verbosity) :
  exists result,
    Gemini.analyzeImage generateContent img m v = Resolved result /\
    Gemini.outText result <> "".
Proof.
  destruct (generateContent (Gemini.request img (Gemini.getPromptForMode m v)))
    as [resp | err] eqn:Hsvc.
  - eexists. split; [by apply analyzeImage_resolved |]. simpl. by apply or_else_nonempty.
  - eexists. split; [by eapply analyzeImage_rejected | done].
Qed.

Lemma speak_spoken (txt : string) (p : Priority) (st : AppSettings)
    (this : TTS.TTSService Speaker) :
  txt <> "" ->
  TTS.speak txt p st this
    = {| TTS.synthesis :=
           synth_speak (TTS.newUtterance txt p st (TTS.synthesis this))
             (TTS.interrupt p st (TTS.synthesis this));
         TTS.currentUtterance := Some (TTS.newUtterance txt p st (TTS.synthesis this)) |}.
Proof.
  intros Htxt. unfold TTS.speak.
  destruct (Str.truthy txt) eqn:Htruthy; [| by apply truthy_false in Htruthy].
  simpl. by rewrite newUtterance_interrupt.
Qed.

(** X8. When an analysis in flight settles, whether the service answered or
    failed: it leaves the list of analyses in flight, both flags are cleared
    (also when other analyses are still in flight), no error message is set,
    one entry with a text that is not empty and the given time is put at the
    front of the transcript, and one utterance with that text is put at the
    end of the queue of the device, alone in the queue when the entry is
    urgent. *)
Theorem analysis_settles dom s (i : nat) outcome (now : Z) (p : pending) :
  inflight s !! i = Some p ->
  let s' := step dom (AnalysisSettles i outcome now) s in
  inflight s' = delete i (inflight s) /\
  processingRef s' = false /\ isProcessing s' = false /\
  errorMsg s' = errorMsg s /\
  exists entry u,
    transcripts s' = entry :: take 9 (transcripts s) /\
    text entry <> "" /\ timestamp entry = now /\
    last (queue (TTS.synthesis (ttsService s'))) = Some u /\
    uttText u = text entry /\
    (priority entry = urgent -> queue (TTS.synthesis (ttsService s')) = [u]).
Proof.
  intros Hp. simpl. rewrite Hp.
  destruct (analyzeImage_text (fun _ => outcome) (base64Image p)
              (cl_currentMode (captured p)) (verbosity (cl_settings (captured p))))
    as (result & -> & Htext).
  simpl. repeat split.
  exists (newEntry result now),
    (TTS.newUtterance (Gemini.outText result) (priority (newEntry result now))
       (cl_settings (captured p)) (TTS.synthesis (ttsService s))).
  rewrite (speak_spoken _ _ _ _ Htext). simpl.
  split; [reflexivity |]. split; [exact Htext |]. split; [reflexivity |].
  split; [apply last_snoc |].
  split; [apply newUtterance_fields |].
  destruct (Gemini.isUrgent result); [| discriminate]. intros _. reflexivity.
Qed.

(** X9. The analysis that follows a mode switch is made for the mode that was
    selected before the switch: the timeout set by handleModeSelect calls the
    processFrame of the render in which the button was clicked.  When the
    timeout fires while the camera has a frame, the call in flight it adds
    carries the old mode, whose instruction differs from every instruction
    for the new mode. *)
Theorem mode_switch_analyses_previous_mode dom dom' s (m : AppMode) (image : string) :
  isCameraActive s = true -> autoNarration (settings s) = false ->
  isProcessing s && bool_decide (currentMode s = m) = false ->
  CameraView.captureFrame true dom' = Some image -> image <> "" ->
  let s1 := step dom (SelectMode m) s in
  let s2 := step dom' (TimeoutFires (nextTimer s)) s1 in
  currentMode s1 = m /\ currentMode s2 = m /\
  inflight s2 = (inflight s ++ [mkPending false image (render_closure s)])%list /\
  cl_currentMode (render_closure s) = currentMode s /\
  (currentMode s <> m ->
   forall v, Gemini.getPromptForMode (currentMode s) (verbosity (settings s))
             <> Gemini.getPromptForMode m v).
Proof.
  intros Hact Hoff Henabled Hframe Himage s1 s2.
  destruct (handleModeSelect_fields m s) as (_ & _ & Ha & Hs & Hm & Hin & _ & Ht & _).
  rewrite Hoff, Hact in Ht. simpl in Ht.
  assert (H1 : isCameraActive s1 = true /\ currentMode s1 = m /\ inflight s1 = inflight s /\
               timeouts s1 !! nextTimer s = Some (mkTimer 500 (render_closure s))).
  { subst s1. simpl. rewrite Henabled. case_bool_decide.
    - rewrite Ha, Hm, Hin, Ht. by rewrite lookup_insert_eq.
    - destruct (rerunEffect_flight dom (handleModeSelect m s))
        as (-> & -> & Hs' & [(_ & _ & ->) | (_ & _ & _ & _ & image' & cl & Hstart)]).
      + destruct (rerunEffect_quiet dom (handleModeSelect m s)) as (-> & _).
        rewrite Ha, Hm, Hin, Ht. by rewrite lookup_insert_eq.
      + exfalso. revert Hstart. unfold rerunEffect, effectBody.
        destruct (effectCleanup_fields (handleModeSelect m s))
          as (_ & _ & _ & Ha' & _ & Hs'' & _ & Hin' & _).
        rewrite Ha', Hs'', Ha, Hs, Hoff, andb_false_r.
        destruct (autoIntervalRef (effectCleanup (handleModeSelect m s))); simpl;
          rewrite Hin'; intros Hstart; apply (f_equal List.length) in Hstart;
          rewrite length_app in Hstart; simpl in Hstart; lia. }
  destruct H1 as (Hact1 & Hm1 & Hin1 & Hpending).
  assert (H2 : s2 = processFrame (render_closure s) false dom'
                      (set_timeouts (delete (nextTimer s) (timeouts s1)) s1)).
  { subst s2. simpl. by rewrite Hpending. }
  rewrite H2.
  rewrite (manual_trigger_proceeds _ _ _ image); [| exact Hact | | exact Himage].
  - simpl. rewrite Hm1, Hin1. repeat split; try done.
    intros Hne v Heq. by apply prompt_determines_settings in Heq as [? _].
  - unfold cameraRef_captureFrame. simpl. by rewrite Hact1.
Qed.

Lemma rerunEffect_camera_off dom s :
  isCameraActive s = false ->
  isCameraActive (rerunEffect dom s) = false /\ inflight (rerunEffect dom s) = inflight s.
Proof.
  intros Hoff.
  destruct (rerunEffect_flight dom s) as (Ha & _ & _ & [(_ & _ & Hin) | (Hact & _)]).
  - by rewrite Ha.
  - congruence.
Qed.

Lemma step_camera_off dom e s :
  e <> ToggleCamera -> isCameraActive s = false ->
  isCameraActive (step dom e s) = false /\
  (List.length (inflight (step dom e s)) <= List.length (inflight s))%nat.
Proof.
  intros He Hoff.
  assert (Hre : forall s0, isCameraActive s0 = false -> inflight s0 = inflight s ->
            isCameraActive (rerunEffect dom s0) = false /\
            (List.length (inflight (rerunEffect dom s0)) <= List.length (inflight s))%nat).
  { intros s0 Hoff0 Hin0. destruct (rerunEffect_camera_off dom s0 Hoff0) as [-> ->].
    by rewrite Hin0. }
  destruct e; simpl; try done.
  - by rewrite Hoff.
  - by apply Hre.
  - by apply Hre.
  - by apply Hre.
  - destruct (handleModeSelect_fields m s) as (_ & _ & Ha & _ & _ & Hin & _).
    destruct (isProcessing s && bool_decide (currentMode s = m)); [done |].
    case_bool_decide.
    + by rewrite Ha, Hin.
    + apply Hre; congruence.
  - by rewrite Hoff.
  - destruct (intervals s !! h); [| done]. by rewrite processFrame_camera_off.
  - destruct (timeouts s !! h); [| done]. by rewrite processFrame_camera_off.
  - destruct (inflight s !! i) as [p|] eqn:Hi; [| done].
    unfold processFrame_resume. case_match; simpl; (split; [done |]);
      rewrite length_delete by (by eexists); lia.
Qed.

(** X10. While the camera is off no analysis starts: processFrame does
    nothing, whoever calls it (an interval or a timeout left over from the
    time the camera was on), and over any session without a click on the
    camera button the camera stays off and the number of analyses in flight
    does not grow. *)
Theorem no_analysis_while_camera_off (trace : list (CameraView.Dom * event)) s :
  isCameraActive s = false ->
  Forall (fun de => de.2 <> ToggleCamera) trace ->
  (forall cl (auto : bool) dom, processFrame cl auto dom s = s) /\
  isCameraActive (run trace s) = false /\
  (List.length (inflight (run trace s)) <= List.length (inflight s))%nat.
Proof.
  intros Hoff Hall. split; [intros; by apply processFrame_camera_off |].
  revert s Hoff. unfold run.
  induction Hall as [| [dom e] trace He _ IH]; intros s Hoff; [by split |].
  simpl. destruct (step_camera_off dom e s He Hoff) as [Hoff' Hlen].
  destruct (IH _ Hoff') as [Hfinal Hlen']. split; [exact Hfinal | lia].
Qed.

End Analyses.

(** ** The mode buttons and the live output *)

Section Rendering.

Lemma selectMode_result dom (s : App.state) (m : AppMode) :
  if App.isProcessing s && bool_decide (App.currentMode s = m)
  then App.step dom (App.SelectMode m) s = s
  else App.currentMode (App.step dom (App.SelectMode m) s) = m.
Proof.
  simpl. destruct (App.isProcessing s && bool_decide (App.currentMode s = m)); [reflexivity |].
  destruct (handleModeSelect_fields m s) as (_ & _ & _ & _ & Hm & _).
  case_bool_decide; [exact Hm |].
  by destruct (rerunEffect_flight dom (App.handleModeSelect m s)) as (_ & -> & _).
Qed.

Lemma render_counts (currentMode : AppMode) (isProcessing : bool) :
  let bs := ControlPanel.render currentMode isProcessing in
  List.length (filter (fun b => ControlPanel.ariaPressed b = true) bs) = 1%nat /\
  List.length (filter (fun b => ControlPanel.disabled b = true) bs)
    = (if isProcessing then 1%nat else 0%nat).
Proof. by destruct currentMode, isProcessing. Qed.

(** X11. The mode buttons, for any current mode and processing flag: there
    is one button for each of the five modes, in the order General,
    Navigation, Text, Social, Shopping; exactly one is marked pressed, the
    one of the current mode; a button is disabled only if it is the one of the
    current mode and an analysis is being processed, so every other mode can
    be selected at any time; and a click does nothing on a disabled button and
    makes the button's mode the current mode otherwise. *)
Theorem mode_buttons dom (s : App.state) :
  let bs := ControlPanel.render (App.currentMode s) (App.isProcessing s) in
  map ControlPanel.onClick bs = [GENERAL; NAVIGATION; TEXT; SOCIAL; SHOPPING] /\
  Forall (fun b =>
            ControlPanel.ariaPressed b = bool_decide (App.currentMode s = ControlPanel.onClick b) /\
            ControlPanel.disabled b
              = App.isProcessing s && bool_decide (App.currentMode s = ControlPanel.onClick b)) bs /\
  List.length (filter (fun b => ControlPanel.ariaPressed b = true) bs) = 1%nat /\
  (List.length (filter (fun b => ControlPanel.disabled b = true) bs) <= 1)%nat /\
  Forall (fun b =>
            if ControlPanel.disabled b
            then App.step dom (App.SelectMode (ControlPanel.onClick b)) s = s
            else App.currentMode (App.step dom (App.SelectMode (ControlPanel.onClick b)) s)
                 = ControlPanel.onClick b) bs.
Proof.
  intros bs. split; [reflexivity |].
  split; [subst bs; unfold ControlPanel.render; apply Forall_fmap, Forall_true; by intros btn |].
  destruct (render_counts (App.currentMode s) (App.isProcessing s)) as [Hpressed Hdisabled].
  split; [exact Hpressed |].
  split; [fold bs in Hdisabled; rewrite Hdisabled; destruct (App.isProcessing s); lia |].
  subst bs. unfold ControlPanel.render. apply Forall_fmap, Forall_true. intros btn.
  apply (selectMode_result dom s (ControlPanel.mode btn)).
Qed.

Lemma renderItem_tail (rest : list AnalysisResult) :
  imap (LiveOutput.renderItem ∘ S) rest
    = map (fun t => LiveOutput.mkItem (timestamp t) false false (text t)) rest.
Proof. rewrite <- imap_const. by apply imap_ext. Qed.

(** X12. The live output shows the placeholder exactly when the transcript
    is empty; otherwise it shows the texts of the entries in their order, and
    the Alert badge on the first entry alone, and only if that entry is
    urgent: an urgent entry loses the badge as soon as a newer entry is
    logged. *)
Theorem alert_only_on_newest (isCameraActive : bool) (ts : list AnalysisResult)
    (e : AnalysisResult) :
  match LiveOutput.render isCameraActive ts with
  | LiveOutput.Placeholder _ => ts = []
  | LiveOutput.Items items =>
      ts <> [] /\
      map LiveOutput.body items = map text ts /\
      map LiveOutput.alert items
        = match ts with
          | [] => []
          | t :: rest => bool_decide (priority t = urgent) :: replicate (List.length rest) false
          end
  end /\
  exists first rest,
    LiveOutput.render isCameraActive (App.keepLast10 e ts) = LiveOutput.Items (first :: rest) /\
    LiveOutput.body first = text e /\
    LiveOutput.alert first = bool_decide (priority e = urgent) /\
    Forall (fun item => LiveOutput.alert item = false) rest.
Proof.
  assert (Htail : forall rest : list AnalysisResult,
            map LiveOutput.body (imap (LiveOutput.renderItem ∘ S) rest) = map text rest /\
            map LiveOutput.alert (imap (LiveOutput.renderItem ∘ S) rest)
              = replicate (List.length rest) false).
  { intros rest. rewrite renderItem_tail.
    induction rest as [|t rest [IHb IHa]]; [done |]. simpl. by rewrite IHb, IHa. }
  split.
  - destruct ts as [|t rest]; [reflexivity |]. simpl.
    destruct (Htail rest) as [-> ->]. by repeat split.
  - rewrite keepLast10_front. unfold LiveOutput.render.
    change (Nat.eqb (List.length (e :: take 9 ts)) 0) with false. cbv iota.
    rewrite imap_cons, renderItem_tail. eexists _, _. split; [reflexivity |].
    split; [reflexivity |]. split; [reflexivity |].
    apply Forall_fmap, Forall_true. by intros t.
Qed.

End Rendering.

(** ** The camera stream *)

Section CameraStream.

Import CameraEffect.

Implicit Types (s : state) (e : event).

Lemma streamOf_beyond s (k : nat) :
  camera_wf s -> (current s < k)%nat -> streamOf s !! k = None.
Proof.
  intros (Hs & _) Hk. destruct (streamOf s !! k) as [st|] eqn:Hlook; [| reflexivity].
  destruct (Hs k st Hlook). lia.
Qed.

Lemma parentRenders_fields (active : bool) s :
  let s' := step (ParentRenders active) s in
  isActive s' = active /\ hasPermission s' = hasPermission s /\
  current s' = S (current s) /\ streamOf s' = streamOf s /\
  nextStream s' = nextStream s /\
  awaiting s' = (if active then awaiting s ∪ {[S (current s)]} else awaiting s) /\
  live s' = match streamOf s !! current s with
            | Some st => live s ∖ {[st]}
            | None => live s
            end.
Proof.
  simpl. unfold effect, cleanup, commit. simpl.
  destruct (streamOf s !! current s); destruct active; by repeat split.
Qed.

Lemma granted_fields (k : nat) s :
  k ∈ awaiting s ->
  let s' := step (Granted k) s in
  isActive s' = isActive s /\ current s' = current s /\
  streamOf s' = <[k := nextStream s]> (streamOf s) /\
  nextStream s' = S (nextStream s) /\
  awaiting s' = awaiting s ∖ {[k]} /\
  live s' = live s ∪ {[nextStream s]} /\
  hasPermission s'
    = (if videoMounted (isActive s) (hasPermission s) then Some true else hasPermission s).
Proof.
  intros Hk. simpl. rewrite decide_True by done.
  destruct (videoMounted (isActive s) (hasPermission s)); by repeat split.
Qed.

Lemma denied_fields (k : nat) s :
  k ∈ awaiting s ->
  let s' := step (Denied k) s in
  isActive s' = isActive s /\ current s' = current s /\ streamOf s' = streamOf s /\
  nextStream s' = nextStream s /\ awaiting s' = awaiting s ∖ {[k]} /\
  live s' = live s /\ hasPermission s' = Some false /\
  reported s' = (reported s ++ ["Camera permission denied or camera not found."])%list.
Proof. intros Hk. simpl. rewrite decide_True by done. by repeat split. Qed.

Lemma step_wf e s : camera_wf s -> camera_wf (step e s).
Proof.
  intros Hwf. pose proof Hwf as (Hs & Ha & Hl). destruct e as [active | k | k].
  - destruct (parentRenders_fields active s) as (_ & _ & Hc & Hst & Hn & Haw & Hlive).
    unfold camera_wf. rewrite Hc, Hst, Hn, Haw, Hlive. repeat split.
    + destruct (Hs k st H). lia.
    + by destruct (Hs k st H).
    + destruct active; [apply elem_of_union in H as [H | H] |].
      * destruct (Ha k H). lia.
      * apply elem_of_singleton in H as ->. lia.
      * destruct (Ha k H). lia.
    + destruct active; [apply elem_of_union in H as [H | H] |].
      * by destruct (Ha k H).
      * apply elem_of_singleton in H as ->. apply streamOf_beyond; [done | lia].
      * by destruct (Ha k H).
    + intros st Hst'. apply Hl.
      destruct (streamOf s !! current s); [apply elem_of_difference in Hst' as [Hst' _] |];
        exact Hst'.
  - destruct (decide (k ∈ awaiting s)) as [Hk | Hk];
      [| by simpl; rewrite decide_False by done].
    destruct (granted_fields k s Hk) as (_ & Hc & Hst & Hn & Haw & Hlive & _).
    unfold camera_wf. rewrite Hc, Hst, Hn, Haw, Hlive. repeat split.
    + apply lookup_insert_Some in H as [[<- _] | [_ H]]; [by destruct (Ha k Hk) |].
      by destruct (Hs _ _ H).
    + apply lookup_insert_Some in H as [[_ <-] | [_ H]]; [lia |].
      destruct (Hs _ _ H). lia.
    + apply elem_of_difference in H as [H _]. by destruct (Ha _ H).
    + apply elem_of_difference in H as [H Hne]. rewrite lookup_insert_ne by set_solver.
      by destruct (Ha _ H).
    + intros st Hst'. apply elem_of_union in Hst' as [Hst' | Hst'].
      * specialize (Hl _ Hst'). lia.
      * apply elem_of_singleton in Hst' as ->. lia.
  - destruct (decide (k ∈ awaiting s)) as [Hk | Hk];
      [| by simpl; rewrite decide_False by done].
    destruct (denied_fields k s Hk) as (_ & Hc & Hst & Hn & Haw & Hlive & _).
    unfold camera_wf. rewrite Hc, Hst, Hn, Haw, Hlive. repeat split.
    + by destruct (Hs k0 st H).
    + by destruct (Hs k0 st H).
    + apply elem_of_difference in H as [H _]. by destruct (Ha _ H).
    + apply elem_of_difference in H as [H _]. by destruct (Ha _ H).
    + exact Hl.
Qed.

Lemma init_wf : camera_wf init.
Proof. repeat split; simpl in *; set_solver. Qed.

Lemma reachable_wf s : reachable s -> camera_wf s.
Proof. induction 1; [apply init_wf | by apply step_wf]. Qed.

Lemma tidy_live s : camera_tidy s -> (size (live s) <= 1)%nat.
Proof.
  intros Htidy. destruct (set_choose_or_empty (live s)) as [[st Hst] | Hempty].
  - assert (Hone : live s = {[st]}).
    { apply set_eq. intros st'. rewrite elem_of_singleton. split.
      - intros Hst'. pose proof (Htidy _ Hst) as H1. pose proof (Htidy _ Hst') as H2. congruence.
      - by intros ->. }
    rewrite Hone, size_singleton. lia.
  - apply size_empty_iff in Hempty. lia.
Qed.

Lemma tidy_cleanup (active : bool) s :
  camera_tidy s -> live (step (ParentRenders active) s) = ∅.
Proof.
  intros Htidy. destruct (parentRenders_fields active s) as (_ & _ & _ & _ & _ & _ & ->).
  apply set_eq. intros st. split; [| set_solver].
  destruct (streamOf s !! current s) as [st0|] eqn:Hcur.
  - intros Hst. apply elem_of_difference in Hst as [Hst Hne].
    specialize (Htidy _ Hst). set_solver.
  - intros Hst. specialize (Htidy _ Hst). congruence.
Qed.

Lemma step_tidy e s :
  match e with
  | ParentRenders _ => True
  | Granted k | Denied k => k = current s
  end ->
  camera_wf s -> camera_tidy s -> camera_tidy (step e s).
Proof.
  intros Htimely Hwf Htidy. destruct e as [active | k | k].
  - intros st Hst. rewrite (tidy_cleanup active s Htidy) in Hst. set_solver.
  - subst k. destruct (decide (current s ∈ awaiting s)) as [Hk | Hk];
      [| by simpl; rewrite decide_False by done].
    destruct (granted_fields (current s) s Hk) as (_ & Hc & Hst & _ & _ & Hlive & _).
    intros st. rewrite Hc, Hst, Hlive. intros Hin.
    apply elem_of_union in Hin as [Hin | Hin].
    + destruct Hwf as (_ & Ha & _). destruct (Ha _ Hk) as [_ Hnone].
      specialize (Htidy _ Hin). congruence.
    + apply elem_of_singleton in Hin as ->. apply lookup_insert_eq.
  - subst k. destruct (decide (current s ∈ awaiting s)) as [Hk | Hk];
      [| by simpl; rewrite decide_False by done].
    destruct (denied_fields (current s) s Hk) as (_ & Hc & Hst & _ & _ & Hlive & _).
    intros st. rewrite Hc, Hst, Hlive. apply Htidy.
Qed.

Lemma run_tidy (trace : list event) s :
  timely trace s = true -> camera_wf s -> camera_tidy s ->
  camera_wf (run trace s) /\ camera_tidy (run trace s).
Proof.
  revert s. unfold run.
  induction trace as [|e trace IH]; intros s Htimely Hwf Htidy; [by split |].
  simpl in Htimely. apply andb_true_iff in Htimely as [He Hrest]. simpl.
  apply IH; [exact Hrest | by apply step_wf |].
  apply step_tidy; [| done | done].
  destruct e as [active | k | k]; [done | |]; by apply Nat.eqb_eq in He.
Qed.

(** X13. When the browser answers every call of getUserMedia before App
    renders again, the camera is released in time: after any such session at
    most one stream is live, it is the one the current run of the effect
    holds, and the next render of App, whatever it passes, leaves no stream
    live. *)
Theorem timely_answers_release_camera (trace : list event) (active : bool) :
  timely trace init = true ->
  let s := run trace init in
  (size (live s) <= 1)%nat /\
  (forall st, st ∈ live s -> streamOf s !! current s = Some st) /\
  live (step (ParentRenders active) s) = ∅.
Proof.
  intros Htimely s.
  destruct (run_tidy trace init Htimely init_wf) as [_ Htidy]; [intros st; set_solver |].
  split; [by apply tidy_live |]. split; [exact Htidy |]. by apply tidy_cleanup.
Qed.

Lemma step_leaked (st : nat) e s : camera_leaked st s -> camera_leaked st (step e s).
Proof.
  intros (Hlive & Hfresh & Hheld). destruct e as [active | k | k].
  - destruct (parentRenders_fields active s) as (_ & _ & Hc & Hst & Hn & _ & Hl).
    unfold camera_leaked. rewrite Hc, Hst, Hn, Hl. split; [| split; [exact Hfresh |]].
    + destruct (streamOf s !! current s) as [st0|] eqn:Hcur; [| exact Hlive].
      apply elem_of_difference. split; [exact Hlive |].
      intros Heq. apply elem_of_singleton in Heq as <-. specialize (Hheld _ Hcur). lia.
    + intros k Hk. specialize (Hheld _ Hk). lia.
  - destruct (decide (k ∈ awaiting s)) as [Hk | Hk];
      [| by simpl; rewrite decide_False by done].
    destruct (granted_fields k s Hk) as (_ & Hc & Hst & Hn & _ & Hl & _).
    unfold camera_leaked. rewrite Hc, Hst, Hn, Hl. split; [| split; [lia |]].
    + apply elem_of_union. by left.
    + intros j Hj. apply lookup_insert_Some in Hj as [[_ Heq] | [_ Hj]]; [lia |].
      by apply Hheld.
  - destruct (decide (k ∈ awaiting s)) as [Hk | Hk];
      [| by simpl; rewrite decide_False by done].
    destruct (denied_fields k s Hk) as (_ & Hc & Hst & Hn & _ & Hl & _).
    unfold camera_leaked. by rewrite Hc, Hst, Hn, Hl.
Qed.

Lemma run_leaked (st : nat) (trace : list event) s :
  camera_leaked st s -> camera_leaked st (run trace s).
Proof.
  revert s. unfold run. induction trace as [|e trace IH]; intros s Hleak; [exact Hleak |].
  simpl. apply IH. by apply step_leaked.
Qed.

(** X14. A stream that arrives late is never stopped: when getUserMedia
    resolves for a run of the effect whose cleanup has already run (App
    rendered again, or the camera was switched off, before the browser
    answered), the stream it gives is live and stays live through every later
    event, because only the cleanup of that run would stop it. *)
Theorem late_stream_stays_live s (k : nat) (trace : list event) :
  reachable s -> k ∈ awaiting s -> (k < current s)%nat ->
  let st := nextStream s in
  (st ∉ live s) /\ (st ∈ live (run trace (step (Granted k) s))).
Proof.
  intros Hreach Hk Hlate st. pose proof (reachable_wf s Hreach) as (Hs & Ha & Hl).
  split; [intros Hin; specialize (Hl _ Hin); subst st; lia |].
  apply (run_leaked st). destruct (granted_fields k s Hk) as (_ & Hc & Hst & Hn & _ & Hlive & _).
  unfold camera_leaked. rewrite Hc, Hst, Hn, Hlive. subst st.
  split; [apply elem_of_union; right; by apply elem_of_singleton |]. split; [lia |].
  intros j Hj. apply lookup_insert_Some in Hj as [[<- _] | [_ Hj]]; [exact Hlate |].
  destruct (Hs _ _ Hj). lia.
Qed.

Lemma step_refused e s : hasPermission s = Some false -> hasPermission (step e s) = Some false.
Proof.
  intros Hperm. destruct e as [active | k | k].
  - by destruct (parentRenders_fields active s) as (_ & -> & _).
  - destruct (decide (k ∈ awaiting s)) as [Hk | Hk];
      [| by simpl; rewrite decide_False by done].
    destruct (granted_fields k s Hk) as (_ & _ & _ & _ & _ & _ & ->).
    unfold videoMounted. rewrite Hperm. simpl. by rewrite andb_false_r.
  - destruct (decide (k ∈ awaiting s)) as [Hk | Hk];
      [| by simpl; rewrite decide_False by done].
    by destruct (denied_fields k s Hk) as (_ & _ & _ & _ & _ & _ & -> & _).
Qed.

(** X15. A refusal of the camera is final for the component: once
    getUserMedia has rejected for a run that awaited it, the message is
    passed to onCameraError and [hasPermission] is false, and it stays false
    through every later event, also when a later call of getUserMedia
    succeeds; from then on captureFrame answers null. *)
Theorem refusal_is_permanent s (k : nat) (trace : list event) (dom : CameraView.Dom)
    (active : bool) :
  k ∈ awaiting s ->
  let s' := run trace (step (Denied k) s) in
  reported (step (Denied k) s)
    = (reported s ++ ["Camera permission denied or camera not found."])%list /\
  hasPermission s' = Some false /\
  (CameraView.hasPermission dom = hasPermission s' ->
   CameraView.captureFrame active dom = None).
Proof.
  intros Hk s'.
  destruct (denied_fields k s Hk) as (_ & _ & _ & _ & _ & _ & Hperm & Hrep).
  assert (Hfinal : hasPermission s' = Some false).
  { subst s'. revert Hperm. generalize (step (Denied k) s). unfold run.
    induction trace as [|e trace IH]; intros s0 Hperm; [exact Hperm |].
    simpl. apply IH. by apply step_refused. }
  split; [exact Hrep |]. split; [exact Hfinal |].
  rewrite Hfinal. intros Hdom.
  unfold CameraView.captureFrame, CameraView.videoRef_current. rewrite Hdom.
  by destruct active.
Qed.

End CameraStream.

(** ** The further theorems at work *)

Lemma reachable_run (vs : list SpeechSynthesisVoice)
    (trace : list (CameraView.Dom * App.event)) :
  App.reachable vs (App.run trace (App.init vs)).
Proof.
  unfold App.run. generalize (App.reachable_init vs). generalize (App.init vs).
  induction trace as [|[dom e] trace IH]; intros s Hs; [exact Hs |].
  simpl. apply IH. by constructor.
Qed.

Lemma camera_reachable_run (trace : list CameraEffect.event) :
  CameraEffect.reachable (CameraEffect.run trace CameraEffect.init).
Proof.
  unfold CameraEffect.run. generalize CameraEffect.reachable_init.
  generalize CameraEffect.init.
  induction trace as [|e trace IH]; intros s Hs; [exact Hs |].
  simpl. apply IH. by constructor.
Qed.

(** The end of the slow session: one entry logged, two analyses in flight. *)
Lemma reachable_flags_and_log_witness :
  let s := App.run slow_narration_session (App.init []) in
  (List.length (App.transcripts s) <= 10)%nat /\
  App.isProcessing s = App.processingRef s /\
  (App.processingRef s = true -> App.inflight s <> []).
Proof.
  intros s.
  exact (reachable_flags_and_log [] s (reachable_run [] slow_narration_session)).
Defined.

(** Live commentary alone: the second tick finds the first analysis in
    flight, the third finds it settled. *)
Lemma auto_triggers_alone_are_single_flight_witness :
  let s := App.run
             [ (camera_warming_up, App.ToggleCamera);
               (camera_ready, App.ToggleAutoNarration);
               (camera_ready, App.IntervalFires 1);
               (camera_ready, App.AnalysisSettles 0 (Rejected "offline") 5);
               (camera_ready, App.IntervalFires 1) ] (App.init []) in
  (App.processingRef s = false /\ App.inflight s = []) \/
  (App.processingRef s = true /\
   exists p, App.inflight s = [p] /\ App.triggeredByAuto p = true).
Proof.
  apply (auto_triggers_alone_are_single_flight []). repeat constructor.
Defined.

(** The first auto analysis of the slow session fails at the service. *)
Lemma analysis_settles_witness :
  let s := App.run (take 2 slow_narration_session) (App.init []) in
  let s' := App.step camera_ready (App.AnalysisSettles 0 (Rejected "offline") 7) s in
  App.inflight s' = [] /\ App.processingRef s' = false /\ App.isProcessing s' = false /\
  App.errorMsg s' = None /\
  exists entry u,
    App.transcripts s' = entry :: take 9 (App.transcripts s) /\
    text entry <> "" /\ timestamp entry = 7%Z /\
    last (queue (TTS.synthesis (App.ttsService s'))) = Some u /\
    uttText u = text entry /\
    (priority entry = urgent -> queue (TTS.synthesis (App.ttsService s')) = [u]).
Proof.
  intros s.
  exact (analysis_settles camera_ready s 0 (Rejected "offline") 7%Z
           (App.mkPending true "/9j/4AAQSkZJRg==" (App.render_closure s)) eq_refl).
Defined.

(** Navigation is selected while General is the mode; the timeout fires. *)
Lemma mode_switch_analyses_previous_mode_witness :
  let s := App.step camera_warming_up App.ToggleCamera (App.init []) in
  let s2 := App.step camera_ready (App.TimeoutFires 1)
              (App.step camera_ready (App.SelectMode NAVIGATION) s) in
  App.currentMode s2 = NAVIGATION /\
  map (fun p => App.cl_currentMode (App.captured p)) (App.inflight s2) = [GENERAL].
Proof.
  intros s s2.
  destruct (mode_switch_analyses_previous_mode camera_ready camera_ready s NAVIGATION
              "/9j/4AAQSkZJRg==" eq_refl eq_refl eq_refl eq_refl ltac:(discriminate))
    as (_ & Hmode & Hflight & _).
  split; [exact Hmode |].
  exact (f_equal (map (fun p => App.cl_currentMode (App.captured p))) Hflight).
Defined.

(** The camera is stopped while the timeout of a mode switch is pending. *)
Lemma no_analysis_while_camera_off_witness :
  let s := App.run [ (camera_warming_up, App.ToggleCamera);
                     (camera_ready, App.SelectMode NAVIGATION);
                     (camera_ready, App.ToggleCamera) ] (App.init []) in
  let later := App.run [ (camera_ready, App.TimeoutFires 1);
                         (camera_ready, App.AnalyzeNow) ] s in
  App.isCameraActive later = false /\
  (List.length (App.inflight later) <= List.length (App.inflight s))%nat.
Proof.
  intros s later.
  exact (proj2 (no_analysis_while_camera_off
                  [ (camera_ready, App.TimeoutFires 1); (camera_ready, App.AnalyzeNow) ] s
                  eq_refl ltac:(repeat constructor; discriminate))).
Defined.

(** The camera is started, granted, restarted by a render, granted again and
    stopped. *)
Lemma timely_answers_release_camera_witness :
  let trace := [ CameraEffect.ParentRenders true; CameraEffect.Granted 1;
                 CameraEffect.ParentRenders true; CameraEffect.Granted 2 ] in
  (size (CameraEffect.live (CameraEffect.run trace CameraEffect.init)) <= 1)%nat /\
  CameraEffect.live
    (CameraEffect.step (CameraEffect.ParentRenders false)
       (CameraEffect.run trace CameraEffect.init)) = ∅.
Proof.
  intros trace.
  destruct (timely_answers_release_camera trace false eq_refl) as (Hsize & _ & Hnone).
  by split.
Defined.

(** The camera is started and stopped before the browser answers; the answer
    then comes, and the camera is started and stopped once more. *)
Lemma late_stream_stays_live_witness :
  let s := CameraEffect.run [ CameraEffect.ParentRenders true;
                              CameraEffect.ParentRenders false ] CameraEffect.init in
  0%nat ∈ CameraEffect.live
    (CameraEffect.run [ CameraEffect.ParentRenders true; CameraEffect.Granted 3;
                        CameraEffect.ParentRenders false ]
       (CameraEffect.step (CameraEffect.Granted 1) s)).
Proof.
  intros s.
  refine (proj2 (late_stream_stays_live s 1 _ (camera_reachable_run _) _ _)).
  - apply elem_of_union. right. by apply elem_of_singleton.
  - unfold lt. apply le_n.
Defined.

(** The first request is refused; the camera is restarted and the second
    request is granted. *)
Lemma refusal_is_permanent_witness :
  let s := CameraEffect.step (CameraEffect.ParentRenders true) CameraEffect.init in
  CameraEffect.hasPermission
    (CameraEffect.run [ CameraEffect.ParentRenders false; CameraEffect.ParentRenders true;
                        CameraEffect.Granted 3 ]
       (CameraEffect.step (CameraEffect.Denied 1) s)) = Some false.
Proof.
  intros s.
  refine (proj1 (proj2 (refusal_is_permanent s 1 _ camera_ready true _))).
  apply elem_of_union. right. by apply elem_of_singleton.
Defined.
